(** * Tabular temporal-difference control: SARSA, Q-Learning, Expected SARSA

    A shallow embedding of the notebook [6_Temporal_Difference_Learning.ipynb]:
    the [ObservableEnvironment] interface, the [WindyGridWorld] environment,
    and the three agents [SarsaAgent], [QLearningAgent], [ExpectedSarsaAgent].

    Modelling conventions.
    - The notebook runs on Python 2.7. Its floats are modelled by exact
      rationals in canonical form ([Qc]), so that equality of tables is
      Leibniz equality; rounding is not modelled. A number that may be given
      as an [int] or as a [float] keeps that distinction ([Number]), since
      [/] floors on two ints.
    - Python ints are [Z]; tuples are pairs; action labels are strings.
    - The dictionaries [Q] and [policy], keyed by [(state, action)], are
      [gmap]s; a failed lookup raises [KeyError]. They are only read and
      written by key. The dictionary [QA], which [max] iterates over, is a
      hash table that iterates in slot order ([PyDict]).
    - Exceptions are explicit: a call returns, raises, or (for the [while]
      loop of [learn], which has no bound in the source) runs out of fuel.
    - The generator behind [np.random] is process-global state; it is
      explicit here and threaded through every call that may draw from
      it. *)

From Stdlib Require Import ZArith QArith Qcanon Lia Lqa.
From stdpp Require Import numbers list strings fin_maps gmap.

#[local] Set Warnings "-clear-no-such-hyp".

(** ** Outcomes of a Python call *)

Inductive Exception : Type :=
| KeyError
| ValueError
| IndexError.

Inductive Outcome (A : Type) : Type :=
| Returns (a : A)
| Raises (e : Exception)
| OutOfFuel.

Arguments Returns {A} a.
Arguments Raises {A} e.
Arguments OutOfFuel {A}.

Global Instance Outcome_ret : MRet Outcome := @Returns.
Global Instance Outcome_bind : MBind Outcome := λ A B f x,
  match x with
  | Returns a => f a
  | Raises e => Raises e
  | OutOfFuel => OutOfFuel
  end.

(** The value of a call that returns, [d] otherwise. *)
Definition returned {A} (d : A) (x : Outcome A) : A :=
  match x with Returns a => a | _ => d end.

Definition is_Returns {A} (x : Outcome A) : bool :=
  match x with Returns _ => true | _ => false end.


(** [d[k]] on a dictionary. *)
Definition dict_getitem `{Countable K} {V} (d : gmap K V) (k : K) : Outcome V :=
  match d !! k with
  | Some v => Returns v
  | None => Raises KeyError
  end.

(** [l[i]] on a Python list or along one axis of a numpy array: a negative
    index counts from the end, an index out of range raises [IndexError]. *)
Definition list_getitem {A} (l : list A) (i : Z) : Outcome A :=
  let len := Z.of_nat (length l) in
  let k := if (i <? 0)%Z then (i + len)%Z else i in
  if ((k <? 0) || (len <=? k))%Z then Raises IndexError
  else match l !! Z.to_nat k with
       | Some x => Returns x
       | None => Raises IndexError
       end.

(** [a[i, j]] on a two-dimensional numpy array stored by rows. *)
Definition ndarray_getitem (a : list (list Z)) (i j : Z) : Outcome Z :=
  row ← list_getitem a i; list_getitem row j.

(** [a.shape] of a two-dimensional numpy array stored by rows. *)
Definition shape (a : list (list Z)) : Z * Z :=
  (Z.of_nat (length a), Z.of_nat (length (default [] (head a)))).

(** [range(n)] *)
Definition range (n : Z) : list Z := Z.of_nat <$> seq 0 (Z.to_nat n).

(** [list(itertools.product(xs, ys))] *)
Definition product {A B} (xs : list A) (ys : list B) : list (A * B) :=
  x ← xs; y ← ys; [(x, y)].

(** ** Numbers *)

(** [float(n)] for a length. *)
Definition Qc_of_nat (n : nat) : Qc := Qc_of_Z (Z.of_nat n).

(** *** [int] and [float]

    A parameter that the caller may give as an [int] or as a [float]. *)
Inductive Number : Type :=
| PyInt (z : Z)
| PyFloat (q : Qc).

(** [float(x)] *)
Definition float (x : Number) : Qc :=
  match x with
  | PyInt z => Qc_of_Z z
  | PyFloat q => q
  end.

(** [x / n] in Python 2 for an int [n], here a length: the quotient is
    floored when [x] is an int as well. The source evaluates it for
    [n > 0] only. *)
Definition py2_div (x : Number) (n : nat) : Qc :=
  match x with
  | PyInt z => Qc_of_Z (z / Z.of_nat n)
  | PyFloat q => (q / Qc_of_nat n)%Qc
  end.

(** ** Python 2.7 dictionaries

    In CPython 2.7 a [dict] is an open-addressing hash table and iterates in
    slot order, so the order of [d.items()] is decided by the hashes of the
    keys and, where their probe sequences meet, by the order of insertion. *)

(** [hash(k)], as the unsigned 64-bit number the table works with. *)
Class Hashable (K : Type) := py_hash : K → Z.

Definition wrap64 (x : Z) : Z := x mod 2 ^ 64.

Fixpoint string_hash_from (x : Z) (s : string) : Z :=
  match s with
  | EmptyString => x
  | String c s' =>
      string_hash_from
        (Z.lxor (wrap64 (1000003 * x)) (Z.of_N (Ascii.N_of_ascii c))) s'
  end.

(** [hash(s)] of a [str] in CPython 2.7 on a 64-bit platform, with hash
    randomisation off, which is its default. *)
Definition string_hash (s : string) : Z :=
  match s with
  | EmptyString => 0
  | String c _ =>
      let x := Z.shiftl (Z.of_N (Ascii.N_of_ascii c)) 7 in
      let x := string_hash_from x s in
      let x := Z.lxor x (Z.of_nat (String.length s)) in
      if decide (x = 2 ^ 64 - 1) then 2 ^ 64 - 2 else x
  end%Z.

Global Instance string_hashable : Hashable string := string_hash.

Module PyDict.

Section Table.

Context {K : Type} `{EqDecision K, Hashable K}.

(** The keys in the table, in slot order. *)
Definition keys (table : list (option K)) : list K := omap id table.

(** The first empty slot of the probe sequence that starts at [i]:
    [i = (i << 2) + i + perturb + 1] in 64-bit arithmetic, the slot being
    [i & mask], with [perturb >>= 5] after each probe. The sequence visits
    every slot, so on a table that is not full the search ends; [fuel]
    bounds it. *)
Fixpoint free_slot (fuel : nat) (table : list (option K)) (i perturb : Z)
  : option nat :=
  match fuel with
  | O => None
  | S fuel' =>
      let mask := (Z.of_nat (length table) - 1)%Z in
      let slot := Z.to_nat (Z.land i mask) in
      match table !! slot with
      | Some None => Some slot
      | _ =>
          free_slot fuel' table
            (wrap64 (Z.shiftl i 2 + i + perturb + 1)) (Z.shiftr perturb 5)
      end
  end.

(** A key that is not in the table goes to the first empty slot of its
    probe sequence. The table always has an empty slot, since it grows
    before it is full; the last case only makes [place] total. *)
Definition place (table : list (option K)) (k : K) : list (option K) :=
  let mask := (Z.of_nat (length table) - 1)%Z in
  match free_slot (64 + length table) table (Z.land (py_hash k) mask)
          (py_hash k) with
  | Some slot => <[slot := Some k]> table
  | None => table ++ [Some k]
  end.

(** The table grows when two thirds of it are in use: its keys move, in
    slot order, to an empty table of the first power of two above four
    times their number (twice, beyond 50000 keys). *)
Definition resize (table : list (option K)) : list (option K) :=
  let used := Z.of_nat (length (keys table)) in
  let minused := ((if decide (50000 < used) then 2 else 4) * used)%Z in
  let newsize := Z.max 8 (2 ^ (Z.log2 minused + 1)) in
  foldl place (replicate (Z.to_nat newsize) None) (keys table).

(** [d[k] = v] as far as the table of keys goes: a key already present
    keeps its slot. *)
Definition insert_key (table : list (option K)) (k : K) : list (option K) :=
  if decide (k ∈ keys table) then table
  else
    let table := place table k in
    if decide (2 * length table ≤ 3 * length (keys table)) then resize table
    else table.

Definition empty_table : list (option K) := replicate 8 None.

(** The order in which a dictionary built by inserting [ks] iterates. *)
Definition iteration_order (ks : list K) : list K :=
  keys (foldl insert_key empty_table ks).

End Table.

(** A dictionary: the table of its keys, and the value of each. *)
Record t (K V : Type) `{Countable K} : Type := {
  table : list (option K);
  values : gmap K V
}.

Arguments table {K V _ _} _.
Arguments values {K V _ _} _.

Section Dict.

Context {K V : Type} `{Countable K, Hashable K}.

Definition empty : t K V := {| table := empty_table; values := ∅ |}.

Definition setitem (d : t K V) (k : K) (v : V) : t K V :=
  {| table := insert_key (table d) k; values := <[k := v]> (values d) |}.

(** [d.items()] *)
Definition items (d : t K V) : list (K * V) :=
  omap (λ k, (λ v, (k, v)) <$> values d !! k) (keys (table d)).

End Dict.

End PyDict.

(** ** The environment interface

    [get_states] and [get_possible_actions] are enumerations; [execute_action]
    "does not have to be deterministic", so it may draw from the random
    state; every method may raise. *)

Module ObservableEnvironment.

Record t (State Action RandomState : Type) : Type := {
  get_states : list State;
  get_possible_actions : State → list Action;
  execute_action :
    State → Action → RandomState → Outcome (State * Qc * RandomState);
  is_terminal_state : State → Outcome bool
}.

Arguments get_states {State Action RandomState} _.
Arguments get_possible_actions {State Action RandomState} _ _.
Arguments execute_action {State Action RandomState} _ _ _ _.
Arguments is_terminal_state {State Action RandomState} _ _.

End ObservableEnvironment.

(** ** Windy GridWorld *)

Module WindyGridWorld.

Record t : Type := {
  rewards : list (list Z);
  wind : list Z;
  states : list (Z * Z);
  max_down : Z;
  max_right : Z
}.

Definition UP : string := "UP".
Definition DOWN : string := "DOWN".
Definition LEFT : string := "LEFT".
Definition RIGHT : string := "RIGHT".

Definition __init__ (rewards : list (list Z)) (wind : list Z) : t :=
  let '(n, m) := shape rewards in
  {| rewards := rewards;
     wind := wind;
     states := product (range n) (range m);
     max_down := n - 1;
     max_right := m - 1 |}.

Definition get_states (self : t) : list (Z * Z) := states self.

Definition get_possible_actions (self : t) (state : Z * Z) : list string :=
  let '(i, j) := state in
  let actions := [] in
  let actions := if (0 <? i)%Z then actions ++ [UP] else actions in
  let actions := if (i <? max_down self)%Z then actions ++ [DOWN] else actions in
  let actions := if (0 <? j)%Z then actions ++ [LEFT] else actions in
  let actions := if (j <? max_right self)%Z then actions ++ [RIGHT] else actions in
  actions.

Definition execute_action (self : t) (state : Z * Z) (action : string)
  : Outcome ((Z * Z) * Z) :=
  let '(i, j) := state in
  let i := if decide (action = UP) then (i - 1)%Z else i in
  let i := if decide (action = DOWN) then (i + 1)%Z else i in
  let j := if decide (action = LEFT) then (j - 1)%Z else j in
  let j := if decide (action = RIGHT) then (j + 1)%Z else j in
  w ← list_getitem (wind self) j;
  let i := (i - w)%Z in
  let i := Z.max 0 (Z.min i (max_down self)) in
  let j := Z.max 0 (Z.min j (max_right self)) in
  r ← ndarray_getitem (rewards self) i j;
  Returns ((i, j), (r - 1)%Z).

Definition is_terminal_state (self : t) (state : Z * Z) : Outcome bool :=
  let '(i, j) := state in
  r ← ndarray_getitem (rewards self) i j;
  Returns (0 <? r)%Z.

(** The grid seen through the interface the agents consume. *)
Definition as_environment {RandomState : Type} (self : t)
  : ObservableEnvironment.t (Z * Z) string RandomState :=
  {| ObservableEnvironment.get_states := get_states self;
     ObservableEnvironment.get_possible_actions := get_possible_actions self;
     ObservableEnvironment.execute_action := λ s a rng,
       '(s', r) ← execute_action self s a; Returns (s', Qc_of_Z r, rng);
     ObservableEnvironment.is_terminal_state := is_terminal_state self |}.

End WindyGridWorld.

(** ** The agents *)

(** The class of an agent object decides which [_inner_learn] runs. *)
Inductive AgentClass : Type :=
| SarsaAgent
| QLearningAgent
| ExpectedSarsaAgent.

(** [for x in xs: acc = body(acc, x)], stopping at the first exception. *)
Fixpoint for_each {A B} (body : A → B → Outcome A) (acc : A) (xs : list B)
  : Outcome A :=
  match xs with
  | [] => Returns acc
  | x :: xs' => acc' ← body acc x; for_each body acc' xs'
  end.

(** *** [np.random.choice(a, p=p)]

    As numpy implements it: [a] must be non-empty, [p] must have the length
    of [a], hold no negative entry and sum to 1 within [sqrt(eps)] where
    [eps = 2^-52]; then one uniform sample [u] is drawn and the result is
    [a[idx]] for [idx = searchsorted(cdf, u, side='right')], [cdf] being the
    running sums of [p] divided by their last element. *)

Fixpoint cumsum_from (acc : Qc) (p : list Qc) : list Qc :=
  match p with
  | [] => []
  | x :: p' => (acc + x)%Qc :: cumsum_from (acc + x)%Qc p'
  end.

Definition cumsum (p : list Qc) : list Qc := cumsum_from 0%Qc p.

Definition sum_list (p : list Qc) : Qc := foldr Qcplus 0%Qc p.

(** On the non-decreasing [cdf], the number of entries [≤ u]. *)
Fixpoint searchsorted_right (cdf : list Qc) (u : Qc) : nat :=
  match cdf with
  | [] => 0
  | c :: cdf' => if decide (c ≤ u)%Qc then S (searchsorted_right cdf' u) else 0
  end.

Definition atol : Qc := Q2Qc (1 # 67108864).

Section Agents.

Context {State Action RandomState : Type}.
Context `{Countable State, Countable Action, Hashable Action}.

(** The random source: one uniform sample and the next generator state. *)
Variable random_sample : RandomState → Qc * RandomState.

Definition np_random_choice (a : list Action) (p : list Qc) (rng : RandomState)
  : Outcome (Action * RandomState) :=
  if decide (length a = 0) then Raises ValueError
  else if decide (length p ≠ length a) then Raises ValueError
  else if decide (Exists (λ x, x < 0)%Qc p) then Raises ValueError
  else if decide (atol < sum_list p - 1 ∨ atol < 1 - sum_list p)%Qc
  then Raises ValueError
  else
    let cdf := cumsum p in
    let cdf := (λ c, c / List.last cdf 0)%Qc <$> cdf in
    let '(u, rng) := random_sample rng in
    match a !! searchsorted_right cdf u with
    | Some x => Returns (x, rng)
    | None => Raises IndexError
    end.

Record Agent : Type := {
  cls : AgentClass;
  env : ObservableEnvironment.t State Action RandomState;
  discount_factor : Qc;
  alpha : Qc;
  epsilon : Number;
  Q : gmap (State * Action) Qc;
  policy : gmap (State * Action) Qc
}.

(** [self.Q = q] and [self.policy = p] as functional updates of [self]. *)
Definition set_Q (self : Agent) (q : gmap (State * Action) Qc) : Agent :=
  {| cls := cls self; env := env self;
     discount_factor := discount_factor self; alpha := alpha self;
     epsilon := epsilon self; Q := q; policy := policy self |}.

Definition set_policy (self : Agent) (p : gmap (State * Action) Qc) : Agent :=
  {| cls := cls self; env := env self;
     discount_factor := discount_factor self; alpha := alpha self;
     epsilon := epsilon self; Q := Q self; policy := p |}.

(** [SarsaAgent.__init__], inherited by the two subclasses. *)
Definition __init__ (cls : AgentClass)
    (env : ObservableEnvironment.t State Action RandomState)
    (discount_factor alpha : Qc) (epsilon : Number) : Agent :=
  let self := {| cls := cls; env := env; discount_factor := discount_factor;
                 alpha := alpha; epsilon := epsilon; Q := ∅; policy := ∅ |} in
  foldl (λ self state,
    let actions := ObservableEnvironment.get_possible_actions env state in
    let num_actions := length actions in
    foldl (λ self action,
      let self := set_Q self (<[(state, action) := 0%Qc]> (Q self)) in
      set_policy self
        (<[(state, action) := (1 / Qc_of_nat num_actions)%Qc]> (policy self)))
      self actions)
    self (ObservableEnvironment.get_states env).

Definition _choose_action (self : Agent) (S : State) (rng : RandomState)
  : Outcome (Action * RandomState) :=
  let actions := ObservableEnvironment.get_possible_actions (env self) S in
  ps ← mapM (λ A, dict_getitem (policy self) (S, A)) actions;
  np_random_choice actions ps rng.

(** [max(items, key=itemgetter(1))]: the first item whose value no later
    item exceeds; [ValueError] on an empty sequence. *)
Fixpoint max_from (best : Action * Qc) (items : list (Action * Qc))
  : Action * Qc :=
  match items with
  | [] => best
  | x :: items' =>
      max_from (if decide (best.2 < x.2)%Qc then x else best) items'
  end.

Definition max_by_value (items : list (Action * Qc)) : Outcome (Action * Qc) :=
  match items with
  | [] => Raises ValueError
  | x :: items' => Returns (max_from x items')
  end.

Definition _find_best_action (self : Agent) (state : State) : Outcome Action :=
  QA ← for_each (λ QA action,
          q ← dict_getitem (Q self) (state, action);
          Returns (PyDict.setitem QA action q))
        PyDict.empty
        (ObservableEnvironment.get_possible_actions (env self) state);
  best ← max_by_value (PyDict.items QA);
  Returns best.1.

(** One iteration of the loop over states in [_update_policy]. *)
Definition update_policy_at (self : Agent) (state : State) : Outcome Agent :=
  let actions := ObservableEnvironment.get_possible_actions (env self) state in
  let num_actions := length actions in
  best_action ← _find_best_action self state;
  let self :=
    foldl (λ self action,
      set_policy self
        (<[(state, action) := py2_div (epsilon self) num_actions]>
           (policy self)))
      self actions in
  p ← dict_getitem (policy self) (state, best_action);
  Returns (set_policy self
             (<[(state, best_action) := (p + (1 - float (epsilon self)))%Qc]>
                (policy self))).

Definition _update_policy (self : Agent) : Outcome Agent :=
  for_each update_policy_at self (ObservableEnvironment.get_states (env self)).

(** [SarsaAgent._inner_learn] *)
Definition SarsaAgent_inner_learn (self : Agent) (S : State) (A : Action)
    (rng : RandomState) : Outcome (Agent * (State * Action) * RandomState) :=
  '(S_next, R, rng) ← ObservableEnvironment.execute_action (env self) S A rng;
  '(A_next, rng) ← _choose_action self S_next rng;
  q ← dict_getitem (Q self) (S, A);
  q_next ← dict_getitem (Q self) (S_next, A_next);
  Returns
    (set_Q self
       (<[(S, A) := (q + alpha self * (R + discount_factor self * q_next - q))%Qc]>
          (Q self)),
     (S_next, A_next), rng).

(** [QLearningAgent._inner_learn] *)
Definition QLearningAgent_inner_learn (self : Agent) (S : State) (A : Action)
    (rng : RandomState) : Outcome (Agent * (State * Action) * RandomState) :=
  '(A, rng) ← _choose_action self S rng;
  '(S_next, R, rng) ← ObservableEnvironment.execute_action (env self) S A rng;
  A_best ← _find_best_action self S_next;
  q ← dict_getitem (Q self) (S, A);
  q_best ← dict_getitem (Q self) (S_next, A_best);
  Returns
    (set_Q self
       (<[(S, A) := (q + alpha self * (R + discount_factor self * q_best - q))%Qc]>
          (Q self)),
     (S_next, A), rng).

(** [ExpectedSarsaAgent._inner_learn] *)
Definition ExpectedSarsaAgent_inner_learn (self : Agent) (S : State) (A : Action)
    (rng : RandomState) : Outcome (Agent * (State * Action) * RandomState) :=
  '(S_next, R, rng) ← ObservableEnvironment.execute_action (env self) S A rng;
  '(A_next, rng) ← _choose_action self S_next rng;
  expected_next_value ←
    for_each (λ expected_next_value action,
        p ← dict_getitem (policy self) (S_next, action);
        q ← dict_getitem (Q self) (S_next, action);
        Returns (expected_next_value + p * q)%Qc)
      0%Qc (ObservableEnvironment.get_possible_actions (env self) S_next);
  q ← dict_getitem (Q self) (S, A);
  Returns
    (set_Q self
       (<[(S, A) :=
            (q + alpha self * (R + discount_factor self * expected_next_value - q))%Qc]>
          (Q self)),
     (S_next, A_next), rng).

(** Method resolution of [self._inner_learn]. *)
Definition _inner_learn (self : Agent) (S : State) (A : Action)
    (rng : RandomState) : Outcome (Agent * (State * Action) * RandomState) :=
  match cls self with
  | SarsaAgent => SarsaAgent_inner_learn self S A rng
  | QLearningAgent => QLearningAgent_inner_learn self S A rng
  | ExpectedSarsaAgent => ExpectedSarsaAgent_inner_learn self S A rng
  end.

(** The [while] loop of [learn]; [fuel] bounds the number of times its
    condition is tested. *)
Fixpoint episode (fuel : nat) (self : Agent) (S : State) (A : Action)
    (rng : RandomState) : Outcome (Agent * RandomState) :=
  match fuel with
  | O => OutOfFuel
  | Datatypes.S fuel' =>
      terminal ← ObservableEnvironment.is_terminal_state (env self) S;
      if terminal : bool then Returns (self, rng)
      else
        '(self, (S, A), rng) ← _inner_learn self S A rng;
        self ← _update_policy self;
        episode fuel' self S A rng
  end.

(** The [for] loop of [learn], over [range(num_samples)]. *)
Fixpoint learn_loop (fuel : nat) (self : Agent) (n : nat)
    (initial_state : State) (rng : RandomState) : Outcome (Agent * RandomState) :=
  match n with
  | O => Returns (self, rng)
  | Datatypes.S n' =>
      let S := initial_state in
      '(A, rng) ← _choose_action self S rng;
      '(self, rng) ← episode fuel self S A rng;
      learn_loop fuel self n' initial_state rng
  end.

Definition learn (fuel : nat) (self : Agent) (num_samples : Z)
    (initial_state : State) (rng : RandomState) : Outcome (Agent * RandomState) :=
  learn_loop fuel self (Z.to_nat num_samples) initial_state rng.

End Agents.

(** ** Specification vocabulary *)

Section Vocabulary.

Context {State Action RandomState : Type}.
Context `{Countable State, Countable Action, Hashable Action}.
Variable random_sample : RandomState → Qc * RandomState.

Abbreviation Agent := (@Agent State Action RandomState _ _ _ _).
Abbreviation Env := (ObservableEnvironment.t State Action RandomState).

(** The pairs enumerated from the environment by [__init__]. *)
Definition enumerated (env : Env) (k : State * Action) : Prop :=
  k.1 ∈ ObservableEnvironment.get_states env ∧
  k.2 ∈ ObservableEnvironment.get_possible_actions env k.1.

Global Instance enumerated_dec (e : Env) (k : State * Action) :
  Decision (enumerated e k).
Proof. unfold enumerated. apply _. Defined.

(** Two agent objects with the same class, environment and parameters. *)
Definition same_attributes (self self' : Agent) : Prop :=
  cls self' = cls self ∧ env self' = env self ∧
  discount_factor self' = discount_factor self ∧
  alpha self' = alpha self ∧ epsilon self' = epsilon self.

(** The share of every legal action at [state]: [epsilon / |A(state)|],
    floored when [epsilon] is an int. *)
Definition share (self : Agent) (state : State) : Qc :=
  py2_div (epsilon self)
    (length (ObservableEnvironment.get_possible_actions (env self) state)).

(** The probability that the refresh gives to [a] at [state]: the share,
    plus [1 - epsilon] for the best action. *)
Definition greedy_probability (self : Agent) (state : State) (a : Action)
  : option Qc :=
  match _find_best_action self state with
  | Returns best =>
      Some (if decide (a = best)
            then (share self state + (1 - float (epsilon self)))%Qc
            else share self state)
  | _ => None
  end.

(** Every state offers an action, and every enumerated pair has a value
    in [Q]: what [_update_policy] needs in order to return. *)
Definition refreshable (self : Agent) : Prop :=
  ∀ s, s ∈ ObservableEnvironment.get_states (env self) →
    ObservableEnvironment.get_possible_actions (env self) s ≠ [] ∧
    ∀ a, a ∈ ObservableEnvironment.get_possible_actions (env self) s →
         is_Some (Q self !! (s, a)).

(** Both tables hold exactly the enumerated pairs. *)
Definition tables_enumerated (self : Agent) : Prop :=
  ∀ k, (is_Some (Q self !! k) ↔ enumerated (env self) k) ∧
       (is_Some (policy self !! k) ↔ enumerated (env self) k).

(** [best] is the first action, in the order in which the dictionary [QA]
    built from [A(state)] iterates, whose value no action of [A(state)]
    exceeds. *)
Definition first_argmax (self : Agent) (state : State) (best : Action) : Prop :=
  ∃ before after q_best,
    PyDict.iteration_order
      (ObservableEnvironment.get_possible_actions (env self) state)
      = before ++ best :: after ∧
    Q self !! (state, best) = Some q_best ∧
    Forall (λ a, ∃ q, Q self !! (state, a) = Some q ∧ (q < q_best)%Qc) before ∧
    Forall (λ a, ∃ q, Q self !! (state, a) = Some q ∧ (q ≤ q_best)%Qc) after.

(** The epsilon-greedy shape of the policy at one state. *)
Definition epsilon_greedy_at (self : Agent) (state : State) : Prop :=
  let actions := ObservableEnvironment.get_possible_actions (env self) state in
  ∃ best,
    _find_best_action self state = Returns best ∧
    first_argmax self state best ∧
    policy self !! (state, best)
      = Some ((1 - float (epsilon self)) + share self state)%Qc ∧
    ∀ a, a ∈ actions → a ≠ best →
         policy self !! (state, a) = Some (share self state).

(** The same shape with the probabilities written out, for the value [e]
    of a float [epsilon]: [(1 - e) + e / |A(state)|] for the best action,
    [e / |A(state)|] for every other legal action. *)
Definition epsilon_greedy_with (self : Agent) (state : State) (e : Qc) : Prop :=
  let actions := ObservableEnvironment.get_possible_actions (env self) state in
  ∃ best,
    _find_best_action self state = Returns best ∧
    first_argmax self state best ∧
    policy self !! (state, best)
      = Some ((1 - e) + e / Qc_of_nat (length actions))%Qc ∧
    ∀ a, a ∈ actions → a ≠ best →
         policy self !! (state, a) = Some (e / Qc_of_nat (length actions))%Qc.

(** The policy entries over [A(state)] are probabilities that sum to 1. *)
Definition valid_distribution (self : Agent) (state : State) : Prop :=
  ∃ ps,
    mapM (λ a, dict_getitem (policy self) (state, a))
      (ObservableEnvironment.get_possible_actions (env self) state)
      = Returns ps ∧
    Forall (λ p, 0 ≤ p ≤ 1)%Qc ps ∧
    sum_list ps = 1%Qc.

(** [a] is what inverse-transform sampling selects from [actions], with the
    probabilities [ps], for the uniform sample [u]: it stands at the first
    index at which the cumulative probability, as a fraction of the total,
    exceeds [u]. *)
Definition selected_by (actions : list Action) (ps : list Qc) (u : Qc)
    (a : Action) : Prop :=
  ∃ i, actions !! i = Some a ∧
       (∀ j, j < i → (sum_list (take (Datatypes.S j) ps) / sum_list ps ≤ u)%Qc) ∧
       (u < sum_list (take (Datatypes.S i) ps) / sum_list ps)%Qc.

(** [A] is sampled from the policy at [S]: the policy holds a probability
    for every legal action of [S], numpy accepts them as a distribution
    (none is negative, their sum is 1 within its tolerance), one uniform
    sample is drawn from the generator, and it selects [A]. *)
Definition sampled_from_policy (self : Agent) (S : State) (rng : RandomState)
    (A : Action) (rng' : RandomState) : Prop :=
  let actions := ObservableEnvironment.get_possible_actions (env self) S in
  ∃ ps u,
    Forall2 (λ a p, policy self !! (S, a) = Some p) actions ps ∧
    Forall (λ p, 0 ≤ p)%Qc ps ∧
    (sum_list ps - 1 ≤ atol)%Qc ∧ (1 - sum_list ps ≤ atol)%Qc ∧
    random_sample rng = (u, rng') ∧
    selected_by actions ps u A.






(** The key of [Q] that one call of [_inner_learn self S A] assigns, given
    the action [A'] the call returns: [QLearningAgent] assigns at the action
    it samples itself, which is the one it returns. *)
Definition updated_key (self : Agent) (S : State) (A A' : Action)
  : State * Action :=
  match cls self with
  | QLearningAgent => (S, A')
  | _ => (S, A)
  end.

(** The keys of [Q] assigned by the steps of [episode], in order. *)
Fixpoint episode_updates (fuel : nat) (self : Agent) (S : State) (A : Action)
    (rng : RandomState) : list (State * Action) :=
  match fuel with
  | O => []
  | Datatypes.S fuel' =>
      match ObservableEnvironment.is_terminal_state (env self) S with
      | Returns false =>
          match _inner_learn random_sample self S A rng with
          | Returns (self1, (S', A'), rng1) =>
              updated_key self S A A' ::
              match _update_policy self1 with
              | Returns self2 => episode_updates fuel' self2 S' A' rng1
              | _ => []
              end
          | _ => []
          end
      | _ => []
      end
  end.

(** The keys of [Q] assigned during [learn_loop], in order. *)
Fixpoint learn_loop_updates (fuel : nat) (self : Agent) (n : nat)
    (initial_state : State) (rng : RandomState) : list (State * Action) :=
  match n with
  | O => []
  | Datatypes.S n' =>
      match _choose_action random_sample self initial_state rng with
      | Returns (A, rng1) =>
          episode_updates fuel self initial_state A rng1 ++
          match episode random_sample fuel self initial_state A rng1 with
          | Returns (self', rng') =>
              learn_loop_updates fuel self' n' initial_state rng'
          | _ => []
          end
      | _ => []
      end
  end.

(** A sequence of calls [self.learn(n, s)] on one agent object. *)
Fixpoint learn_calls (fuel : nat) (self : Agent) (calls : list (Z * State))
    (rng : RandomState) : Outcome (Agent * RandomState) :=
  match calls with
  | [] => Returns (self, rng)
  | (num_samples, initial_state) :: calls' =>
      '(self, rng) ← learn random_sample fuel self num_samples initial_state rng;
      learn_calls fuel self calls' rng
  end.

(** The keys of [Q] assigned during [learn_calls], in order. *)
Fixpoint learn_calls_updates (fuel : nat) (self : Agent)
    (calls : list (Z * State)) (rng : RandomState) : list (State * Action) :=
  match calls with
  | [] => []
  | (num_samples, initial_state) :: calls' =>
      learn_loop_updates fuel self (Z.to_nat num_samples) initial_state rng ++
      match learn random_sample fuel self num_samples initial_state rng with
      | Returns (self', rng') => learn_calls_updates fuel self' calls' rng'
      | _ => []
      end
  end.

End Vocabulary.

(** ** Concrete inputs *)

(** A deterministic random source: the generator state is the number of
    samples drawn so far, and the samples cycle through sixteenths. *)
Definition counter_sample (n : nat) : Qc * nat :=
  (Q2Qc (Z.of_nat ((7 * n + 3) mod 16) # 16), S n).

(** The environment on which the notebook evaluates the agents. *)
Module Notebook.

Definition R : list (list Z) :=
  [[0; 0; 0; 0; 0; 0];
   [0; 0; 0; 0; 1; 0];
   [0; 0; 0; 0; 0; 0]]%Z.

Definition wind : list Z := [0; 0; 1; 1; 1; 0]%Z.

Definition world : WindyGridWorld.t := WindyGridWorld.__init__ R wind.

Definition env : ObservableEnvironment.t (Z * Z) string nat :=
  WindyGridWorld.as_environment world.

(** [RLAgent(env)] with the default arguments of [__init__]. *)
Definition agent (c : AgentClass) : @Agent (Z * Z) string nat _ _ _ _ :=
  __init__ c env 1%Qc (Q2Qc (4 # 10)) (PyFloat (Q2Qc (5 # 100))).

End Notebook.

(** A two-state environment whose terminal state offers no action. *)
Module DeadEnd.

Definition env : ObservableEnvironment.t Z string nat :=
  {| ObservableEnvironment.get_states := [0; 1]%Z;
     ObservableEnvironment.get_possible_actions := λ s,
       if decide (s = 0%Z) then ["GO"] else [];
     ObservableEnvironment.execute_action := λ s a rng,
       Returns (1%Z, 0%Qc, rng);
     ObservableEnvironment.is_terminal_state := λ s,
       Returns (bool_decide (s = 1%Z)) |}.

Definition agent (c : AgentClass) : @Agent Z string nat _ _ _ _ :=
  __init__ c env 1%Qc (Q2Qc (4 # 10)) (PyFloat (Q2Qc (5 # 100))).

End DeadEnd.

(** ** Further vocabulary *)

(** A two-dimensional array: every row has the length of the first. *)
Definition rectangular (a : list (list Z)) : Prop :=
  Forall (λ row, Z.of_nat (length row) = (shape a).2) a.

(** ** [ObservableEnvironment.sample] *)

Section Sampling.

Context {State Action RandomState : Type}.
Context `{Countable State, Countable Action}.
Variable random_sample : RandomState → Qc * RandomState.

(** The [while] loop of [sample], which appends to [result]; [fuel] bounds
    the number of times its condition is tested. *)
Fixpoint sample_loop (fuel : nat)
    (self : ObservableEnvironment.t State Action RandomState)
    (policy : gmap (State * Action) Qc) (state : State)
    (result : list (State * Action * Qc)) (rng : RandomState)
  : Outcome (list (State * Action * Qc) * RandomState) :=
  match fuel with
  | O => OutOfFuel
  | Datatypes.S fuel' =>
      terminal ← ObservableEnvironment.is_terminal_state self state;
      if terminal : bool then Returns (result, rng)
      else
        let actions := ObservableEnvironment.get_possible_actions self state in
        ps ← mapM (λ action, dict_getitem policy (state, action)) actions;
        '(action, rng) ← np_random_choice random_sample actions ps rng;
        '(new_state, reward, rng) ←
          ObservableEnvironment.execute_action self state action rng;
        sample_loop fuel' self policy new_state
          (result ++ [(state, action, reward)]) rng
  end.

Definition sample (fuel : nat)
    (self : ObservableEnvironment.t State Action RandomState)
    (policy : gmap (State * Action) Qc) (state : State) (rng : RandomState)
  : Outcome (list (State * Action * Qc) * RandomState) :=
  sample_loop fuel self policy state [] rng.

(** A list of transitions that starts at [state], follows the environment
    from each state to the next through legal actions of non-terminal
    states, and stops at a terminal state. *)
Fixpoint trajectory_from
    (self : ObservableEnvironment.t State Action RandomState)
    (state : State) (transitions : list (State * Action * Qc)) : Prop :=
  match transitions with
  | [] => ObservableEnvironment.is_terminal_state self state = Returns true
  | (s, a, r) :: rest =>
      s = state ∧
      ObservableEnvironment.is_terminal_state self s = Returns false ∧
      a ∈ ObservableEnvironment.get_possible_actions self s ∧
      ∃ rng1 s' rng2,
        ObservableEnvironment.execute_action self s a rng1
          = Returns (s', r, rng2) ∧
        trajectory_from self s' rest
  end.

End Sampling.

(** ** Signs of rewards, values and probabilities *)

Section Signs.

Context {State Action RandomState : Type}.
Context `{Countable State, Countable Action}.

(** No transition of the environment is rewarded with more than zero. *)
Definition rewards_nonpositive
    (e : ObservableEnvironment.t State Action RandomState) : Prop :=
  ∀ S A rng S' R rng',
    ObservableEnvironment.execute_action e S A rng = Returns (S', R, rng') →
    (R ≤ 0)%Qc.

Definition values_nonpositive
    (self : @Agent State Action RandomState _ _ _ _) : Prop :=
  ∀ k q, Q self !! k = Some q → (q ≤ 0)%Qc.

Definition policy_nonnegative
    (self : @Agent State Action RandomState _ _ _ _) : Prop :=
  ∀ k p, policy self !! k = Some p → (0 ≤ p)%Qc.

End Signs.

(** ** [draw_policy]

    The function prints one line per row; the model returns the lines
    printed, in order, together with the outcome of the call. *)

Section Drawing.

Context {RandomState : Type}.

(** The dictionary [lookup] of [draw_policy]. *)
Definition lookup : gmap string string :=
  {[ "UP" := "↑"; "DOWN" := "↓"; "LEFT" := "←"; "RIGHT" := "→" ]}.

(** The body of the loop over [j], which appends to [result]. *)
Definition draw_cell (agent : @Agent (Z * Z) string RandomState _ _ _ _)
    (i : Z) (result : string) (j : Z) : Outcome string :=
  let state := (i, j) in
  let actions := ObservableEnvironment.get_possible_actions (env agent) state in
  QA ← for_each (λ QA possible_action,
          q ← dict_getitem (Q agent) (state, possible_action);
          Returns (PyDict.setitem QA possible_action q))
        PyDict.empty actions;
  best ← max_by_value (PyDict.items QA);
  let best_action := best.1 in
  arrow ← dict_getitem lookup best_action;
  Returns (result +:+ arrow).

(** The loop over [i], which prints each row it completes. *)
Fixpoint draw_rows (agent : @Agent (Z * Z) string RandomState _ _ _ _)
    (rows : list Z) (m : Z) (printed : list string)
  : list string * Outcome () :=
  match rows with
  | [] => (printed, Returns ())
  | i :: rows' =>
      match for_each (draw_cell agent i) "" (range m) with
      | Returns result => draw_rows agent rows' m (printed ++ [result])
      | Raises e => (printed, Raises e)
      | OutOfFuel => (printed, OutOfFuel)
      end
  end.

(** [np.zeros((n, m))] raises [ValueError] on a negative dimension. *)
Definition draw_policy (agent : @Agent (Z * Z) string RandomState _ _ _ _)
    (n m : Z) : list string * Outcome () :=
  if decide (n < 0 ∨ m < 0)%Z then ([], Raises ValueError)
  else draw_rows agent (range n) m [].

End Drawing.

(** * Properties *)

(** ** Outcomes, loops and dictionaries *)

Lemma bind_Returns {A B} (x : Outcome A) (f : A → Outcome B) (b : B) :
  x ≫= f = Returns b ↔ ∃ a, x = Returns a ∧ f a = Returns b.
Proof.
  destruct x as [a| |]; simpl; split.
  - intros Hf. by exists a.
  - by intros (a' & [= <-] & Hf).
  - discriminate.
  - by intros (? & ? & ?).
  - discriminate.
  - by intros (? & ? & ?).
Qed.

Lemma returned_Returns {A} (d : A) (x : Outcome A) :
  is_Returns x = true → x = Returns (returned d x).
Proof. by destruct x. Qed.


(** The same for a step, which returns an agent, a pair and a generator. *)
Lemma returned_step {A B C D} (d : A * (B * C) * D)
    (x : Outcome (A * (B * C) * D)) :
  is_Returns x = true →
  x = Returns ((returned d x).1.1,
               ((returned d x).1.2.1, (returned d x).1.2.2), (returned d x).2).
Proof. by destruct x as [[[? [? ?]] ?]| |]. Qed.

Lemma returned_run {A B} (d : A * B) (x : Outcome (A * B)) :
  is_Returns x = true → x = Returns ((returned d x).1, (returned d x).2).
Proof. by destruct x as [[? ?]| |]. Qed.

Lemma dict_getitem_Returns `{Countable K} {V} (d : gmap K V) (k : K) (v : V) :
  dict_getitem d k = Returns v ↔ d !! k = Some v.
Proof. unfold dict_getitem. destruct (d !! k); split; congruence. Qed.

Lemma dict_getitem_Some `{Countable K} {V} (d : gmap K V) (k : K) (v : V) :
  d !! k = Some v → dict_getitem d k = Returns v.
Proof. apply dict_getitem_Returns. Qed.

(** Splits a hypothesis [x ≫= f = Returns b] into its two halves. *)
Tactic Notation "bind_inv" hyp(H) :=
  let a := fresh "a" in
  let Ha := fresh "Ha" in
  apply bind_Returns in H as (a & Ha & H).

Tactic Notation "bind_inv" hyp(H) "as" simple_intropattern(x) ident(Hx) :=
  apply bind_Returns in H as (x & Hx & H).

(** A loop that returns preserves every invariant of its body. *)
Lemma for_each_invariant {A B} (I : A → Prop) (body : A → B → Outcome A)
    (xs : list B) (acc acc' : A) :
  (∀ a x a', x ∈ xs → I a → body a x = Returns a' → I a') →
  I acc → for_each body acc xs = Returns acc' → I acc'.
Proof.
  revert acc. induction xs as [|x xs IH]; intros acc Hbody HI Hrun; simpl in Hrun.
  - by injection Hrun as <-.
  - bind_inv Hrun. apply (IH a); [|by eapply Hbody; [left|..]|done].
    intros b y b' Hy. apply Hbody. by right.
Qed.

(** A loop whose body cannot fail under an invariant returns. *)
Lemma for_each_returns {A B} (I : A → Prop) (body : A → B → Outcome A)
    (xs : list B) (acc : A) :
  (∀ a x, x ∈ xs → I a → ∃ a', body a x = Returns a' ∧ I a') →
  I acc → ∃ acc', for_each body acc xs = Returns acc' ∧ I acc'.
Proof.
  revert acc. induction xs as [|x xs IH]; intros acc Hbody HI; simpl.
  - by exists acc.
  - destruct (Hbody acc x) as (a' & -> & HI'); [by left|done|]. simpl.
    apply IH; [|done]. intros b y Hy. apply Hbody. by right.
Qed.

Lemma for_each_snoc {A B} (body : A → B → Outcome A) (xs : list B) (x : B)
    (acc : A) :
  for_each body acc (xs ++ [x]) = for_each body acc xs ≫= λ a, body a x.
Proof.
  revert acc. induction xs as [|y xs IH]; intros acc; simpl.
  - by destruct (body acc x).
  - destruct (body acc y); simpl; [apply IH|done..].
Qed.

Lemma mapM_Returns {A B} (f : A → Outcome B) (l : list A) (ys : list B) :
  mapM f l = Returns ys ↔ Forall2 (λ x y, f x = Returns y) l ys.
Proof.
  revert ys. induction l as [|x l IH]; intros ys; simpl.
  - split; [intros [= <-]; constructor|by inversion 1].
  - split.
    + intros Hrun. bind_inv Hrun. bind_inv Hrun. injection Hrun as <-.
      constructor; [done|]. by apply IH.
    + inversion 1 as [|? y ? ys' Hx Hl]; subst. rewrite Hx. simpl.
      apply IH in Hl. rewrite Hl. done.
Qed.

(** ** Windy GridWorld: the action set of a cell *)

Lemma elem_of_range (n k : Z) : k ∈ range n ↔ (0 ≤ k < n)%Z.
Proof.
  unfold range. rewrite list_elem_of_fmap. split.
  - intros (i & -> & Hi). apply elem_of_seq in Hi. lia.
  - intros Hk. exists (Z.to_nat k). split; [lia|]. apply elem_of_seq. lia.
Qed.

Lemma elem_of_product {A B} (xs : list A) (ys : list B) (x : A) (y : B) :
  (x, y) ∈ product xs ys ↔ x ∈ xs ∧ y ∈ ys.
Proof.
  unfold product. rewrite list_elem_of_bind. split.
  - intros (x' & Hin & Hx). apply list_elem_of_bind in Hin as (y' & Hin & Hy).
    apply list_elem_of_singleton in Hin as [= -> ->]. done.
  - intros [Hx Hy]. exists x. split; [|done].
    apply list_elem_of_bind. exists y. split; [|done]. by left.
Qed.

Lemma windy_states_grid (rewards : list (list Z)) (wind : list Z) (i j : Z) :
  (i, j) ∈ WindyGridWorld.get_states (WindyGridWorld.__init__ rewards wind) ↔
  (0 ≤ i < (shape rewards).1 ∧ 0 ≤ j < (shape rewards).2)%Z.
Proof.
  unfold WindyGridWorld.get_states, WindyGridWorld.__init__. simpl.
  by rewrite elem_of_product, !elem_of_range.
Qed.

Lemma windy_actions_cases (self : WindyGridWorld.t) (i j : Z) :
  WindyGridWorld.get_possible_actions self (i, j) =
    (if (0 <? i)%Z then [WindyGridWorld.UP] else []) ++
    (if (i <? WindyGridWorld.max_down self)%Z then [WindyGridWorld.DOWN] else []) ++
    (if (0 <? j)%Z then [WindyGridWorld.LEFT] else []) ++
    (if (j <? WindyGridWorld.max_right self)%Z then [WindyGridWorld.RIGHT] else []).
Proof.
  unfold WindyGridWorld.get_possible_actions.
  by destruct (0 <? i)%Z, (i <? WindyGridWorld.max_down self)%Z, (0 <? j)%Z,
    (j <? WindyGridWorld.max_right self)%Z.
Qed.

Lemma windy_actions_NoDup (self : WindyGridWorld.t) (state : Z * Z) :
  NoDup (WindyGridWorld.get_possible_actions self state).
Proof.
  destruct state as [i j]. rewrite windy_actions_cases.
  destruct (0 <? i)%Z, (i <? WindyGridWorld.max_down self)%Z, (0 <? j)%Z,
    (j <? WindyGridWorld.max_right self)%Z;
    apply (bool_decide_unpack _); by vm_compute.
Qed.

Lemma windy_actions_nonempty_inside (self : WindyGridWorld.t) (i j : Z) :
  (1 ≤ WindyGridWorld.max_down self ∨ 1 ≤ WindyGridWorld.max_right self)%Z →
  (0 ≤ i ≤ WindyGridWorld.max_down self)%Z →
  (0 ≤ j ≤ WindyGridWorld.max_right self)%Z →
  WindyGridWorld.get_possible_actions self (i, j) ≠ [].
Proof.
  intros Hsize Hi Hj. rewrite windy_actions_cases.
  destruct (Z.ltb_spec 0 i), (Z.ltb_spec i (WindyGridWorld.max_down self)),
    (Z.ltb_spec 0 j), (Z.ltb_spec j (WindyGridWorld.max_right self));
    simpl; try discriminate; lia.
Qed.

Lemma windy_execute_inside (self : WindyGridWorld.t) (s s' : Z * Z)
    (a : string) (r : Z) :
  WindyGridWorld.execute_action self s a = Returns (s', r) →
  (0 ≤ WindyGridWorld.max_down self → 0 ≤ s'.1 ≤ WindyGridWorld.max_down self)%Z ∧
  (0 ≤ WindyGridWorld.max_right self → 0 ≤ s'.2 ≤ WindyGridWorld.max_right self)%Z.
Proof.
  destruct s as [i j]. unfold WindyGridWorld.execute_action.
  intros Hrun. bind_inv Hrun. bind_inv Hrun. injection Hrun as <- _.
  simpl. lia.
Qed.

(** C10. In a WindyGridWorld with at least two rows or at least two columns,
    every cell of the grid, terminal or not, has a non-empty action list
    without repetitions; the list is a function of the cell and of the shape
    of the grid alone (the rewards, which decide terminality, and the wind
    play no part); and every successor that [execute_action] returns has a
    non-empty action list, so neither action selection nor the update at a
    terminal successor meets an empty action set. *)
Theorem windy_actions_never_empty (rewards : list (list Z)) (wind : list Z)
    (state : Z * Z) :
  (2 ≤ (shape rewards).1 ∨ 2 ≤ (shape rewards).2)%Z →
  state ∈ WindyGridWorld.get_states (WindyGridWorld.__init__ rewards wind) →
  WindyGridWorld.get_possible_actions
    (WindyGridWorld.__init__ rewards wind) state ≠ [] ∧
  NoDup (WindyGridWorld.get_possible_actions
           (WindyGridWorld.__init__ rewards wind) state) ∧
  (∀ rewards' wind',
     shape rewards' = shape rewards →
     WindyGridWorld.get_possible_actions
       (WindyGridWorld.__init__ rewards' wind') state
     = WindyGridWorld.get_possible_actions
         (WindyGridWorld.__init__ rewards wind) state) ∧
  (∀ a state' r,
     WindyGridWorld.execute_action
       (WindyGridWorld.__init__ rewards wind) state a = Returns (state', r) →
     WindyGridWorld.get_possible_actions
       (WindyGridWorld.__init__ rewards wind) state' ≠ []).
Proof.
  intros Hsize Hstate. destruct state as [i j].
  apply windy_states_grid in Hstate as [Hi Hj].
  assert (Hd : ∀ r w, WindyGridWorld.max_down (WindyGridWorld.__init__ r w)
                      = ((shape r).1 - 1)%Z) by done.
  assert (Hr : ∀ r w, WindyGridWorld.max_right (WindyGridWorld.__init__ r w)
                      = ((shape r).2 - 1)%Z) by done.
  split_and!.
  - apply windy_actions_nonempty_inside; rewrite ?Hd, ?Hr; lia.
  - apply windy_actions_NoDup.
  - intros rewards' wind' Hshape. rewrite !windy_actions_cases.
    by rewrite !Hd, !Hr, Hshape.
  - intros a [i' j'] r Hrun. apply windy_execute_inside in Hrun as [Hi' Hj'].
    apply windy_actions_nonempty_inside; rewrite ?Hd, ?Hr in *; simpl in *; lia.
Qed.

Lemma windy_actions_never_empty_witness :
  WindyGridWorld.is_terminal_state Notebook.world (1, 4)%Z = Returns true ∧
  WindyGridWorld.get_possible_actions Notebook.world (1, 4)%Z =
    ["UP"; "DOWN"; "LEFT"; "RIGHT"] ∧
  WindyGridWorld.get_possible_actions Notebook.world (1, 4)%Z ≠ [].
Proof.
  split; [reflexivity|]. split; [reflexivity|].
  apply (windy_actions_never_empty Notebook.R Notebook.wind (1, 4)%Z).
  - right. vm_compute. discriminate.
  - apply windy_states_grid. vm_compute. repeat split; discriminate.
Defined.

(** ** Arithmetic on table values *)

Lemma Qc_of_nat_pos (n : nat) : n ≠ 0 → (0 < Qc_of_nat n)%Qc.
Proof.
  intros Hn. unfold Qc_of_nat. rewrite <- Z2Qc_inj_0. apply -> Z2Qc_inj_lt. lia.
Qed.

Lemma Qc_of_nat_ne_0 (n : nat) : n ≠ 0 → Qc_of_nat n ≠ 0%Qc.
Proof.
  intros Hn Heq. apply Qc_of_nat_pos in Hn. rewrite Heq in Hn.
  by apply Qclt_not_eq in Hn.
Qed.

Lemma Qc_of_nat_ge_1 (n : nat) : n ≠ 0 → (1 ≤ Qc_of_nat n)%Qc.
Proof.
  intros Hn. unfold Qc_of_nat. rewrite <- Z2Qc_inj_1. apply -> Z2Qc_inj_le. lia.
Qed.

Lemma Qc_of_nat_S (n : nat) : Qc_of_nat (S n) = (Qc_of_nat n + 1)%Qc.
Proof.
  unfold Qc_of_nat. rewrite Nat2Z.inj_succ, <- Z.add_1_r, Z2Qc_inj_add.
  by rewrite Z2Qc_inj_1.
Qed.

Lemma Qc_of_nat_add (n m : nat) :
  Qc_of_nat (n + m) = (Qc_of_nat n + Qc_of_nat m)%Qc.
Proof. unfold Qc_of_nat. by rewrite Nat2Z.inj_add, Z2Qc_inj_add. Qed.

(** A share [x / n] of a non-negative [x] lies between 0 and [x]. *)
Lemma Qc_share_bounds (x : Qc) (n : nat) :
  n ≠ 0 → (0 ≤ x)%Qc → (0 ≤ x / Qc_of_nat n ≤ x)%Qc.
Proof.
  intros Hn Hx.
  pose proof (Qc_of_nat_pos n Hn) as Hpos.
  pose proof (Qc_of_nat_ge_1 n Hn) as Hge.
  pose proof (Qc_of_nat_ne_0 n Hn) as Hne.
  assert (H0 : (0 ≤ x / Qc_of_nat n)%Qc).
  { unfold Qcdiv. apply Qcmult_nonneg_nonneg; [done|].
    apply Qclt_le_weak, Qcinv_pos, Hpos. }
  split; [done|].
  rewrite <- (Qcmult_div_r x (Qc_of_nat n)) at 2 by done.
  rewrite <- (Qcmult_1_l (x / Qc_of_nat n)) at 1.
  by apply Qcmult_le_mono_nonneg_r.
Qed.

Lemma Qcle_refl_eq (x y : Qc) : x = y → (x ≤ y)%Qc.
Proof. intros ->. apply Qcle_refl. Qed.

Lemma sum_list_app (p1 p2 : list Qc) :
  sum_list (p1 ++ p2) = (sum_list p1 + sum_list p2)%Qc.
Proof.
  unfold sum_list. induction p1 as [|x p1 IH]; simpl.
  - by rewrite Qcplus_0_l.
  - by rewrite IH, Qcplus_assoc.
Qed.

Lemma sum_list_constant (p : list Qc) (x : Qc) :
  Forall (λ y, y = x) p → sum_list p = (Qc_of_nat (length p) * x)%Qc.
Proof.
  unfold sum_list. induction 1 as [|y p -> _ IH]; simpl.
  - replace (Qc_of_nat 0) with 0%Qc by (symmetry; exact Z2Qc_inj_0).
    by rewrite Qcmult_0_l.
  - rewrite IH, Qc_of_nat_S. ring.
Qed.

(** ** Running sums and [searchsorted] *)

Lemma last_cons_default {A} (l : list A) (y d : A) :
  List.last (y :: l) d = List.last l y.
Proof.
  revert y d. induction l as [|z l IH]; intros y d; [done|].
  change (List.last (y :: z :: l) d) with (List.last (z :: l) d).
  by rewrite (IH z d), (IH z y).
Qed.

Lemma cumsum_from_last (p : list Qc) (acc : Qc) :
  List.last (cumsum_from acc p) acc = (acc + sum_list p)%Qc.
Proof.
  revert acc. induction p as [|x p IH]; intros acc.
  - unfold sum_list. simpl. by rewrite Qcplus_0_r.
  - cbn [cumsum_from]. unfold sum_list. cbn [foldr].
    fold (sum_list p). by rewrite Qcplus_assoc, <- IH, last_cons_default.
Qed.

Lemma cumsum_last (p : list Qc) : List.last (cumsum p) 0%Qc = sum_list p.
Proof. unfold cumsum. by rewrite cumsum_from_last, Qcplus_0_l. Qed.

Lemma Qcdiv_plus (x y z : Qc) : ((x + y) / z = x / z + y / z)%Qc.
Proof. unfold Qcdiv. ring. Qed.

Lemma Qcdiv_pos_inv (x z : Qc) : (0 < z → 0 < x / z → 0 < x)%Qc.
Proof.
  intros Hz Hx. apply Qcinv_pos in Hz.
  apply (Qcmult_lt_mono_pos_r _ _ (/ z)%Qc Hz). by rewrite Qcmult_0_l.
Qed.

Lemma atol_small : (0 < 1 - atol)%Qc ∧ ¬ (atol < 0)%Qc.
Proof. split; [by vm_compute|]. apply Qcle_not_lt. by vm_compute. Qed.

(** The running sums, entry by entry. *)
Lemma cumsum_from_lookup (p : list Qc) (acc : Qc) (j : nat) :
  j < length p →
  cumsum_from acc p !! j = Some (acc + sum_list (take (S j) p))%Qc.
Proof.
  revert acc j. induction p as [|x p IH]; intros acc j Hj; [simpl in Hj; lia|].
  destruct j as [|j]; cbn [cumsum_from].
  - change (Some (acc + x)%Qc = Some (acc + sum_list (x :: take 0 p))%Qc).
    f_equal. unfold sum_list. rewrite take_0. cbn [foldr]. ring.
  - change (cumsum_from (acc + x) p !! j
            = Some (acc + sum_list (x :: take (S j) p))%Qc).
    rewrite IH by (simpl in Hj; lia). f_equal.
    unfold sum_list. cbn [foldr]. ring.
Qed.

Lemma cumsum_from_length (p : list Qc) (acc : Qc) :
  length (cumsum_from acc p) = length p.
Proof.
  revert acc. induction p as [|x p IH]; intros acc; [done|].
  cbn [cumsum_from length]. by rewrite IH.
Qed.

(** [searchsorted] stops at the first entry above [u]. *)
Lemma searchsorted_right_spec (cdf : list Qc) (u : Qc) :
  (∀ j c, j < searchsorted_right cdf u → cdf !! j = Some c → (c ≤ u)%Qc) ∧
  (∀ c, cdf !! searchsorted_right cdf u = Some c → (u < c)%Qc).
Proof.
  induction cdf as [|c0 cdf [IHle IHlt]]; [done|].
  cbn [searchsorted_right]. case_decide as Hle.
  - split.
    + intros [|j] c Hj Hc; [by injection Hc as <-|].
      apply (IHle j); [lia|done].
    + intros c Hc. by apply IHlt.
  - split; [intros j c Hj; lia|].
    intros c [= <-]. by apply Qcnot_le_lt.
Qed.

Lemma searchsorted_right_unique (cdf : list Qc) (u : Qc) (i : nat) :
  (∀ j c, j < i → cdf !! j = Some c → (c ≤ u)%Qc) →
  (∃ c, cdf !! i = Some c ∧ (u < c)%Qc) →
  searchsorted_right cdf u = i.
Proof.
  revert i. induction cdf as [|c0 cdf IH]; intros i Hle (c & Hc & Hlt); [done|].
  cbn [searchsorted_right]. destruct i as [|i].
  - injection Hc as ->. rewrite decide_False; [done|]. by apply Qclt_not_le.
  - rewrite decide_True by (apply (Hle 0); [lia|done]).
    f_equal. apply IH; [|by exists c].
    intros j c' Hj Hc'. apply (Hle (S j)); [lia|done].
Qed.

(** ** Dictionaries: what the order of iteration is a rearrangement of *)

Section TableProperties.

Context {K : Type} `{EqDecision K, Hashable K}.

Implicit Types (table : list (option K)) (k : K).

Lemma free_slot_empty (fuel : nat) table (i perturb : Z) (slot : nat) :
  PyDict.free_slot fuel table i perturb = Some slot →
  table !! slot = Some None.
Proof.
  revert i perturb. induction fuel as [|fuel IH]; intros i perturb; [done|].
  cbn [PyDict.free_slot]. cbv zeta.
  destruct (table !! Z.to_nat _) as [[k|]|] eqn:Hslot; [apply IH| |apply IH].
  by intros [= <-].
Qed.

Lemma keys_app table1 table2 :
  PyDict.keys (table1 ++ table2) = PyDict.keys table1 ++ PyDict.keys table2.
Proof. apply omap_app. Qed.

Lemma keys_insert_empty table (slot : nat) k :
  table !! slot = Some None →
  PyDict.keys (<[slot := Some k]> table) ≡ₚ k :: PyDict.keys table.
Proof.
  revert slot. induction table as [|x table IH]; intros [|slot] Hslot;
    try done.
  - by injection Hslot as ->.
  - specialize (IH slot Hslot). unfold PyDict.keys in *.
    destruct x as [y|]; cbn [insert list_insert omap list_omap id];
      [|exact IH].
    change (y :: omap id (<[slot := Some k]> table) ≡ₚ k :: y :: omap id table).
    rewrite IH. apply perm_swap.
Qed.

Lemma keys_place table k :
  PyDict.keys (PyDict.place table k) ≡ₚ k :: PyDict.keys table.
Proof.
  unfold PyDict.place. cbv zeta.
  destruct (PyDict.free_slot _ _ _ _) as [slot|] eqn:Hfree.
  - apply keys_insert_empty. by eapply free_slot_empty.
  - rewrite keys_app. unfold PyDict.keys at 2. cbn [omap list_omap id].
    by rewrite <- Permutation_cons_append.
Qed.

Lemma keys_foldl_place (ks : list K) table :
  PyDict.keys (foldl PyDict.place table ks) ≡ₚ ks ++ PyDict.keys table.
Proof.
  revert table. induction ks as [|k ks IH]; intros table; [done|].
  cbn [foldl]. rewrite IH, keys_place. symmetry. apply Permutation_middle.
Qed.

Lemma keys_replicate_None (n : nat) :
  PyDict.keys (replicate n (@None K)) = [].
Proof. induction n as [|n IH]; [done|]. exact IH. Qed.

Lemma keys_resize table :
  PyDict.keys (PyDict.resize table) ≡ₚ PyDict.keys table.
Proof.
  unfold PyDict.resize. cbv zeta.
  by rewrite keys_foldl_place, keys_replicate_None, app_nil_r.
Qed.

Lemma keys_insert_key table k :
  PyDict.keys (PyDict.insert_key table k) ≡ₚ
    if decide (k ∈ PyDict.keys table) then PyDict.keys table
    else k :: PyDict.keys table.
Proof.
  unfold PyDict.insert_key. cbv zeta. case_decide; [done|].
  case_decide; rewrite ?keys_resize; apply keys_place.
Qed.

Lemma keys_foldl_insert_key (ks : list K) table :
  NoDup (PyDict.keys table) →
  NoDup (PyDict.keys (foldl PyDict.insert_key table ks)) ∧
  ∀ k, k ∈ PyDict.keys (foldl PyDict.insert_key table ks) ↔
       k ∈ PyDict.keys table ∨ k ∈ ks.
Proof.
  revert table. induction ks as [|k0 ks IH]; intros table Hnodup.
  - split; [done|]. intros k. rewrite elem_of_nil. naive_solver.
  - cbn [foldl]. pose proof (keys_insert_key table k0) as Hperm.
    destruct (IH (PyDict.insert_key table k0)) as [Hnodup' Helem].
    { rewrite Hperm. case_decide; [done|]. by apply NoDup_cons. }
    split; [done|]. intros k. rewrite Helem, Hperm, elem_of_cons.
    case_decide; rewrite ?elem_of_cons; naive_solver.
Qed.

Lemma NoDup_iteration_order (ks : list K) : NoDup (PyDict.iteration_order ks).
Proof.
  apply keys_foldl_insert_key. unfold PyDict.empty_table.
  rewrite keys_replicate_None. apply NoDup_nil_2.
Qed.

Lemma elem_of_iteration_order (ks : list K) k :
  k ∈ PyDict.iteration_order ks ↔ k ∈ ks.
Proof.
  unfold PyDict.iteration_order.
  destruct (keys_foldl_insert_key ks PyDict.empty_table) as [_ Helem].
  { unfold PyDict.empty_table. rewrite keys_replicate_None. apply NoDup_nil_2. }
  rewrite Helem. unfold PyDict.empty_table. rewrite keys_replicate_None.
  rewrite elem_of_nil. naive_solver.
Qed.

Lemma iteration_order_Permutation (ks : list K) :
  NoDup ks → PyDict.iteration_order ks ≡ₚ ks.
Proof.
  intros Hnodup. apply NoDup_Permutation; [apply NoDup_iteration_order|done|].
  apply elem_of_iteration_order.
Qed.

Lemma iteration_order_nil : PyDict.iteration_order (@nil K) = [].
Proof. unfold PyDict.iteration_order. apply keys_replicate_None. Qed.

End TableProperties.

Section DictProperties.

Context {K V : Type} `{Countable K, Hashable K}.

(** A dictionary filled with [f k] for each [k] of [ks] lists its items in
    the iteration order of [ks]. *)
Lemma items_foldl_setitem (f : K → V) (ks : list K) :
  PyDict.items (foldl (λ d k, PyDict.setitem d k (f k)) PyDict.empty ks)
  = (λ k, (k, f k)) <$> PyDict.iteration_order ks.
Proof.
  assert (Hgen : ∀ d,
    PyDict.table (foldl (λ d k, PyDict.setitem d k (f k)) d ks)
    = foldl PyDict.insert_key (PyDict.table d) ks ∧
    ∀ k, PyDict.values (foldl (λ d k, PyDict.setitem d k (f k)) d ks) !! k
         = if decide (k ∈ ks) then Some (f k) else PyDict.values d !! k).
  { induction ks as [|k0 ks IH]; intros d.
    - split; [done|]. intros k. by rewrite decide_False by apply not_elem_of_nil.
    - cbn [foldl]. destruct (IH (PyDict.setitem d k0 (f k0))) as [Htable Hvalues].
      split; [done|]. intros k. rewrite Hvalues. cbn [PyDict.setitem PyDict.values].
      destruct (decide (k = k0)) as [->|Hne].
      + rewrite lookup_insert_eq, (decide_True (P := k0 ∈ k0 :: ks)) by by left.
        by case_decide.
      + rewrite lookup_insert_ne by done.
        repeat case_decide; rewrite ?elem_of_cons in *; naive_solver. }
  destruct (Hgen PyDict.empty) as [Htable Hvalues].
  unfold PyDict.items. rewrite Htable.
  change (foldl PyDict.insert_key (PyDict.table PyDict.empty) ks)
    with (foldl PyDict.insert_key PyDict.empty_table ks).
  fold (PyDict.iteration_order ks).
  assert (Hall : Forall (λ k, k ∈ ks) (PyDict.iteration_order ks)).
  { apply Forall_forall. intros k. by rewrite elem_of_iteration_order. }
  induction Hall as [|k ks' Hk _ IH]; [done|].
  cbn [omap list_omap fmap list_fmap]. rewrite Hvalues, decide_True by done.
  cbn [fmap option_fmap option_map]. f_equal. exact IH.
Qed.

End DictProperties.

(** ** The tables *)

Section AgentProperties.

Context {State Action RandomState : Type}.
Context `{Countable State, Countable Action, Hashable Action}.
Variable random_sample : RandomState → Qc * RandomState.

Abbreviation AgentT := (@Agent State Action RandomState _ _ _ _).
Abbreviation EnvT := (ObservableEnvironment.t State Action RandomState).

Implicit Types (self : AgentT) (s : State) (a : Action).
Implicit Types (k : State * Action).

Lemma same_attributes_refl self : same_attributes self self.
Proof. by repeat split. Qed.

Lemma same_attributes_trans self1 self2 self3 :
  same_attributes self1 self2 → same_attributes self2 self3 →
  same_attributes self1 self3.
Proof.
  intros (?&?&?&?&?) (?&?&?&?&?). repeat split; congruence.
Qed.

Lemma same_attributes_set_Q self q : same_attributes self (set_Q self q).
Proof. by repeat split. Qed.

Lemma same_attributes_set_policy self p :
  same_attributes self (set_policy self p).
Proof. by repeat split. Qed.

(** The inner loop of [__init__], over the actions of one state. *)
Lemma init_actions_spec self s (v : Qc) (actions : list Action) :
  let self' :=
    foldl (λ self action,
      set_policy (set_Q self (<[(s, action) := 0%Qc]> (Q self)))
        (<[(s, action) := v]> (policy self)))
      self actions in
  same_attributes self self' ∧
  (∀ k, Q self' !! k =
        if decide (k.1 = s ∧ k.2 ∈ actions) then Some 0%Qc else Q self !! k) ∧
  (∀ k, policy self' !! k =
        if decide (k.1 = s ∧ k.2 ∈ actions) then Some v else policy self !! k).
Proof.
  revert self. induction actions as [|a actions IH]; intros self; simpl.
  - split; [apply same_attributes_refl|].
    split; intros k; case_decide as Hk; try done;
      destruct Hk as [_ Hk]; by apply elem_of_nil in Hk.
  - destruct (IH (set_policy (set_Q self (<[(s, a) := 0%Qc]> (Q self)))
                    (<[(s, a) := v]> (policy self)))) as (Hattr & HQ & Hpol).
    split; [done|].
    split; intros [s' a']; [rewrite HQ|rewrite Hpol]; simpl;
      rewrite lookup_insert;
      repeat case_decide; try done; simplify_eq; simpl in *;
      rewrite ?elem_of_cons in *; naive_solver.
Qed.

(** The tables that [__init__] builds. *)
Lemma init_spec (c : AgentClass) (e : EnvT) (γ α : Qc) (ε : Number) :
  let self := __init__ c e γ α ε in
  (cls self = c ∧ ObservableEnvironment.get_states (env self)
                  = ObservableEnvironment.get_states e ∧
   env self = e ∧ discount_factor self = γ ∧ alpha self = α ∧
   epsilon self = ε) ∧
  (∀ k, Q self !! k = if decide (enumerated e k) then Some 0%Qc else None) ∧
  (∀ k, policy self !! k =
        if decide (enumerated e k)
        then Some (1 / Qc_of_nat (length
               (ObservableEnvironment.get_possible_actions e k.1)))%Qc
        else None).
Proof.
  unfold __init__, enumerated.
  set (self0 := {| cls := c; env := e; discount_factor := γ; alpha := α;
                   epsilon := ε; Q := ∅; policy := ∅ |}).
  assert (Hgen : ∀ states self,
    let self' :=
      foldl (λ self state,
        let actions := ObservableEnvironment.get_possible_actions e state in
        let num_actions := length actions in
        foldl (λ self action,
          let self := set_Q self (<[(state, action) := 0%Qc]> (Q self)) in
          set_policy self
            (<[(state, action) := (1 / Qc_of_nat num_actions)%Qc]> (policy self)))
          self actions)
        self states in
    same_attributes self self' ∧
    (∀ k, Q self' !! k =
          if decide (k.1 ∈ states ∧
                     k.2 ∈ ObservableEnvironment.get_possible_actions e k.1)
          then Some 0%Qc else Q self !! k) ∧
    (∀ k, policy self' !! k =
          if decide (k.1 ∈ states ∧
                     k.2 ∈ ObservableEnvironment.get_possible_actions e k.1)
          then Some (1 / Qc_of_nat (length
                 (ObservableEnvironment.get_possible_actions e k.1)))%Qc
          else policy self !! k)).
  { induction states as [|s states IH]; intros self; cbn [foldl].
    - split; [apply same_attributes_refl|].
      split; intros k; case_decide as Hk; try done;
        destruct Hk as [Hk _]; by apply elem_of_nil in Hk.
    - pose proof (init_actions_spec self s
        (1 / Qc_of_nat (length (ObservableEnvironment.get_possible_actions e s)))%Qc
        (ObservableEnvironment.get_possible_actions e s)) as Hin.
      simpl in Hin. destruct Hin as (Hattr1 & HQ1 & Hpol1).
      match goal with |- context [foldl _ (foldl ?f self ?l) states] =>
        set (self1 := foldl f self l) in * end.
      destruct (IH self1) as (Hattr & HQ & Hpol).
      split; [by eapply same_attributes_trans|].
      split; intros [s' a']; [rewrite HQ, HQ1|rewrite Hpol, Hpol1]; simpl;
        repeat case_decide; try done; simplify_eq; simpl in *;
        rewrite ?elem_of_cons in *; naive_solver. }
  destruct (Hgen (ObservableEnvironment.get_states e) self0)
    as ((?&?&?&?&?) & HQ & Hpol).
  simpl in *. split_and!; done || congruence.
Qed.

(** *** [max] over the items of [QA] *)

Lemma max_from_spec (items : list (Action * Qc)) (best : Action * Qc) :
  ∃ before after,
    best :: items = before ++ max_from best items :: after ∧
    Forall (λ x, x.2 < (max_from best items).2)%Qc before ∧
    Forall (λ x, x.2 ≤ (max_from best items).2)%Qc after.
Proof.
  revert best. induction items as [|x items IH]; intros best; simpl.
  - exists [], []. by repeat split.
  - case_decide as Hlt.
    + destruct (IH x) as (before & after & Heq & Hbefore & Hafter).
      exists (best :: before), after. rewrite Heq. split; [done|].
      split; [|done]. constructor; [|done].
      destruct before as [|y before]; injection Heq as Hx Hrest.
      * by rewrite <- Hx.
      * subst y. inversion Hbefore; subst. by eapply Qclt_trans.
    + apply Qcnot_lt_le in Hlt.
      destruct (IH best) as (before & after & Heq & Hbefore & Hafter).
      destruct before as [|y before]; injection Heq as Hx Hrest.
      * exists [], (x :: items). rewrite <- Hx. repeat split; [done|].
        constructor; [done|]. rewrite <- Hx in Hafter. by subst after.
      * subst y. exists (best :: x :: before), after.
        split; [simpl; by rewrite <- Hrest|].
        inversion Hbefore; subst. split; [|done].
        repeat constructor; [done| |done]. by eapply Qcle_lt_trans.
Qed.

Lemma max_from_upper (items : list (Action * Qc)) (best x : Action * Qc) :
  x ∈ best :: items → (x.2 ≤ (max_from best items).2)%Qc.
Proof.
  destruct (max_from_spec items best) as (before & after & -> & Hb & Ha).
  rewrite elem_of_app, elem_of_cons. intros [Hx|[->|Hx]].
  - apply Qclt_le_weak. rewrite Forall_forall in Hb. by apply Hb.
  - apply Qcle_refl.
  - rewrite Forall_forall in Ha. by apply Ha.
Qed.

(** *** The dictionary [QA] *)

(** When every lookup succeeds, the loop that fills [QA] stores the value of
    each action in turn. *)
Lemma build_QA_spec self s (qf : Action → Qc) (actions : list Action)
    (QA : PyDict.t Action Qc) :
  (∀ a, a ∈ actions → Q self !! (s, a) = Some (qf a)) →
  for_each (λ QA action,
      q ← dict_getitem (Q self) (s, action);
      Returns (PyDict.setitem QA action q)) QA actions
  = Returns (foldl (λ d a, PyDict.setitem d a (qf a)) QA actions).
Proof.
  revert QA. induction actions as [|a actions IH]; intros QA HQ; [done|].
  cbn [for_each foldl].
  rewrite (dict_getitem_Some _ _ (qf a)) by (apply HQ; by left).
  cbn [mbind Outcome_bind]. apply IH. intros a' Ha'. apply HQ. by right.
Qed.

Lemma build_QA_lookups self s (actions : list Action)
    (QA QA' : PyDict.t Action Qc) :
  for_each (λ QA action,
      q ← dict_getitem (Q self) (s, action);
      Returns (PyDict.setitem QA action q)) QA actions = Returns QA' →
  ∀ a, a ∈ actions → is_Some (Q self !! (s, a)).
Proof.
  revert QA. induction actions as [|a actions IH]; intros QA Hrun a' Ha'.
  - by apply elem_of_nil in Ha'.
  - cbn [for_each] in Hrun. bind_inv Hrun as QA1 Hstep.
    bind_inv Hstep as q Hq. apply dict_getitem_Returns in Hq.
    apply elem_of_cons in Ha' as [->|Ha']; [by eexists|]. by eapply IH.
Qed.

(** [_find_best_action] is the first maximum over the items of [QA], which
    come in the iteration order of the legal actions. *)
Lemma find_best_action_max self s :
  (∀ a, a ∈ ObservableEnvironment.get_possible_actions (env self) s →
        is_Some (Q self !! (s, a))) →
  _find_best_action self s =
    m ← max_by_value
           ((λ a, (a, default 0%Qc (Q self !! (s, a)))) <$>
            PyDict.iteration_order
              (ObservableEnvironment.get_possible_actions (env self) s));
    Returns m.1.
Proof.
  intros HQ. unfold _find_best_action.
  rewrite (build_QA_spec self s (λ a, default 0%Qc (Q self !! (s, a)))).
  - cbn [mbind Outcome_bind]. by rewrite items_foldl_setitem.
  - intros a Ha. by destruct (HQ a Ha) as [q ->].
Qed.

Lemma find_best_action_lookups self s best :
  _find_best_action self s = Returns best →
  ∀ a, a ∈ ObservableEnvironment.get_possible_actions (env self) s →
       is_Some (Q self !! (s, a)).
Proof.
  unfold _find_best_action. intros Hrun. bind_inv Hrun as QA HQA.
  by eapply build_QA_lookups.
Qed.

Lemma find_best_action_spec self s best :
  _find_best_action self s = Returns best → first_argmax self s best.
Proof.
  intros Hrun. pose proof (find_best_action_lookups _ _ _ Hrun) as HQ.
  rewrite find_best_action_max in Hrun by done.
  bind_inv Hrun as m Hm. injection Hrun as <-. unfold first_argmax.
  set (qf := λ a, default 0%Qc (Q self !! (s, a))) in *.
  assert (Horder : ∀ a,
            a ∈ PyDict.iteration_order
                  (ObservableEnvironment.get_possible_actions (env self) s) →
            is_Some (Q self !! (s, a))).
  { intros a Ha. apply HQ. by apply elem_of_iteration_order. }
  destruct (PyDict.iteration_order
              (ObservableEnvironment.get_possible_actions (env self) s))
    as [|a0 actions] eqn:Hactions; [done|].
  simpl in Hm. injection Hm as <-.
  destruct (max_from_spec ((λ a, (a, qf a)) <$> actions) (a0, qf a0))
    as (before & after & Heq & Hbefore & Hafter).
  set (m := max_from (a0, qf a0) ((λ a, (a, qf a)) <$> actions)) in *.
  change ((a0, qf a0) :: ((λ a, (a, qf a)) <$> actions))
    with ((λ a, (a, qf a)) <$> (a0 :: actions)) in Heq.
  assert (Hpairs : ∀ x, x ∈ before ++ m :: after →
                        x.1 ∈ a0 :: actions ∧ x.2 = qf x.1).
  { intros x. rewrite <- Heq, list_elem_of_fmap. by intros (a & -> & Ha). }
  assert (Hval : ∀ x, x ∈ before ++ m :: after →
                      Q self !! (s, x.1) = Some x.2).
  { intros x [Hx ->]%Hpairs. unfold qf. by destruct (Horder x.1 Hx) as [q ->]. }
  assert (Hfst : ∀ l : list Action, ((λ a, (a, qf a)) <$> l).*1 = l).
  { intros l. induction l as [|? l IHl]; simpl; by f_equal. }
  exists before.*1, after.*1, m.2. split_and!.
  - by rewrite <- (Hfst (a0 :: actions)), Heq, fmap_app, fmap_cons.
  - apply (Hval m). rewrite elem_of_app, elem_of_cons. auto.
  - apply Forall_fmap, Forall_forall. intros x Hx. exists x.2. split.
    + apply Hval. rewrite elem_of_app. auto.
    + rewrite Forall_forall in Hbefore. by apply Hbefore.
  - apply Forall_fmap, Forall_forall. intros x Hx. exists x.2. split.
    + apply Hval. rewrite elem_of_app, elem_of_cons. auto.
    + rewrite Forall_forall in Hafter. by apply Hafter.
Qed.

Lemma find_best_action_returns self s :
  ObservableEnvironment.get_possible_actions (env self) s ≠ [] →
  (∀ a, a ∈ ObservableEnvironment.get_possible_actions (env self) s →
        is_Some (Q self !! (s, a))) →
  ∃ best, _find_best_action self s = Returns best.
Proof.
  intros Hne HQ. rewrite find_best_action_max by done.
  destruct (PyDict.iteration_order
              (ObservableEnvironment.get_possible_actions (env self) s))
    as [|a0 order] eqn:Horder; [|simpl; by eexists].
  destruct (ObservableEnvironment.get_possible_actions (env self) s)
    as [|a actions]; [done|].
  assert (Ha : a ∈ PyDict.iteration_order (a :: actions))
    by (apply elem_of_iteration_order; by left).
  rewrite Horder in Ha. by apply elem_of_nil in Ha.
Qed.

Lemma find_best_action_empty self s :
  ObservableEnvironment.get_possible_actions (env self) s = [] →
  _find_best_action self s = Raises ValueError.
Proof. unfold _find_best_action. by intros ->. Qed.

(** [_find_best_action] reads the environment and [Q] only. *)
Lemma find_best_action_ext self self' s :
  env self' = env self → Q self' = Q self →
  _find_best_action self' s = _find_best_action self s.
Proof. unfold _find_best_action. by intros -> ->. Qed.

(** *** The policy refresh *)

(** The loop over actions in [_update_policy]. *)
Lemma policy_assign_spec self s (n : nat) (actions : list Action) :
  let self' :=
    foldl (λ self action,
      set_policy self
        (<[(s, action) := py2_div (epsilon self) n]> (policy self)))
      self actions in
  same_attributes self self' ∧ Q self' = Q self ∧
  (∀ k, policy self' !! k =
        if decide (k.1 = s ∧ k.2 ∈ actions)
        then Some (py2_div (epsilon self) n) else policy self !! k).
Proof.
  revert self. induction actions as [|a actions IH]; intros self; cbn [foldl].
  - split; [apply same_attributes_refl|]. split; [done|].
    intros k. case_decide as Hk; [|done].
    destruct Hk as [_ Hk]. by apply elem_of_nil in Hk.
  - destruct (IH (set_policy self
                    (<[(s, a) := py2_div (epsilon self) n]> (policy self))))
      as (Hattr & HQ & Hpol).
    split; [done|]. split; [done|].
    intros [s' a']. rewrite Hpol. simpl. rewrite lookup_insert.
    repeat case_decide; try done; simplify_eq; simpl in *;
      rewrite ?elem_of_cons in *; naive_solver.
Qed.

Lemma first_argmax_elem self s best :
  first_argmax self s best →
  best ∈ ObservableEnvironment.get_possible_actions (env self) s.
Proof.
  intros (before & after & q & Hsplit & _).
  apply elem_of_iteration_order. rewrite Hsplit, elem_of_app, elem_of_cons. auto.
Qed.

Lemma update_policy_at_spec self s self' :
  update_policy_at self s = Returns self' →
  same_attributes self self' ∧ Q self' = Q self ∧
  ∀ k, policy self' !! k =
       if decide (k.1 = s ∧
                  k.2 ∈ ObservableEnvironment.get_possible_actions (env self) s)
       then greedy_probability self s k.2 else policy self !! k.
Proof.
  unfold update_policy_at, greedy_probability, share. intros Hrun.
  bind_inv Hrun. rename a into best. rewrite Ha.
  pose proof (first_argmax_elem _ _ _ (find_best_action_spec _ _ _ Ha)) as Hbest.
  destruct (policy_assign_spec self s
              (length (ObservableEnvironment.get_possible_actions (env self) s))
              (ObservableEnvironment.get_possible_actions (env self) s))
    as (Hattr & HQ & Hpol).
  match type of Hrun with context [foldl ?f self ?l] =>
    set (self1 := foldl f self l) in * end.
  bind_inv Hrun. injection Hrun as <-.
  apply dict_getitem_Returns in Ha0. rewrite Hpol in Ha0. simpl in Ha0.
  rewrite decide_True in Ha0 by done. injection Ha0 as <-.
  destruct Hattr as (?&?&?&?&Heps).
  split; [by repeat split|]. split; [done|].
  intros [s' a']. simpl. rewrite lookup_insert, Hpol, Heps. simpl.
  repeat case_decide; try done; simplify_eq; naive_solver.
Qed.

Lemma update_policy_at_returns self s :
  ObservableEnvironment.get_possible_actions (env self) s ≠ [] →
  (∀ a, a ∈ ObservableEnvironment.get_possible_actions (env self) s →
        is_Some (Q self !! (s, a))) →
  ∃ self', update_policy_at self s = Returns self'.
Proof.
  intros Hne HQ. unfold update_policy_at.
  destruct (find_best_action_returns self s Hne HQ) as [best Hbest].
  rewrite Hbest. cbn [mbind Outcome_bind].
  pose proof (first_argmax_elem _ _ _ (find_best_action_spec _ _ _ Hbest)) as Hin.
  destruct (policy_assign_spec self s
              (length (ObservableEnvironment.get_possible_actions (env self) s))
              (ObservableEnvironment.get_possible_actions (env self) s))
    as (_ & _ & Hpol).
  match goal with |- context [foldl ?f self ?l] =>
    set (self1 := foldl f self l) in * end.
  erewrite dict_getitem_Some; [by eexists|].
  rewrite Hpol. simpl. by rewrite decide_True.
Qed.

Lemma greedy_probability_ext self self' s a :
  same_attributes self self' → Q self' = Q self →
  greedy_probability self' s a = greedy_probability self s a.
Proof.
  intros (_ & Henv & _ & _ & Heps) HQ. unfold greedy_probability, share.
  by rewrite (find_best_action_ext self self'), Henv, Heps.
Qed.

(** The loop over states in [_update_policy]. *)
Lemma update_policy_loop (states : list State) self self' :
  for_each update_policy_at self states = Returns self' →
  same_attributes self self' ∧ Q self' = Q self ∧
  ∀ k, policy self' !! k =
       if decide (k.1 ∈ states ∧
                  k.2 ∈ ObservableEnvironment.get_possible_actions (env self) k.1)
       then greedy_probability self k.1 k.2 else policy self !! k.
Proof.
  revert self. induction states as [|s states IH]; intros self Hrun.
  - injection Hrun as <-. split; [apply same_attributes_refl|]. split; [done|].
    intros k. case_decide as Hk; [|done].
    destruct Hk as [Hk _]. by apply elem_of_nil in Hk.
  - cbn [for_each] in Hrun. bind_inv Hrun. rename a into self1.
    apply update_policy_at_spec in Ha as (Hattr1 & HQ1 & Hpol1).
    apply IH in Hrun as (Hattr & HQ & Hpol).
    split; [by eapply same_attributes_trans|]. split; [congruence|].
    intros [s' a']. rewrite Hpol, Hpol1. simpl.
    rewrite (greedy_probability_ext self self1) by done.
    destruct Hattr1 as (_ & -> & _).
    repeat case_decide; try done; simplify_eq; simpl in *;
      rewrite ?elem_of_cons in *; naive_solver.
Qed.

Lemma update_policy_spec self self' :
  _update_policy self = Returns self' →
  same_attributes self self' ∧ Q self' = Q self ∧
  ∀ k, policy self' !! k =
       if decide (enumerated (env self) k)
       then greedy_probability self k.1 k.2 else policy self !! k.
Proof. apply update_policy_loop. Qed.

Lemma update_policy_returns self :
  refreshable self → ∃ self', _update_policy self = Returns self'.
Proof.
  intros Href. unfold _update_policy.
  destruct (for_each_returns
              (λ acc, env acc = env self ∧ Q acc = Q self)
              update_policy_at
              (ObservableEnvironment.get_states (env self)) self)
    as (self' & Hrun & _); [|done|by exists self'].
  intros acc s Hs [Henv HQ].
  destruct (update_policy_at_returns acc s) as [acc' Hacc'].
  - rewrite Henv. by apply Href.
  - rewrite Henv, HQ. by apply Href.
  - exists acc'. split; [done|].
    apply update_policy_at_spec in Hacc' as ((_ & ? & _) & ? & _).
    split; congruence.
Qed.

(** *** One call of [_inner_learn] *)

Lemma sarsa_inner_learn_inv self S A rng self' S' A' rng' :
  SarsaAgent_inner_learn random_sample self S A rng
    = Returns (self', (S', A'), rng') ↔
  ∃ R rng1 q q_next,
    ObservableEnvironment.execute_action (env self) S A rng
      = Returns (S', R, rng1) ∧
    _choose_action random_sample self S' rng1 = Returns (A', rng') ∧
    Q self !! (S, A) = Some q ∧
    Q self !! (S', A') = Some q_next ∧
    self' = set_Q self
      (<[(S, A) := (q + alpha self * (R + discount_factor self * q_next - q))%Qc]>
         (Q self)).
Proof.
  unfold SarsaAgent_inner_learn. split.
  - intros Hrun. bind_inv Hrun as [[S1 R] rng1] Hexec.
    bind_inv Hrun as [A1 rng2] Hchoose.
    bind_inv Hrun as q Hq. bind_inv Hrun as q_next Hnext.
    injection Hrun as <- <- <- <-.
    apply dict_getitem_Returns in Hq, Hnext. by exists R, rng1, q, q_next.
  - intros (R & rng1 & q & q_next & -> & Hchoose & Hq & Hnext & ->).
    cbn [mbind Outcome_bind]. rewrite Hchoose. cbn [mbind Outcome_bind].
    by rewrite !(dict_getitem_Some _ _ _ Hq), (dict_getitem_Some _ _ _ Hnext).
Qed.

Lemma qlearning_inner_learn_inv self S A rng self' S' A' rng' :
  QLearningAgent_inner_learn random_sample self S A rng
    = Returns (self', (S', A'), rng') ↔
  ∃ R rng1 A_best q q_best,
    _choose_action random_sample self S rng = Returns (A', rng1) ∧
    ObservableEnvironment.execute_action (env self) S A' rng1
      = Returns (S', R, rng') ∧
    _find_best_action self S' = Returns A_best ∧
    Q self !! (S, A') = Some q ∧
    Q self !! (S', A_best) = Some q_best ∧
    self' = set_Q self
      (<[(S, A') := (q + alpha self * (R + discount_factor self * q_best - q))%Qc]>
         (Q self)).
Proof.
  unfold QLearningAgent_inner_learn. split.
  - intros Hrun. bind_inv Hrun as [A1 rng1] Hchoose.
    bind_inv Hrun as [[S1 R] rng2] Hexec.
    bind_inv Hrun as A_best Hfind. bind_inv Hrun as q Hq.
    bind_inv Hrun as q_best Hbest. injection Hrun as <- <- <- <-.
    apply dict_getitem_Returns in Hq, Hbest.
    by exists R, rng1, A_best, q, q_best.
  - intros (R & rng1 & A_best & q & q_best & -> & Hexec & Hfind & Hq & Hbest & ->).
    cbn [mbind Outcome_bind]. rewrite Hexec. cbn [mbind Outcome_bind].
    rewrite Hfind. cbn [mbind Outcome_bind].
    by rewrite !(dict_getitem_Some _ _ _ Hq), (dict_getitem_Some _ _ _ Hbest).
Qed.

(** The loop of [ExpectedSarsaAgent._inner_learn] sums the products. *)
Lemma expected_value_loop self s (actions : list Action) (acc e : Qc) :
  for_each (λ expected_next_value action,
      p ← dict_getitem (policy self) (s, action);
      q ← dict_getitem (Q self) (s, action);
      Returns (expected_next_value + p * q)%Qc) acc actions = Returns e ↔
  ∃ ps qs,
    Forall2 (λ a p, policy self !! (s, a) = Some p) actions ps ∧
    Forall2 (λ a q, Q self !! (s, a) = Some q) actions qs ∧
    e = (acc + sum_list (zip_with Qcmult ps qs))%Qc.
Proof.
  revert acc. induction actions as [|a actions IH]; intros acc; cbn [for_each].
  - split.
    + intros [= <-]. exists [], []. repeat split; try constructor.
      unfold sum_list. simpl. by rewrite Qcplus_0_r.
    + intros (ps & qs & Hps & Hqs & ->). inversion Hps; inversion Hqs; subst.
      unfold sum_list. simpl. by rewrite Qcplus_0_r.
  - split.
    + intros Hrun. bind_inv Hrun as acc1 Hbody.
      bind_inv Hbody as p Hp. bind_inv Hbody as q Hq.
      injection Hbody as <-. apply dict_getitem_Returns in Hp, Hq.
      apply IH in Hrun as (ps & qs & Hps & Hqs & ->).
      exists (p :: ps), (q :: qs). repeat split; try by constructor.
      unfold sum_list. simpl. ring.
    + intros (ps & qs & Hps & Hqs & ->).
      inversion Hps as [|? p ? ps' Hp Hps']; subst.
      inversion Hqs as [|? q ? qs' Hq Hqs']; subst.
      rewrite (dict_getitem_Some _ _ _ Hp), (dict_getitem_Some _ _ _ Hq).
      cbn [mbind Outcome_bind]. apply IH. exists ps', qs'.
      repeat split; try done. unfold sum_list. simpl. ring.
Qed.

Lemma expected_inner_learn_inv self S A rng self' S' A' rng' :
  ExpectedSarsaAgent_inner_learn random_sample self S A rng
    = Returns (self', (S', A'), rng') ↔
  ∃ R rng1 ps qs q,
    ObservableEnvironment.execute_action (env self) S A rng
      = Returns (S', R, rng1) ∧
    _choose_action random_sample self S' rng1 = Returns (A', rng') ∧
    Forall2 (λ a p, policy self !! (S', a) = Some p)
      (ObservableEnvironment.get_possible_actions (env self) S') ps ∧
    Forall2 (λ a q, Q self !! (S', a) = Some q)
      (ObservableEnvironment.get_possible_actions (env self) S') qs ∧
    Q self !! (S, A) = Some q ∧
    self' = set_Q self
      (<[(S, A) :=
           (q + alpha self *
              (R + discount_factor self * sum_list (zip_with Qcmult ps qs) - q))%Qc]>
         (Q self)).
Proof.
  unfold ExpectedSarsaAgent_inner_learn. split.
  - intros Hrun. bind_inv Hrun as [[S1 R] rng1] Hexec.
    bind_inv Hrun as [A1 rng2] Hchoose.
    bind_inv Hrun as e Hloop. bind_inv Hrun as q Hq.
    injection Hrun as <- <- <- <-.
    apply dict_getitem_Returns in Hq.
    apply expected_value_loop in Hloop as (ps & qs & Hps & Hqs & ->).
    rewrite Qcplus_0_l. by exists R, rng1, ps, qs, q.
  - intros (R & rng1 & ps & qs & q & -> & Hchoose & Hps & Hqs & Hq & ->).
    cbn [mbind Outcome_bind]. rewrite Hchoose. cbn [mbind Outcome_bind].
    assert (Hloop :
      for_each (λ expected_next_value action,
          p ← dict_getitem (policy self) (S', action);
          q ← dict_getitem (Q self) (S', action);
          Returns (expected_next_value + p * q)%Qc) 0%Qc
        (ObservableEnvironment.get_possible_actions (env self) S')
      = Returns (sum_list (zip_with Qcmult ps qs))).
    { apply expected_value_loop. exists ps, qs. by rewrite Qcplus_0_l. }
    rewrite Hloop. cbn [mbind Outcome_bind].
    by rewrite (dict_getitem_Some _ _ _ Hq).
Qed.

(** What every class of step does to the agent: one entry of [Q], already
    present, is assigned; nothing else changes. *)
Lemma inner_learn_frame self S A rng self' S' A' rng' :
  _inner_learn random_sample self S A rng = Returns (self', (S', A'), rng') →
  same_attributes self self' ∧ policy self' = policy self ∧
  is_Some (Q self !! updated_key self S A A') ∧
  ∃ v, Q self' = <[updated_key self S A A' := v]> (Q self).
Proof.
  unfold _inner_learn, updated_key. destruct (cls self).
  - intros (R & rng1 & q & q_next & _ & _ & Hq & _ & ->)%sarsa_inner_learn_inv.
    split; [apply same_attributes_set_Q|]. split; [done|].
    split; [by eexists|]. by eexists.
  - intros (R & rng1 & A_best & q & q_best & _ & _ & _ & Hq & _ & ->)
      %qlearning_inner_learn_inv.
    split; [apply same_attributes_set_Q|]. split; [done|].
    split; [by eexists|]. by eexists.
  - intros (R & rng1 & ps & qs & q & _ & _ & _ & _ & Hq & ->)
      %expected_inner_learn_inv.
    split; [apply same_attributes_set_Q|]. split; [done|].
    split; [by eexists|]. by eexists.
Qed.

(** *** The loops of [learn] *)

Lemma episode_unfold (fuel : nat) self S A rng :
  episode random_sample (Datatypes.S fuel) self S A rng =
    terminal ← ObservableEnvironment.is_terminal_state (env self) S;
    if terminal : bool then Returns (self, rng)
    else
      '(self, (S, A), rng) ← _inner_learn random_sample self S A rng;
      self ← _update_policy self;
      episode random_sample fuel self S A rng.
Proof. done. Qed.

(** One more iteration of a loop that continues. *)
Lemma episode_step (fuel : nat) self S A rng self1 S1 A1 rng1 self2 :
  ObservableEnvironment.is_terminal_state (env self) S = Returns false →
  _inner_learn random_sample self S A rng = Returns (self1, (S1, A1), rng1) →
  _update_policy self1 = Returns self2 →
  episode random_sample (Datatypes.S fuel) self S A rng
  = episode random_sample fuel self2 S1 A1 rng1.
Proof.
  intros Hterm Hstep Hrefresh. rewrite episode_unfold, Hterm.
  cbn [mbind Outcome_bind]. rewrite Hstep. cbn [mbind Outcome_bind].
  by rewrite Hrefresh.
Qed.

Lemma episode_terminal (fuel : nat) self S A rng :
  ObservableEnvironment.is_terminal_state (env self) S = Returns true →
  episode random_sample (Datatypes.S fuel) self S A rng = Returns (self, rng).
Proof. intros Hterm. by rewrite episode_unfold, Hterm. Qed.

(** A run that returns, seen from its first iteration. *)
Lemma episode_Returns_inv (fuel : nat) self S A rng self' rng' :
  episode random_sample fuel self S A rng = Returns (self', rng') →
  ∃ fuel', fuel = Datatypes.S fuel' ∧
    ((ObservableEnvironment.is_terminal_state (env self) S = Returns true ∧
      self' = self ∧ rng' = rng) ∨
     (ObservableEnvironment.is_terminal_state (env self) S = Returns false ∧
      ∃ self1 S1 A1 rng1 self2,
        _inner_learn random_sample self S A rng
          = Returns (self1, (S1, A1), rng1) ∧
        _update_policy self1 = Returns self2 ∧
        episode random_sample fuel' self2 S1 A1 rng1 = Returns (self', rng'))).
Proof.
  destruct fuel as [|fuel']; [done|]. rewrite episode_unfold. intros Hrun.
  exists fuel'. split; [done|].
  bind_inv Hrun as [|] Hterm.
  - injection Hrun as <- <-. by left.
  - right. split; [done|].
    bind_inv Hrun as [[self1 [S1 A1]] rng1] Hstep.
    bind_inv Hrun as self2 Hrefresh.
    by exists self1, S1, A1, rng1, self2.
Qed.

(** A property kept by every iteration holds when the loop returns. *)
Lemma episode_invariant (I : AgentT → Prop) :
  (∀ self S A rng self1 S1 A1 rng1 self2,
     I self →
     _inner_learn random_sample self S A rng = Returns (self1, (S1, A1), rng1) →
     _update_policy self1 = Returns self2 → I self2) →
  ∀ fuel self S A rng self' rng',
    I self →
    episode random_sample fuel self S A rng = Returns (self', rng') → I self'.
Proof.
  intros Hkeep fuel. induction fuel as [|fuel IH]; intros self S A rng self' rng' HI Hrun.
  - done.
  - apply episode_Returns_inv in Hrun
      as (fuel' & [= <-] & [(_ & -> & _)|(_ & self1 & S1 & A1 & rng1 & self2 &
                                           Hstep & Hrefresh & Hrun)]); [done|].
    eapply IH; [|done]. by eapply Hkeep.
Qed.

Lemma learn_loop_invariant (I : AgentT → Prop) :
  (∀ self S A rng self1 S1 A1 rng1 self2,
     I self →
     _inner_learn random_sample self S A rng = Returns (self1, (S1, A1), rng1) →
     _update_policy self1 = Returns self2 → I self2) →
  ∀ fuel n self initial_state rng self' rng',
    I self →
    learn_loop random_sample fuel self n initial_state rng
      = Returns (self', rng') → I self'.
Proof.
  intros Hkeep fuel n.
  induction n as [|n IH]; intros self initial_state rng self' rng' HI Hrun.
  - by injection Hrun as <- <-.
  - cbn [learn_loop] in Hrun. bind_inv Hrun as [A rng1] Hchoose.
    bind_inv Hrun as [self1 rng2] Hepisode.
    eapply IH; [|done]. by eapply episode_invariant.
Qed.

Lemma learn_calls_invariant (I : AgentT → Prop) :
  (∀ self S A rng self1 S1 A1 rng1 self2,
     I self →
     _inner_learn random_sample self S A rng = Returns (self1, (S1, A1), rng1) →
     _update_policy self1 = Returns self2 → I self2) →
  ∀ fuel calls self rng self' rng',
    I self →
    learn_calls random_sample fuel self calls rng = Returns (self', rng') →
    I self'.
Proof.
  intros Hkeep fuel calls.
  induction calls as [|[n s0] calls IH]; intros self rng self' rng' HI Hrun.
  - by injection Hrun as <- <-.
  - cbn [learn_calls] in Hrun. bind_inv Hrun as [self1 rng1] Hlearn.
    eapply IH; [|done]. by eapply learn_loop_invariant.
Qed.



(** *** The epsilon-greedy shape *)

Lemma update_policy_loop_best (states : list State) self self' :
  for_each update_policy_at self states = Returns self' →
  ∀ s, s ∈ states → ∃ best, _find_best_action self s = Returns best.
Proof.
  revert self. induction states as [|s0 states IH]; intros self Hrun s Hs.
  - by apply elem_of_nil in Hs.
  - cbn [for_each] in Hrun. bind_inv Hrun as self1 Hat.
    apply elem_of_cons in Hs as [->|Hs].
    + unfold update_policy_at in Hat. bind_inv Hat as best Hbest. by exists best.
    + apply update_policy_at_spec in Hat as ((_ & Henv & _) & HQ & _).
      destruct (IH _ Hrun s Hs) as [best Hbest]. exists best.
      by rewrite <- (find_best_action_ext self self1).
Qed.

Lemma update_policy_greedy self self' :
  _update_policy self = Returns self' →
  ∀ s, s ∈ ObservableEnvironment.get_states (env self') →
       epsilon_greedy_at self' s.
Proof.
  intros Hrun s Hs.
  pose proof (update_policy_spec _ _ Hrun) as (Hattr & HQ & Hpol).
  pose proof Hattr as (_ & Henv & _ & _ & Heps).
  rewrite Henv in Hs.
  destruct (update_policy_loop_best _ _ _ Hrun s Hs) as [best Hbest].
  assert (Hbest' : _find_best_action self' s = Returns best)
    by by rewrite (find_best_action_ext self self').
  pose proof (find_best_action_spec _ _ _ Hbest') as Hargmax.
  pose proof (first_argmax_elem _ _ _ Hargmax) as Hin.
  assert (Hshare : share self' s = share self s)
    by (unfold share; by rewrite Henv, Heps).
  exists best. split; [done|]. split; [done|]. rewrite Henv in *. split.
  - rewrite Hpol, decide_True by done. unfold greedy_probability.
    simpl. rewrite Hbest, decide_True by done.
    by rewrite Hshare, Heps, Qcplus_comm.
  - intros a Ha Hne. rewrite Hpol, decide_True by done.
    unfold greedy_probability. simpl. by rewrite Hbest, decide_False, Hshare.
Qed.

Lemma epsilon_greedy_float self s (e : Qc) :
  epsilon self = PyFloat e → epsilon_greedy_at self s →
  epsilon_greedy_with self s e.
Proof.
  intros Heps (best & Hbest & Hargmax & Hpbest & Hother).
  unfold share in *. rewrite Heps in *. cbn [float py2_div] in *.
  by exists best.
Qed.

(** C1, amended. One learning step of [learn] is a call of [_inner_learn]
    followed by a call of [_update_policy]; when both return, the policy has
    been rewritten at every state of the environment, and at each of them,
    for a float [epsilon], the best action has probability
    [(1 - epsilon) + epsilon / |A(s)|] and every other legal action
    [epsilon / |A(s)|]; the best action is the first maximum of [Q] in the
    order in which the dictionary [QA] iterates, which is not the order of
    the enumeration of the actions; the shape still holds whenever the
    episode loop returns after that step. *)
Theorem policy_refreshed_after_every_step
    self S A rng self1 S1 A1 rng1 self2 (e : Qc) :
  epsilon self = PyFloat e →
  _inner_learn random_sample self S A rng = Returns (self1, (S1, A1), rng1) →
  _update_policy self1 = Returns self2 →
  (∀ fuel,
     ObservableEnvironment.is_terminal_state (env self) S = Returns false →
     episode random_sample (Datatypes.S fuel) self S A rng
     = episode random_sample fuel self2 S1 A1 rng1) ∧
  (∀ s, s ∈ ObservableEnvironment.get_states (env self2) →
        epsilon_greedy_with self2 s e) ∧
  (∀ fuel self' rng',
     episode random_sample fuel self2 S1 A1 rng1 = Returns (self', rng') →
     ∀ s, s ∈ ObservableEnvironment.get_states (env self') →
          epsilon_greedy_with self' s e).
Proof.
  intros Heps Hstep Hrefresh.
  assert (Heps2 : epsilon self2 = PyFloat e).
  { apply inner_learn_frame in Hstep as ((_ & _ & _ & _ & Heps1) & _).
    apply update_policy_spec in Hrefresh as ((_ & _ & _ & _ & Heps2') & _).
    by rewrite Heps2', Heps1. }
  split_and!.
  - intros fuel Hterm. by eapply episode_step.
  - intros s Hs. apply epsilon_greedy_float; [done|].
    by eapply update_policy_greedy.
  - intros fuel self' rng' Hrun.
    apply (episode_invariant
             (λ self, epsilon self = PyFloat e ∧
                      ∀ s, s ∈ ObservableEnvironment.get_states (env self) →
                           epsilon_greedy_at self s)) in Hrun.
    + destruct Hrun as [Heps' Hshape]. intros s Hs.
      apply epsilon_greedy_float; [done|]. by apply Hshape.
    + intros self3 S3 A3 rng3 self4 S4 A4 rng4 self5 [Heps3 _] Hstep3 Hrefresh3.
      split; [|by eapply update_policy_greedy].
      apply inner_learn_frame in Hstep3 as ((_ & _ & _ & _ & Heps4) & _).
      apply update_policy_spec in Hrefresh3 as ((_ & _ & _ & _ & Heps5) & _).
      by rewrite Heps5, Heps4.
    + split; [done|]. by eapply update_policy_greedy.
Qed.

(** *** The policy as a probability distribution *)

Lemma lookups_constant {A B} (f : A → Outcome B) (l : list A) (v : B) :
  (∀ x, x ∈ l → f x = Returns v) →
  Forall2 (λ x y, f x = Returns y) l (replicate (length l) v).
Proof.
  induction l as [|x l IH]; intros Hf; simpl; constructor.
  - apply Hf. by left.
  - apply IH. intros y Hy. apply Hf. by right.
Qed.

Lemma sum_list_replicate (n : nat) (x : Qc) :
  sum_list (replicate n x) = (Qc_of_nat n * x)%Qc.
Proof.
  rewrite (sum_list_constant _ x), length_replicate; [done|].
  apply Forall_forall. by intros y [-> _]%elem_of_replicate.
Qed.

Lemma init_valid_distribution (c : AgentClass) (e : EnvT) (γ α : Qc) (ε : Number) s :
  s ∈ ObservableEnvironment.get_states e →
  ObservableEnvironment.get_possible_actions e s ≠ [] →
  valid_distribution (__init__ c e γ α ε) s.
Proof.
  intros Hs Hne.
  destruct (init_spec c e γ α ε) as ((_ & _ & Henv & _) & _ & Hpol).
  unfold valid_distribution. rewrite Henv.
  set (actions := ObservableEnvironment.get_possible_actions e s) in *.
  assert (Hn : length actions ≠ 0) by by destruct actions.
  exists (replicate (length actions) (1 / Qc_of_nat (length actions))%Qc).
  split_and!.
  - apply mapM_Returns, lookups_constant. intros a Ha.
    apply dict_getitem_Some. rewrite Hpol, decide_True; [done|by split].
  - apply Forall_forall. intros p [-> _]%elem_of_replicate.
    by apply Qc_share_bounds.
  - rewrite sum_list_replicate. apply Qcmult_div_r. by apply Qc_of_nat_ne_0.
Qed.

Lemma greedy_valid_distribution self s (e : Qc) :
  epsilon self = PyFloat e → (0 ≤ e ≤ 1)%Qc →
  NoDup (ObservableEnvironment.get_possible_actions (env self) s) →
  epsilon_greedy_at self s → valid_distribution self s.
Proof.
  intros Heps [Heps0 Heps1] Hnodup (best & _ & Hargmax & Hbest & Hother).
  apply first_argmax_elem, list_elem_of_split in Hargmax
    as (before & after & Hactions).
  unfold valid_distribution, share in *. rewrite Heps in *.
  cbn [float py2_div] in *. rewrite Hactions in *.
  set (n := length (before ++ best :: after)) in *.
  assert (Hn : n ≠ 0) by (unfold n; rewrite length_app; simpl; lia).
  set (share := (e / Qc_of_nat n)%Qc) in *.
  destruct (Qc_share_bounds e n Hn Heps0) as [Hshare0 Hshare].
  apply NoDup_app in Hnodup as (_ & Hdisjoint & Hnodup).
  apply NoDup_cons in Hnodup as [Hafter _].
  exists (replicate (length before) share ++
          ((1 - e) + share)%Qc :: replicate (length after) share).
  split_and!.
  - apply mapM_Returns, Forall2_app; [|constructor].
    + apply lookups_constant. intros a Ha. apply dict_getitem_Some, Hother.
      * rewrite elem_of_app. auto.
      * intros ->. eapply Hdisjoint; [done|by left].
    + by apply dict_getitem_Some.
    + apply lookups_constant. intros a Ha. apply dict_getitem_Some, Hother.
      * rewrite elem_of_app, elem_of_cons. auto.
      * by intros ->.
  - assert (Hshare1 : (0 ≤ share ≤ 1)%Qc)
      by (split; [done|by eapply Qcle_trans]).
    apply Forall_app. split; [by apply Forall_replicate|].
    constructor; [|by apply Forall_replicate]. split.
    + apply Qcplus_nonneg_nonneg; [|apply Hshare1].
      unfold Qcminus. by apply -> Qcle_minus_iff.
    + trans ((1 - e) + e)%Qc.
      * apply -> Qcplus_le_mono_l. apply Hshare.
      * apply Qcle_refl_eq. ring.
  - rewrite sum_list_app. unfold sum_list at 2. cbn [foldr].
    fold (sum_list (replicate (length after) share)).
    rewrite !sum_list_replicate.
    transitivity ((1 - e) + Qc_of_nat n * share)%Qc.
    + unfold n. rewrite length_app. cbn [length].
      rewrite Qc_of_nat_add, Qc_of_nat_S. ring.
    + unfold share. rewrite Qcmult_div_r by by apply Qc_of_nat_ne_0. ring.
Qed.

(** X20. With a float [epsilon] in [[0, 1]] and action lists without
    repetitions, the policy entries over the legal actions of every state
    that has one are probabilities summing to 1: in the agent that
    [__init__] builds, for each of the three classes; after every refresh
    [_update_policy]; after a call of [_inner_learn], which leaves the
    policy alone; and in every agent that a sequence of [learn] calls
    returns. *)
Theorem policy_is_distribution (c : AgentClass) (e : EnvT) (γ α ε : Qc) :
  (0 ≤ ε ≤ 1)%Qc →
  (∀ s, NoDup (ObservableEnvironment.get_possible_actions e s)) →
  (∀ s, s ∈ ObservableEnvironment.get_states e →
        ObservableEnvironment.get_possible_actions e s ≠ [] →
        valid_distribution (__init__ c e γ α (PyFloat ε)) s) ∧
  (∀ self self',
     same_attributes (__init__ c e γ α (PyFloat ε)) self →
     _update_policy self = Returns self' →
     ∀ s, s ∈ ObservableEnvironment.get_states e → valid_distribution self' s) ∧
  (∀ self S A rng self' S' A' rng' s,
     valid_distribution self s →
     _inner_learn random_sample self S A rng = Returns (self', (S', A'), rng') →
     valid_distribution self' s) ∧
  (∀ fuel calls rng self' rng',
     learn_calls random_sample fuel (__init__ c e γ α (PyFloat ε)) calls rng
       = Returns (self', rng') →
     ∀ s, s ∈ ObservableEnvironment.get_states e →
          ObservableEnvironment.get_possible_actions e s ≠ [] →
          valid_distribution self' s).
Proof.
  intros Heps Hnodup.
  destruct (init_spec c e γ α (PyFloat ε)) as ((_ & _ & Henv0 & _ & _ & Heps0) & _).
  assert (Hrefresh : ∀ self self',
    same_attributes (__init__ c e γ α (PyFloat ε)) self →
    _update_policy self = Returns self' →
    same_attributes (__init__ c e γ α (PyFloat ε)) self' ∧
    ∀ s, s ∈ ObservableEnvironment.get_states e → valid_distribution self' s).
  { intros self self' Hattr Hrun.
    pose proof (update_policy_spec _ _ Hrun) as (Hattr' & _).
    pose proof (same_attributes_trans _ _ _ Hattr Hattr') as Hattr0.
    split; [done|]. intros s Hs.
    destruct Hattr0 as (_ & Henv & _ & _ & Heps').
    apply (greedy_valid_distribution self' s ε).
    - by rewrite Heps', Heps0.
    - done.
    - rewrite Henv, Henv0. apply Hnodup.
    - eapply update_policy_greedy; [done|]. by rewrite Henv, Henv0. }
  assert (Hstep : ∀ self S A rng self' S' A' rng' s,
    valid_distribution self s →
    _inner_learn random_sample self S A rng = Returns (self', (S', A'), rng') →
    valid_distribution self' s).
  { intros self S A rng self' S' A' rng' s Hvalid Hrun.
    apply inner_learn_frame in Hrun as ((_ & Henv & _) & Hpol & _).
    unfold valid_distribution in *. by rewrite Henv, Hpol. }
  split_and!.
  - intros s. apply init_valid_distribution.
  - intros self self' Hattr Hrun. by apply (Hrefresh self self').
  - done.
  - intros fuel calls rng self' rng' Hrun.
    apply (learn_calls_invariant
             (λ self, same_attributes (__init__ c e γ α (PyFloat ε)) self ∧
                ∀ s, s ∈ ObservableEnvironment.get_states e →
                     ObservableEnvironment.get_possible_actions e s ≠ [] →
                     valid_distribution self s)) in Hrun.
    + by destruct Hrun.
    + intros self S A rng0 self1 S1 A1 rng1 self2 [Hattr Hvalid] Hrun1 Hrun2.
      apply inner_learn_frame in Hrun1 as (Hattr1 & _).
      destruct (Hrefresh self1 self2) as [Hattr2 Hvalid2];
        [by eapply same_attributes_trans|done|].
      split; [done|]. intros s Hs _. by apply Hvalid2.
    + split; [apply same_attributes_refl|].
      intros s. apply init_valid_distribution.
Qed.

(** *** Sampling from the policy *)

(** The entries of the distribution function that [np.random.choice]
    searches. *)
Lemma cdf_lookup (ps : list Qc) (j : nat) :
  j < length ps →
  ((λ c, c / List.last (cumsum ps) 0)%Qc <$> cumsum ps) !! j
  = Some (sum_list (take (Datatypes.S j) ps) / sum_list ps)%Qc.
Proof.
  intros Hj. rewrite list_lookup_fmap, cumsum_last. unfold cumsum.
  rewrite cumsum_from_lookup by done. cbn [fmap option_fmap option_map].
  by rewrite Qcplus_0_l.
Qed.

(** [_choose_action] returns [A] exactly when [A] is sampled from the
    policy at [S]. *)
Lemma choose_action_sampled self S rng A rng' :
  _choose_action random_sample self S rng = Returns (A, rng') ↔
  sampled_from_policy random_sample self S rng A rng'.
Proof.
  unfold _choose_action, sampled_from_policy. cbv zeta.
  set (actions := ObservableEnvironment.get_possible_actions (env self) S).
  split.
  - intros Hrun. bind_inv Hrun as ps Hps. apply mapM_Returns in Hps.
    assert (Hps' : Forall2 (λ a p, policy self !! (S, a) = Some p) actions ps).
    { eapply Forall2_impl; [exact Hps|].
      intros a p Hp. by apply dict_getitem_Returns. }
    revert Hrun. unfold np_random_choice.
    case_decide as Hempty; [done|]. case_decide as Hlen; [done|].
    case_decide as Hneg; [done|]. case_decide as Htol; [done|].
    destruct (random_sample rng) as [u rng1] eqn:Hsample.
    destruct (actions !! _) as [x|] eqn:Hx; [|done]. intros [= -> ->].
    exists ps, u. split_and!; try done.
    + apply Forall_forall. intros p Hp. apply Qcnot_lt_le. intros Hlt.
      apply Hneg, Exists_exists. by exists p.
    + apply Qcnot_lt_le. tauto.
    + apply Qcnot_lt_le. tauto.
    + set (cdf := (λ c, c / List.last (cumsum ps) 0)%Qc <$> cumsum ps) in *.
      destruct (searchsorted_right_spec cdf u) as [Hle Hgt].
      pose proof (lookup_lt_Some _ _ _ Hx) as Hidx.
      assert (Hlen' : length ps = length actions)
        by (by destruct (decide (length ps = length actions))).
      exists (searchsorted_right cdf u). split; [done|]. split.
      * intros j Hj. apply (Hle j); [done|]. apply cdf_lookup. lia.
      * apply Hgt. apply cdf_lookup. lia.
  - intros (ps & u & Hps & Hnonneg & Hhigh & Hlow & Hsample & i & Hi & Hle & Hgt).
    assert (Hmap : mapM (λ A0, dict_getitem (policy self) (S, A0)) actions
                   = Returns ps).
    { apply mapM_Returns. eapply Forall2_impl; [exact Hps|].
      intros a p Hp. by apply dict_getitem_Some. }
    rewrite Hmap. cbn [mbind Outcome_bind].
    pose proof (Forall2_length _ _ _ Hps) as Hlen.
    pose proof (lookup_lt_Some _ _ _ Hi) as Hidx.
    unfold np_random_choice.
    rewrite decide_False by lia. rewrite decide_False by lia.
    rewrite decide_False.
    2: { rewrite Exists_exists. intros (p & Hp & Hneg).
         rewrite Forall_forall in Hnonneg. specialize (Hnonneg p Hp).
         by apply Qclt_not_le in Hneg. }
    rewrite decide_False.
    2: { intros [Hlt|Hlt]; by apply Qclt_not_le in Hlt. }
    rewrite Hsample.
    rewrite (searchsorted_right_unique _ u i).
    + by rewrite Hi.
    + intros j c Hj. rewrite cdf_lookup by lia. intros [= <-]. by apply Hle.
    + eexists. split; [apply cdf_lookup; lia|done].
Qed.

(** The value of the first maximum is a maximum over the legal actions. *)
Lemma first_argmax_upper self s best (q_best : Qc) :
  first_argmax self s best → Q self !! (s, best) = Some q_best →
  ∀ a, a ∈ ObservableEnvironment.get_possible_actions (env self) s →
       ∃ q, Q self !! (s, a) = Some q ∧ (q ≤ q_best)%Qc.
Proof.
  intros (before & after & q' & Hsplit & Hq & Hbefore & Hafter) Hbest a Ha.
  rewrite Hq in Hbest. injection Hbest as ->.
  apply elem_of_iteration_order in Ha. rewrite Hsplit in Ha.
  rewrite Forall_forall in Hbefore, Hafter.
  apply elem_of_app in Ha as [Ha|[->|Ha]%elem_of_cons].
  - destruct (Hbefore a Ha) as (q & Hqa & Hlt). exists q.
    split; [done|by apply Qclt_le_weak].
  - exists q_best. split; [done|apply Qcle_refl].
  - by apply Hafter.
Qed.

(** *** The three update rules *)

(** C3. A SARSA step on [(S, A)] returns exactly when executing [A] yields
    some [(S_next, R)], an action [A_next] is sampled from the policy at
    [S_next] (the policy's probabilities of the legal actions of [S_next]
    and one uniform sample select it), and [Q] holds both [(S, A)] and
    [(S_next, A_next)]; the agent it returns differs from [self] only in
    [Q[S, A] + alpha * (R + discount_factor * Q[S_next, A_next] - Q[S, A])]
    stored at [(S, A)]; it hands [(S_next, A_next)] to the loop of [learn],
    whose next step executes [A_next] at [S_next]. *)
Theorem sarsa_learning_step self S A rng self' S' A' rng' :
  cls self = SarsaAgent →
  (_inner_learn random_sample self S A rng = Returns (self', (S', A'), rng') ↔
   ∃ R rng1 q q_next,
     ObservableEnvironment.execute_action (env self) S A rng
       = Returns (S', R, rng1) ∧
     sampled_from_policy random_sample self S' rng1 A' rng' ∧
     Q self !! (S, A) = Some q ∧
     Q self !! (S', A') = Some q_next ∧
     self' = set_Q self
       (<[(S, A) := (q + alpha self * (R + discount_factor self * q_next - q))%Qc]>
          (Q self))) ∧
  (_inner_learn random_sample self S A rng = Returns (self', (S', A'), rng') →
   (∀ k, k ≠ (S, A) → Q self' !! k = Q self !! k) ∧
   policy self' = policy self ∧
   ∀ fuel self2,
     ObservableEnvironment.is_terminal_state (env self) S = Returns false →
     _update_policy self' = Returns self2 →
     episode random_sample (Datatypes.S fuel) self S A rng
     = episode random_sample fuel self2 S' A' rng' ∧
     ∀ self3 S3 A3 rng3,
       _inner_learn random_sample self2 S' A' rng'
         = Returns (self3, (S3, A3), rng3) →
       ∃ R2 rng2,
         ObservableEnvironment.execute_action (env self2) S' A' rng'
           = Returns (S3, R2, rng2)).
Proof.
  intros Hcls. split.
  - unfold _inner_learn. rewrite Hcls, sarsa_inner_learn_inv.
    split; intros (R & rng1 & q & q_next & ? & Hdraw & ? & ? & ?);
      exists R, rng1, q, q_next; split_and!; try done;
      by apply choose_action_sampled.
  - intros Hrun. pose proof Hrun as Hframe.
    apply inner_learn_frame in Hframe as (Hattr & Hpol & _ & v & HQ).
    unfold updated_key in HQ. rewrite Hcls in HQ. split_and!; [|done|].
    + intros k Hk. by rewrite HQ, lookup_insert_ne.
    + intros fuel self2 Hterm Hrefresh. split; [by eapply episode_step|].
      intros self3 S3 A3 rng3. unfold _inner_learn.
      apply update_policy_spec in Hrefresh as ((Hcls2 & _) & _).
      destruct Hattr as (Hcls1 & _). rewrite Hcls2, Hcls1, Hcls.
      intros (R2 & rng2 & _ & _ & Hexec & _)%sarsa_inner_learn_inv.
      by exists R2, rng2.
Qed.

(** C4. A Q-Learning step ignores the action it is given: it samples [A]
    from the policy at [S], executes it, takes for [A_best] the action
    [_find_best_action] selects at [S_next], a legal action whose value no
    legal action of [S_next] exceeds, stores
    [Q[S, A] + alpha * (R + discount_factor * Q[S_next, A_best] - Q[S, A])]
    at [(S, A)] and returns [(S_next, A)] with the sampled [A]. *)
Theorem qlearning_learning_step self S A rng self' S' A' rng' :
  cls self = QLearningAgent →
  (∀ A0, _inner_learn random_sample self S A0 rng
         = _inner_learn random_sample self S A rng) ∧
  (_inner_learn random_sample self S A rng = Returns (self', (S', A'), rng') ↔
   ∃ R rng1 A_best q q_best,
     sampled_from_policy random_sample self S rng A' rng1 ∧
     ObservableEnvironment.execute_action (env self) S A' rng1
       = Returns (S', R, rng') ∧
     _find_best_action self S' = Returns A_best ∧
     A_best ∈ ObservableEnvironment.get_possible_actions (env self) S' ∧
     (∀ a, a ∈ ObservableEnvironment.get_possible_actions (env self) S' →
           ∃ q, Q self !! (S', a) = Some q ∧ (q ≤ q_best)%Qc) ∧
     Q self !! (S, A') = Some q ∧
     Q self !! (S', A_best) = Some q_best ∧
     self' = set_Q self
       (<[(S, A') := (q + alpha self * (R + discount_factor self * q_best - q))%Qc]>
          (Q self))).
Proof.
  intros Hcls. unfold _inner_learn. rewrite Hcls. split; [done|].
  rewrite qlearning_inner_learn_inv. split.
  - intros (R & rng1 & A_best & q & q_best & ? & ? & Hbest & ? & Hq & ?).
    pose proof (find_best_action_spec _ _ _ Hbest) as Hargmax.
    exists R, rng1, A_best, q, q_best. split_and!; try done.
    + by apply choose_action_sampled.
    + by eapply first_argmax_elem.
    + by eapply first_argmax_upper.
  - intros (R & rng1 & A_best & q & q_best & ? & ? & Hbest & _ & _ & ? & ? & ?).
    exists R, rng1, A_best, q, q_best. split_and!; try done.
    by apply choose_action_sampled.
Qed.

(** C5. An Expected SARSA step on [(S, A)] executes [A], samples [A_next]
    from the policy at [S_next] (the policy's probabilities of the legal
    actions of [S_next] and one uniform sample select it), and stores at
    [(S, A)] the blend of [Q[S, A]] with the target
    [R + discount_factor * sum], where [sum] adds
    [policy[S_next, a] * Q[S_next, a]] over the legal actions [a] at
    [S_next]; it returns [(S_next, A_next)]. *)
Theorem expected_sarsa_learning_step self S A rng self' S' A' rng' :
  cls self = ExpectedSarsaAgent →
  (_inner_learn random_sample self S A rng = Returns (self', (S', A'), rng') ↔
   ∃ R rng1 ps qs q,
     ObservableEnvironment.execute_action (env self) S A rng
       = Returns (S', R, rng1) ∧
     sampled_from_policy random_sample self S' rng1 A' rng' ∧
     Forall2 (λ a p, policy self !! (S', a) = Some p)
       (ObservableEnvironment.get_possible_actions (env self) S') ps ∧
     Forall2 (λ a q, Q self !! (S', a) = Some q)
       (ObservableEnvironment.get_possible_actions (env self) S') qs ∧
     Q self !! (S, A) = Some q ∧
     self' = set_Q self
       (<[(S, A) :=
            (q + alpha self *
               (R + discount_factor self * sum_list (zip_with Qcmult ps qs) - q))%Qc]>
          (Q self))).
Proof.
  intros Hcls. unfold _inner_learn. rewrite Hcls, expected_inner_learn_inv.
  split; intros (R & rng1 & ps & qs & q & ? & Hdraw & ? & ? & ? & ?);
    exists R, rng1, ps, qs, q; split_and!; try done;
    by apply choose_action_sampled.
Qed.

(** *** Terminal states *)

Lemma learn_loop_terminal (fuel n : nat) self S rng self' rng' :
  ObservableEnvironment.is_terminal_state (env self) S = Returns true →
  learn_loop random_sample (Datatypes.S fuel) self n S rng
    = Returns (self', rng') →
  self' = self.
Proof.
  intros Hterm. revert rng.
  induction n as [|n IH]; intros rng Hrun; cbn [learn_loop] in Hrun.
  - by injection Hrun as <- _.
  - bind_inv Hrun as [A rng1] Hchoose.
    rewrite episode_terminal in Hrun by done.
    cbn [mbind Outcome_bind] in Hrun. by eapply IH.
Qed.

Lemma learn_loop_updates_terminal (fuel n : nat) self S rng :
  ObservableEnvironment.is_terminal_state (env self) S = Returns true →
  learn_loop_updates random_sample (Datatypes.S fuel) self n S rng = [].
Proof.
  intros Hterm. revert rng.
  induction n as [|n IH]; intros rng; cbn [learn_loop_updates]; [done|].
  destruct (_choose_action random_sample self S rng) as [[A rng1]| |]; try done.
  rewrite episode_terminal by done.
  cbn [episode_updates]. rewrite Hterm. simpl. apply IH.
Qed.

(** C6, as the code has it. When the initial state is terminal, [learn]
    performs no update: the agent it returns is the agent it was given, [Q]
    and policy included. It does draw one action from the policy at the
    initial state for every episode, before the loop tests for termination;
    if that draw raises, so does [learn]. *)
Theorem learn_from_terminal_state (fuel : nat) self (num_samples : Z) S rng :
  ObservableEnvironment.is_terminal_state (env self) S = Returns true →
  (∀ self' rng',
     learn random_sample (Datatypes.S fuel) self num_samples S rng
       = Returns (self', rng') → self' = self) ∧
  learn_loop_updates random_sample (Datatypes.S fuel) self
    (Z.to_nat num_samples) S rng = [] ∧
  ((0 ≤ num_samples)%Z →
   learn random_sample (Datatypes.S fuel) self (num_samples + 1) S rng =
     '(A, rng1) ← _choose_action random_sample self S rng;
     learn random_sample (Datatypes.S fuel) self num_samples S rng1).
Proof.
  intros Hterm. split_and!.
  - intros self' rng'. by apply learn_loop_terminal.
  - by apply learn_loop_updates_terminal.
  - intros Hn. unfold learn.
    replace (Z.to_nat (num_samples + 1)) with (Datatypes.S (Z.to_nat num_samples))
      by lia.
    cbn [learn_loop].
    destruct (_choose_action random_sample self S rng) as [[A rng1]| |]; try done.
    cbn [mbind Outcome_bind]. by rewrite episode_terminal.
Qed.

(** The action that a step on [(S, A)] executes, and the generator state it
    executes it in: [QLearningAgent] draws its own. *)
Lemma inner_learn_empty_successor self S A rng A0 rng0 S1 R rng1 :
  match cls self with
  | QLearningAgent =>
      _choose_action random_sample self S rng = Returns (A0, rng0)
  | _ => (A0, rng0) = (A, rng)
  end →
  ObservableEnvironment.execute_action (env self) S A0 rng0
    = Returns (S1, R, rng1) →
  ObservableEnvironment.get_possible_actions (env self) S1 = [] →
  _inner_learn random_sample self S A rng = Raises ValueError.
Proof.
  intros Hexecuted Hexec Hnil. unfold _inner_learn.
  assert (Hchoose : ∀ rng2,
    _choose_action random_sample self S1 rng2 = Raises ValueError).
  { intros rng2. unfold _choose_action. rewrite Hnil. done. }
  destruct (cls self).
  - injection Hexecuted as -> ->. unfold SarsaAgent_inner_learn.
    rewrite Hexec. cbn [mbind Outcome_bind]. by rewrite Hchoose.
  - unfold QLearningAgent_inner_learn.
    rewrite Hexecuted. cbn [mbind Outcome_bind].
    rewrite Hexec. cbn [mbind Outcome_bind].
    by rewrite find_best_action_empty.
  - injection Hexecuted as -> ->. unfold ExpectedSarsaAgent_inner_learn.
    rewrite Hexec. cbn [mbind Outcome_bind]. by rewrite Hchoose.
Qed.

(** C7, as the code has it. The loop of [learn] tests termination on its
    current state only, so a step that reaches a terminal successor still
    makes its update, and the refresh that follows it, before the loop
    exits. The successor estimate is computed as at any other state, over
    the successor's legal actions, of which there must be one: when the
    successor has no legal action the step raises [ValueError], in each of
    the three classes, and so does the episode. *)
Theorem final_update_at_terminal_successor (fuel : nat) self S A rng :
  ObservableEnvironment.is_terminal_state (env self) S = Returns false →
  (∀ self1 S1 A1 rng1 self2,
     _inner_learn random_sample self S A rng = Returns (self1, (S1, A1), rng1) →
     _update_policy self1 = Returns self2 →
     ObservableEnvironment.is_terminal_state (env self) S1 = Returns true →
     episode random_sample (Datatypes.S (Datatypes.S fuel)) self S A rng
       = Returns (self2, rng1) ∧
     (∃ v, Q self2 = <[updated_key self S A A1 := v]> (Q self)) ∧
     ObservableEnvironment.get_possible_actions (env self) S1 ≠ []) ∧
  (∀ A0 rng0 S1 R rng1,
     match cls self with
     | QLearningAgent =>
         _choose_action random_sample self S rng = Returns (A0, rng0)
     | _ => (A0, rng0) = (A, rng)
     end →
     ObservableEnvironment.execute_action (env self) S A0 rng0
       = Returns (S1, R, rng1) →
     ObservableEnvironment.get_possible_actions (env self) S1 = [] →
     _inner_learn random_sample self S A rng = Raises ValueError ∧
     episode random_sample (Datatypes.S fuel) self S A rng = Raises ValueError).
Proof.
  intros Hterm. split.
  - intros self1 S1 A1 rng1 self2 Hstep Hrefresh Hterm1.
    pose proof (inner_learn_frame _ _ _ _ _ _ _ _ Hstep)
      as (Hattr1 & _ & _ & v & HQ1).
    pose proof (update_policy_spec _ _ Hrefresh) as (Hattr2 & HQ2 & _).
    pose proof (same_attributes_trans _ _ _ Hattr1 Hattr2) as (_ & Henv & _).
    split_and!.
    + rewrite (episode_step _ _ _ _ _ _ _ _ _ _ Hterm Hstep Hrefresh).
      apply episode_terminal. by rewrite Henv.
    + exists v. by rewrite HQ2.
    + intros Hnil.
      assert (Hupdate : ∃ A0 rng0 R rng2,
        match cls self with
        | QLearningAgent =>
            _choose_action random_sample self S rng = Returns (A0, rng0)
        | _ => (A0, rng0) = (A, rng)
        end ∧
        ObservableEnvironment.execute_action (env self) S A0 rng0
          = Returns (S1, R, rng2)).
      { revert Hstep. unfold _inner_learn. destruct (cls self).
        - intros (R & rng2 & _ & _ & ? & _)%sarsa_inner_learn_inv.
          by exists A, rng, R, rng2.
        - intros (R & rng2 & _ & _ & _ & ? & ? & _)%qlearning_inner_learn_inv.
          by exists A1, rng2, R, rng1.
        - intros (R & rng2 & _ & _ & _ & ? & _)%expected_inner_learn_inv.
          by exists A, rng, R, rng2. }
      destruct Hupdate as (A0 & rng0 & R & rng2 & Hexecuted & Hexec).
      by rewrite (inner_learn_empty_successor _ _ _ _ _ _ _ _ _
                    Hexecuted Hexec Hnil) in Hstep.
  - intros A0 rng0 S1 R rng1 Hexecuted Hexec Hnil.
    pose proof (inner_learn_empty_successor _ _ _ _ _ _ _ _ _
                  Hexecuted Hexec Hnil) as Hraise.
    split; [done|]. by rewrite episode_unfold, Hterm, Hraise.
Qed.

(** *** What a run depends on *)








(** *** Only visited pairs change *)

Lemma episode_frame (fuel : nat) self S A rng self' rng' k :
  episode random_sample fuel self S A rng = Returns (self', rng') →
  k ∉ episode_updates random_sample fuel self S A rng →
  Q self' !! k = Q self !! k.
Proof.
  revert self S A rng.
  induction fuel as [|fuel IH]; intros self S A rng Hrun Hk; [done|].
  apply episode_Returns_inv in Hrun
    as (fuel' & [= <-] & [(_ & -> & _)|(Hterm & self1 & S1 & A1 & rng1 & self2 &
                                         Hstep & Hrefresh & Hrun)]); [done|].
  cbn [episode_updates] in Hk. rewrite Hterm, Hstep, Hrefresh in Hk.
  apply not_elem_of_cons in Hk as [Hne Hk].
  rewrite (IH _ _ _ _ Hrun Hk).
  apply inner_learn_frame in Hstep as (_ & _ & _ & v & HQ1).
  apply update_policy_spec in Hrefresh as (_ & -> & _).
  by rewrite HQ1, lookup_insert_ne.
Qed.

Lemma learn_loop_frame (fuel n : nat) self initial_state rng self' rng' k :
  learn_loop random_sample fuel self n initial_state rng = Returns (self', rng') →
  k ∉ learn_loop_updates random_sample fuel self n initial_state rng →
  Q self' !! k = Q self !! k.
Proof.
  revert self rng. induction n as [|n IH]; intros self rng Hrun Hk.
  - by injection Hrun as <- _.
  - cbn [learn_loop] in Hrun. cbn [learn_loop_updates] in Hk.
    bind_inv Hrun as [A rng1] Hchoose. bind_inv Hrun as [self1 rng2] Hepisode.
    rewrite Hchoose, Hepisode in Hk. apply not_elem_of_app in Hk as [Hk1 Hk2].
    rewrite (IH _ _ Hrun Hk2). by eapply episode_frame.
Qed.

Lemma learn_calls_frame (fuel : nat) (calls : list (Z * State))
    self rng self' rng' k :
  learn_calls random_sample fuel self calls rng = Returns (self', rng') →
  k ∉ learn_calls_updates random_sample fuel self calls rng →
  Q self' !! k = Q self !! k.
Proof.
  revert self rng. induction calls as [|[n s0] calls IH]; intros self rng Hrun Hk.
  - by injection Hrun as <- _.
  - cbn [learn_calls] in Hrun. cbn [learn_calls_updates] in Hk.
    bind_inv Hrun as [self1 rng1] Hlearn.
    rewrite Hlearn in Hk. apply not_elem_of_app in Hk as [Hk1 Hk2].
    rewrite (IH _ _ Hrun Hk2). by eapply learn_loop_frame.
Qed.

Lemma init_tables_enumerated (c : AgentClass) (e : EnvT) (γ α : Qc) (ε : Number) :
  tables_enumerated (__init__ c e γ α ε).
Proof.
  destruct (init_spec c e γ α ε) as ((_ & _ & Henv & _) & HQ & Hpol).
  intros k. rewrite Henv, HQ, Hpol.
  case_decide; split; split; try done; by intros [? [=]].
Qed.

Lemma step_tables_enumerated self S A rng self1 S1 A1 rng1 self2 :
  tables_enumerated self →
  _inner_learn random_sample self S A rng = Returns (self1, (S1, A1), rng1) →
  _update_policy self1 = Returns self2 →
  tables_enumerated self2.
Proof.
  intros Htables Hstep Hrefresh.
  apply inner_learn_frame in Hstep as ((_ & Henv1 & _) & Hpol1 & Hkey & v & HQ1).
  pose proof (update_policy_spec _ _ Hrefresh) as ((_ & Henv2 & _) & HQ2 & Hpol2).
  intros k. destruct (Htables k) as [HQ Hpol].
  split.
  - rewrite Henv2, Henv1, HQ2, HQ1, <- HQ, lookup_insert.
    case_decide; [subst|done]. split; [done|by eexists].
  - rewrite Hpol2, Henv2.
    destruct (decide (enumerated (env self1) k)) as [Hk|Hk].
    + split; [done|intros _].
      destruct (update_policy_loop_best _ _ _ Hrefresh k.1) as [best Hbest];
        [apply Hk|].
      unfold greedy_probability. rewrite Hbest. by eexists.
    + by rewrite Hpol1, Hpol, <- Henv1.
Qed.

(** C9. The agent that [__init__] builds holds [0] in [Q] and
    [1 / |A(s)|] in the policy at every pair enumerated from the
    environment, and nothing else. After any sequence of [learn] calls that
    returns, both tables have the keys they had, and [Q] is unchanged, so
    still [0], at every key that no step assigned. *)
Theorem only_visited_pairs_change (c : AgentClass) (e : EnvT) (γ α : Qc) (ε : Number)
    (fuel : nat) (calls : list (Z * State)) (rng : RandomState) self' rng' :
  learn_calls random_sample fuel (__init__ c e γ α ε) calls rng
    = Returns (self', rng') →
  (∀ k, enumerated e k →
     Q (__init__ c e γ α ε) !! k = Some 0%Qc ∧
     policy (__init__ c e γ α ε) !! k =
       Some (1 / Qc_of_nat (length
               (ObservableEnvironment.get_possible_actions e k.1)))%Qc) ∧
  (∀ k, ¬ enumerated e k →
     Q (__init__ c e γ α ε) !! k = None ∧
     policy (__init__ c e γ α ε) !! k = None) ∧
  dom (Q self') = dom (Q (__init__ c e γ α ε)) ∧
  dom (policy self') = dom (policy (__init__ c e γ α ε)) ∧
  (∀ k, k ∉ learn_calls_updates random_sample fuel (__init__ c e γ α ε) calls rng →
     Q self' !! k = Q (__init__ c e γ α ε) !! k) ∧
  (∀ k, enumerated e k →
     k ∉ learn_calls_updates random_sample fuel (__init__ c e γ α ε) calls rng →
     Q self' !! k = Some 0%Qc).
Proof.
  intros Hrun.
  destruct (init_spec c e γ α ε) as ((_ & _ & Henv & _) & HQ & Hpol).
  assert (Htables :
    env self' = e ∧ tables_enumerated self').
  { apply (learn_calls_invariant (λ self, env self = e ∧ tables_enumerated self))
      in Hrun; [done| |].
    - intros self S A rng0 self1 S1 A1 rng1 self2 [Henv0 Htables] Hstep Hrefresh.
      split; [|by eapply step_tables_enumerated].
      apply inner_learn_frame in Hstep as ((_ & Henv1 & _) & _).
      apply update_policy_spec in Hrefresh as ((_ & Henv2 & _) & _).
      congruence.
    - split; [done|apply init_tables_enumerated]. }
  destruct Htables as [Henv' Htables].
  pose proof (init_tables_enumerated c e γ α ε) as Htables0.
  rewrite <- Henv in Henv'.
  split_and!.
  - intros k Hk. by rewrite HQ, Hpol, !decide_True.
  - intros k Hk. by rewrite HQ, Hpol, !decide_False.
  - apply set_eq. intros k. rewrite !elem_of_dom.
    destruct (Htables k) as [-> _], (Htables0 k) as [-> _]. by rewrite Henv'.
  - apply set_eq. intros k. rewrite !elem_of_dom.
    destruct (Htables k) as [_ ->], (Htables0 k) as [_ ->]. by rewrite Henv'.
  - intros k Hk. by eapply learn_calls_frame.
  - intros k Henum Hk. rewrite (learn_calls_frame _ _ _ _ _ _ _ Hrun Hk).
    by rewrite HQ, decide_True.
Qed.

End AgentProperties.

(** ** The properties on concrete inputs *)

Lemma policy_refreshed_after_every_step_witness :
  let self := Notebook.agent SarsaAgent in
  let step :=
    returned (self, ((0, 0)%Z, ""), 0)
      (_inner_learn counter_sample self (2, 3)%Z "UP" 0) in
  let self2 := returned self (_update_policy step.1.1) in
  Q self2 !! ((2, 3)%Z, "UP") = Some (Q2Qc (-2 # 5)) ∧
  epsilon_greedy_with self2 (2, 3)%Z (Q2Qc (5 # 100)) ∧
  epsilon_greedy_with self2 (0, 0)%Z (Q2Qc (5 # 100)).
Proof.
  intros self step self2.
  destruct (policy_refreshed_after_every_step counter_sample self (2, 3)%Z "UP" 0
              step.1.1 step.1.2.1 step.1.2.2 step.2 self2 (Q2Qc (5 # 100)))
    as (_ & Hgreedy & _).
  - vm_compute. reflexivity.
  - apply returned_step. vm_compute. reflexivity.
  - apply returned_Returns. vm_compute. reflexivity.
  - split; [|split; apply Hgreedy; apply (bool_decide_unpack _); vm_compute; exact I].
    apply (bool_decide_unpack _). vm_compute. exact I.
Defined.

(** C1, as stated, fails: after a learning step on the notebook's grid the
    four actions of the cell [(1, 4)] all have the value 0, so that the
    first maximum in the order of the enumeration is [UP]; the refresh gives
    [(1 - epsilon) + epsilon / 4] to [DOWN], which comes first when the
    dictionary iterates, and [epsilon / 4] to [UP]. *)
Lemma ties_follow_dictionary_order :
  let self := Notebook.agent SarsaAgent in
  let step :=
    returned (self, ((0, 0)%Z, ""), 0)
      (_inner_learn counter_sample self (2, 3)%Z "UP" 0) in
  let self2 := returned self (_update_policy step.1.1) in
  let e := Q2Qc (5 # 100) in
  is_Returns (_inner_learn counter_sample self (2, 3)%Z "UP" 0) = true ∧
  is_Returns (_update_policy step.1.1) = true ∧
  epsilon self2 = PyFloat e ∧
  ObservableEnvironment.get_possible_actions (env self2) (1, 4)%Z
    = ["UP"; "DOWN"; "LEFT"; "RIGHT"] ∧
  Forall (λ a, Q self2 !! ((1, 4)%Z, a) = Some 0%Qc)
    ["UP"; "DOWN"; "LEFT"; "RIGHT"] ∧
  policy self2 !! ((1, 4)%Z, "DOWN") = Some ((1 - e) + e / Qc_of_nat 4)%Qc ∧
  policy self2 !! ((1, 4)%Z, "UP") = Some (e / Qc_of_nat 4)%Qc ∧
  policy self2 !! ((1, 4)%Z, "UP") ≠ Some ((1 - e) + e / Qc_of_nat 4)%Qc.
Proof.
  intros self step self2 e.
  split; [vm_compute; reflexivity|]. split; [vm_compute; reflexivity|].
  split; [vm_compute; reflexivity|]. split; [vm_compute; reflexivity|].
  repeat split; apply (bool_decide_unpack _); vm_compute; exact I.
Qed.

(** C2 fails on an int [epsilon]: with [epsilon=1] the share [1 / |A(s)|]
    is floored to 0 at every state with two actions or more and the best
    action receives [0 + (1 - 1)], so that after the first refresh the
    policy is 0 throughout; the next draw raises [ValueError]. The
    constructor, which writes [1. / num_actions], does not floor. *)
Lemma int_epsilon_collapses_policy :
  let self0 :=
    __init__ SarsaAgent Notebook.env 1%Qc (Q2Qc (4 # 10)) (PyInt 1) in
  let self := returned self0 (_update_policy self0) in
  policy self0 !! ((0, 0)%Z, "DOWN") = Some (Q2Qc (1 # 2)) ∧
  policy self0 !! ((0, 0)%Z, "RIGHT") = Some (Q2Qc (1 # 2)) ∧
  _update_policy self0 = Returns self ∧
  ObservableEnvironment.get_possible_actions (env self) (0, 0)%Z
    = ["DOWN"; "RIGHT"] ∧
  policy self !! ((0, 0)%Z, "DOWN") = Some 0%Qc ∧
  policy self !! ((0, 0)%Z, "RIGHT") = Some 0%Qc ∧
  ¬ valid_distribution self (0, 0)%Z ∧
  _choose_action counter_sample self (0, 0)%Z 0 = Raises ValueError ∧
  learn counter_sample 2 self0 1 (0, 0)%Z 0 = Raises ValueError.
Proof.
  intros self0 self.
  assert (Hdown : policy self !! ((0, 0)%Z, "DOWN") = Some 0%Qc)
    by (apply (bool_decide_unpack _); vm_compute; exact I).
  assert (Hright : policy self !! ((0, 0)%Z, "RIGHT") = Some 0%Qc)
    by (apply (bool_decide_unpack _); vm_compute; exact I).
  assert (Hactions :
    ObservableEnvironment.get_possible_actions (env self) (0, 0)%Z
    = ["DOWN"; "RIGHT"]) by (vm_compute; reflexivity).
  split; [apply (bool_decide_unpack _); vm_compute; exact I|].
  split; [apply (bool_decide_unpack _); vm_compute; exact I|].
  split; [apply returned_Returns; vm_compute; reflexivity|].
  split; [exact Hactions|]. split; [exact Hdown|]. split; [exact Hright|].
  split; [|split; vm_compute; reflexivity].
  intros (ps & Hps & _ & Hsum). rewrite Hactions in Hps.
  cbn [mapM] in Hps. unfold dict_getitem in Hps.
  rewrite Hdown, Hright in Hps. cbn [mbind Outcome_bind mret Outcome_ret] in Hps.
  injection Hps as <-. vm_compute in Hsum. discriminate Hsum.
Qed.

Lemma policy_is_distribution_witness :
  valid_distribution (Notebook.agent ExpectedSarsaAgent) (1, 4)%Z ∧
  valid_distribution
    (returned (Notebook.agent SarsaAgent, 0)
       (learn_calls counter_sample 4 (Notebook.agent SarsaAgent)
          [(1%Z, (1, 5)%Z)] 3)).1 (1, 5)%Z.
Proof.
  split.
  - destruct (policy_is_distribution counter_sample ExpectedSarsaAgent
                Notebook.env 1%Qc (Q2Qc (4 # 10)) (Q2Qc (5 # 100)))
      as (Hinit & _).
    + split; apply (bool_decide_unpack _); vm_compute; exact I.
    + intros s. apply windy_actions_NoDup.
    + apply Hinit; [apply (bool_decide_unpack _); vm_compute; exact I|].
      vm_compute. discriminate.
  - destruct (policy_is_distribution counter_sample SarsaAgent
                Notebook.env 1%Qc (Q2Qc (4 # 10)) (Q2Qc (5 # 100)))
      as (_ & _ & _ & Hlearn).
    + split; apply (bool_decide_unpack _); vm_compute; exact I.
    + intros s. apply windy_actions_NoDup.
    + apply (Hlearn 4 [(1%Z, (1, 5)%Z)] 3 _
               (returned (Notebook.agent SarsaAgent, 0)
                  (learn_calls counter_sample 4 (Notebook.agent SarsaAgent)
                     [(1%Z, (1, 5)%Z)] 3)).2).
      * apply returned_run. vm_compute. reflexivity.
      * apply (bool_decide_unpack _). vm_compute. exact I.
      * vm_compute. discriminate.
Defined.

Lemma sarsa_learning_step_witness :
  let self := Notebook.agent SarsaAgent in
  let step :=
    returned (self, ((0, 0)%Z, ""), 0)
      (_inner_learn counter_sample self (2, 3)%Z "UP" 0) in
  step.1.2 = ((0, 3)%Z, "DOWN") ∧
  Q step.1.1 !! ((2, 3)%Z, "UP") = Some (Q2Qc (-2 # 5)) ∧
  (∀ k, k ≠ ((2, 3)%Z, "UP") → Q step.1.1 !! k = Q self !! k) ∧
  policy step.1.1 = policy self ∧
  ∃ R rng1 q q_next,
    ObservableEnvironment.execute_action (env self) (2, 3)%Z "UP" 0
      = Returns ((0, 3)%Z, R, rng1) ∧
    sampled_from_policy counter_sample self (0, 3)%Z rng1 "DOWN" step.2 ∧
    Q self !! ((2, 3)%Z, "UP") = Some q ∧
    Q self !! ((0, 3)%Z, "DOWN") = Some q_next ∧
    step.1.1 = set_Q self
      (<[((2, 3)%Z, "UP") :=
           (q + alpha self * (R + discount_factor self * q_next - q))%Qc]>
         (Q self)).
Proof.
  intros self step.
  assert (Hshape : step.1.2 = ((0, 3)%Z, "DOWN")) by (vm_compute; reflexivity).
  assert (Hrun : _inner_learn counter_sample self (2, 3)%Z "UP" 0
                 = Returns (step.1.1, ((0, 3)%Z, "DOWN"), step.2)).
  { rewrite (returned_step (self, ((0, 0)%Z, ""), 0)
               (_inner_learn counter_sample self (2, 3)%Z "UP" 0))
      by (vm_compute; reflexivity).
    fold step. by rewrite (surjective_pairing step.1.2), Hshape. }
  destruct (sarsa_learning_step counter_sample self (2, 3)%Z "UP" 0
              step.1.1 (0, 3)%Z "DOWN" step.2) as (Hstep & Hframe).
  - vm_compute. reflexivity.
  - destruct (Hframe Hrun) as (HQ & Hpolicy & _).
    split; [exact Hshape|].
    split; [apply (bool_decide_unpack _); vm_compute; exact I|].
    split; [exact HQ|]. split; [exact Hpolicy|].
    apply Hstep. exact Hrun.
Defined.

Lemma qlearning_learning_step_witness :
  let self := Notebook.agent QLearningAgent in
  let step :=
    returned (self, ((0, 0)%Z, ""), 0)
      (_inner_learn counter_sample self (2, 3)%Z "UP" 4) in
  step.1.2 = ((1, 4)%Z, "RIGHT") ∧
  _find_best_action self (1, 4)%Z = Returns "DOWN" ∧
  ∃ R rng1 A_best q q_best,
    sampled_from_policy counter_sample self (2, 3)%Z 4 "RIGHT" rng1 ∧
    ObservableEnvironment.execute_action (env self) (2, 3)%Z "RIGHT" rng1
      = Returns ((1, 4)%Z, R, step.2) ∧
    _find_best_action self (1, 4)%Z = Returns A_best ∧
    A_best ∈ ObservableEnvironment.get_possible_actions (env self) (1, 4)%Z ∧
    (∀ a, a ∈ ObservableEnvironment.get_possible_actions (env self) (1, 4)%Z →
          ∃ q, Q self !! ((1, 4)%Z, a) = Some q ∧ (q ≤ q_best)%Qc) ∧
    Q self !! ((2, 3)%Z, "RIGHT") = Some q ∧
    Q self !! ((1, 4)%Z, A_best) = Some q_best ∧
    step.1.1 = set_Q self
      (<[((2, 3)%Z, "RIGHT") :=
           (q + alpha self * (R + discount_factor self * q_best - q))%Qc]>
         (Q self)).
Proof.
  intros self step.
  destruct (qlearning_learning_step counter_sample self (2, 3)%Z "UP" 4
              step.1.1 (1, 4)%Z "RIGHT" step.2) as (_ & Hstep).
  - vm_compute. reflexivity.
  - split; [vm_compute; reflexivity|]. split; [vm_compute; reflexivity|].
    apply Hstep.
    assert (Hshape : step.1.2 = ((1, 4)%Z, "RIGHT")) by (vm_compute; reflexivity).
    rewrite (returned_step (self, ((0, 0)%Z, ""), 0)
               (_inner_learn counter_sample self (2, 3)%Z "UP" 4))
      by (vm_compute; reflexivity).
    fold step. by rewrite (surjective_pairing step.1.2), Hshape.
Defined.

Lemma expected_sarsa_learning_step_witness :
  let self := Notebook.agent ExpectedSarsaAgent in
  let step :=
    returned (self, ((0, 0)%Z, ""), 0)
      (_inner_learn counter_sample self (2, 3)%Z "UP" 0) in
  step.1.2 = ((0, 3)%Z, "DOWN") ∧
  ∃ R rng1 ps qs q,
    ObservableEnvironment.execute_action (env self) (2, 3)%Z "UP" 0
      = Returns ((0, 3)%Z, R, rng1) ∧
    sampled_from_policy counter_sample self (0, 3)%Z rng1 "DOWN" step.2 ∧
    Forall2 (λ a p, policy self !! ((0, 3)%Z, a) = Some p)
      (ObservableEnvironment.get_possible_actions (env self) (0, 3)%Z) ps ∧
    Forall2 (λ a q, Q self !! ((0, 3)%Z, a) = Some q)
      (ObservableEnvironment.get_possible_actions (env self) (0, 3)%Z) qs ∧
    Q self !! ((2, 3)%Z, "UP") = Some q ∧
    step.1.1 = set_Q self
      (<[((2, 3)%Z, "UP") :=
           (q + alpha self *
              (R + discount_factor self * sum_list (zip_with Qcmult ps qs) - q))%Qc]>
         (Q self)).
Proof.
  intros self step.
  destruct (expected_sarsa_learning_step counter_sample self (2, 3)%Z "UP" 0
              step.1.1 (0, 3)%Z "DOWN" step.2) as [Hstep _].
  - vm_compute. reflexivity.
  - split; [vm_compute; reflexivity|]. apply Hstep.
    assert (Hshape : step.1.2 = ((0, 3)%Z, "DOWN")) by (vm_compute; reflexivity).
    rewrite (returned_step (self, ((0, 0)%Z, ""), 0)
               (_inner_learn counter_sample self (2, 3)%Z "UP" 0))
      by (vm_compute; reflexivity).
    fold step. by rewrite (surjective_pairing step.1.2), Hshape.
Defined.

(** C6, as stated, fails: started in the terminal cell [(1, 4)] of the
    notebook's grid, [learn] draws an action there, which advances the
    generator, although it leaves the agent as it was; started in a terminal
    state without actions, the draw raises. *)
Lemma learn_samples_at_terminal_state :
  ObservableEnvironment.is_terminal_state Notebook.env (1, 4)%Z = Returns true ∧
  _choose_action counter_sample (Notebook.agent SarsaAgent) (1, 4)%Z 0
    = Returns ("UP", 1) ∧
  is_Returns (learn counter_sample 1 (Notebook.agent SarsaAgent) 1 (1, 4)%Z 0)
    = true ∧
  (returned (Notebook.agent SarsaAgent, 0)
     (learn counter_sample 1 (Notebook.agent SarsaAgent) 1 (1, 4)%Z 0)).2 = 1 ∧
  ObservableEnvironment.is_terminal_state DeadEnd.env 1%Z = Returns true ∧
  learn counter_sample 1 (DeadEnd.agent SarsaAgent) 1 1%Z 0 = Raises ValueError.
Proof. repeat split; vm_compute; reflexivity. Qed.

Lemma learn_from_terminal_state_witness :
  let self := Notebook.agent SarsaAgent in
  let run := returned (self, 0) (learn counter_sample 1 self 3 (1, 4)%Z 0) in
  ObservableEnvironment.is_terminal_state (env self) (1, 4)%Z = Returns true ∧
  run.1 = self ∧
  run.2 = 3 ∧
  learn_loop_updates counter_sample 1 self 3 (1, 4)%Z 0 = [].
Proof.
  intros self run.
  assert (Hterm : ObservableEnvironment.is_terminal_state (env self) (1, 4)%Z
                  = Returns true) by (vm_compute; reflexivity).
  destruct (learn_from_terminal_state counter_sample 0 self 3 (1, 4)%Z 0 Hterm)
    as (Hsame & Hupdates & _).
  split; [exact Hterm|]. split; [|split; [vm_compute; reflexivity|exact Hupdates]].
  apply (Hsame run.1 run.2). unfold run.
  apply (returned_run (self, 0) (learn counter_sample 1 self 3 (1, 4)%Z 0)).
  vm_compute. reflexivity.
Defined.

(** C7, as stated, fails: when the successor has no legal action, the step
    raises in each of the three classes instead of using 0. *)
Lemma empty_successor_raises :
  ObservableEnvironment.is_terminal_state DeadEnd.env 1%Z = Returns true ∧
  ObservableEnvironment.get_possible_actions DeadEnd.env 1%Z = [] ∧
  ObservableEnvironment.execute_action DeadEnd.env 0%Z "GO" 0
    = Returns (1%Z, 0%Qc, 0) ∧
  _inner_learn counter_sample (DeadEnd.agent SarsaAgent) 0%Z "GO" 0
    = Raises ValueError ∧
  _inner_learn counter_sample (DeadEnd.agent QLearningAgent) 0%Z "GO" 0
    = Raises ValueError ∧
  _inner_learn counter_sample (DeadEnd.agent ExpectedSarsaAgent) 0%Z "GO" 0
    = Raises ValueError ∧
  learn counter_sample 2 (DeadEnd.agent QLearningAgent) 1 0%Z 0
    = Raises ValueError.
Proof. repeat split; vm_compute; reflexivity. Qed.

Lemma final_update_at_terminal_successor_witness :
  let self := Notebook.agent SarsaAgent in
  let step :=
    returned (self, ((0, 0)%Z, ""), 0)
      (_inner_learn counter_sample self (2, 3)%Z "RIGHT" 5) in
  let self2 := returned self (_update_policy step.1.1) in
  step.1.2.1 = (1, 4)%Z ∧
  episode counter_sample 2 self (2, 3)%Z "RIGHT" 5 = Returns (self2, step.2) ∧
  (∃ v, Q self2 = <[updated_key self (2, 3)%Z "RIGHT" step.1.2.2 := v]> (Q self)) ∧
  ObservableEnvironment.get_possible_actions (env self) (1, 4)%Z ≠ [].
Proof.
  intros self step self2.
  destruct (final_update_at_terminal_successor counter_sample 0 self
              (2, 3)%Z "RIGHT" 5) as [Hfinal _].
  - vm_compute. reflexivity.
  - assert (Hshape : step.1.2.1 = (1, 4)%Z) by (vm_compute; reflexivity).
    split; [exact Hshape|].
    apply (Hfinal step.1.1 (1, 4)%Z step.1.2.2 step.2 self2).
    + rewrite <- Hshape. apply returned_step. vm_compute. reflexivity.
    + apply returned_Returns. vm_compute. reflexivity.
    + vm_compute. reflexivity.
Defined.





Lemma only_visited_pairs_change_witness :
  let run :=
    returned (Notebook.agent SarsaAgent, 0)
      (learn_calls counter_sample 4 (Notebook.agent SarsaAgent)
         [(1%Z, (1, 5)%Z)] 3) in
  learn_calls_updates counter_sample 4 (Notebook.agent SarsaAgent)
    [(1%Z, (1, 5)%Z)] 3 = [((1, 5)%Z, "DOWN"); ((2, 5)%Z, "LEFT")] ∧
  Q run.1 !! ((1, 5)%Z, "DOWN") = Some (Q2Qc (-2 # 5)) ∧
  Q run.1 !! ((0, 0)%Z, "RIGHT") = Some 0%Qc ∧
  dom (Q run.1) = dom (Q (Notebook.agent SarsaAgent)) ∧
  dom (policy run.1) = dom (policy (Notebook.agent SarsaAgent)).
Proof.
  intros run.
  destruct (only_visited_pairs_change counter_sample SarsaAgent Notebook.env
              1%Qc (Q2Qc (4 # 10)) (PyFloat (Q2Qc (5 # 100))) 4 [(1%Z, (1, 5)%Z)] 3
              run.1 run.2) as (_ & _ & HdomQ & Hdompolicy & _ & Hzero).
  - unfold run, Notebook.agent. apply returned_run. vm_compute. reflexivity.
  - split; [vm_compute; reflexivity|].
    split; [apply (bool_decide_unpack _); vm_compute; exact I|].
    split; [|split; [exact HdomQ|exact Hdompolicy]].
    apply Hzero.
    + split; apply (bool_decide_unpack _); vm_compute; exact I.
    + apply (bool_decide_unpack _). vm_compute. exact I.
Defined.

(** * Further properties of the notebook's code *)

(** ** Windy GridWorld: states, moves and rewards *)

Lemma list_getitem_inside {A} (l : list A) (i : Z) :
  (0 ≤ i < Z.of_nat (length l))%Z →
  ∃ x, list_getitem l i = Returns x ∧ l !! Z.to_nat i = Some x.
Proof.
  intros Hi. unfold list_getitem.
  destruct (Z.ltb_spec i 0); [lia|].
  destruct (Z.ltb_spec i 0), (Z.leb_spec (Z.of_nat (length l)) i); try lia.
  simpl. destruct (l !! Z.to_nat i) as [x|] eqn:Hx; [by exists x|].
  apply lookup_ge_None in Hx. lia.
Qed.

Lemma list_getitem_wraps {A} (l : list A) (i : Z) :
  (- Z.of_nat (length l) ≤ i < 0)%Z →
  list_getitem l i = list_getitem l (i + Z.of_nat (length l)).
Proof.
  intros Hi. unfold list_getitem.
  destruct (Z.ltb_spec i 0); [|lia].
  destruct (Z.ltb_spec (i + Z.of_nat (length l)) 0) as [|_]; [lia|].
  cbv zeta. by destruct (Z.ltb_spec (i + Z.of_nat (length l)) 0); [lia|].
Qed.

Lemma list_getitem_outside {A} (l : list A) (i : Z) :
  (Z.of_nat (length l) ≤ i ∨ i < - Z.of_nat (length l))%Z →
  list_getitem l i = Raises IndexError.
Proof.
  intros Hi. unfold list_getitem.
  destruct (Z.ltb_spec i 0).
  - destruct (Z.ltb_spec (i + Z.of_nat (length l)) 0); [done|lia].
  - destruct (Z.ltb_spec i 0); [lia|].
    destruct (Z.leb_spec (Z.of_nat (length l)) i); [done|lia].
Qed.

Lemma ndarray_getitem_inside (a : list (list Z)) (i j : Z) :
  rectangular a →
  (0 ≤ i < (shape a).1)%Z → (0 ≤ j < (shape a).2)%Z →
  ∃ x, ndarray_getitem a i j = Returns x.
Proof.
  intros Hrect Hi Hj. unfold ndarray_getitem.
  destruct (list_getitem_inside a i Hi) as (row & -> & Hrow). simpl.
  assert (Hlen : Z.of_nat (length row) = (shape a).2).
  { unfold rectangular in Hrect. rewrite Forall_forall in Hrect.
    apply Hrect. by eapply list_elem_of_lookup_2. }
  destruct (list_getitem_inside row j) as (x & -> & _); [lia|]. by exists x.
Qed.

Lemma range_NoDup (n : Z) : NoDup (range n).
Proof.
  unfold range. apply NoDup_fmap; [apply Nat2Z.inj'|apply NoDup_seq].
Qed.

Lemma range_length (n : Z) : length (range n) = Z.to_nat n.
Proof. unfold range. by rewrite length_fmap, length_seq. Qed.

Lemma product_NoDup {A B} (xs : list A) (ys : list B) :
  NoDup xs → NoDup ys → NoDup (product xs ys).
Proof.
  intros Hxs Hys. unfold product. apply NoDup_bind; [| |done].
  - intros x1 x2 [x y] _ _ Hin1 Hin2.
    apply list_elem_of_bind in Hin1 as (y1 & Hin1 & _).
    apply list_elem_of_bind in Hin2 as (y2 & Hin2 & _).
    apply list_elem_of_singleton in Hin1, Hin2. congruence.
  - intros x _. apply NoDup_bind; [|intros; apply NoDup_singleton|done].
    intros y1 y2 z _ _ Hin1 Hin2.
    apply list_elem_of_singleton in Hin1, Hin2. congruence.
Qed.

Lemma product_length {A B} (xs : list A) (ys : list B) :
  length (product xs ys) = length xs * length ys.
Proof.
  unfold product. induction xs as [|x xs IH]; [done|].
  cbn [mbind list_bind]. rewrite length_app. cbn [mbind list_bind] in IH.
  rewrite IH. cbn [length Nat.mul]. f_equal.
  clear. induction ys as [|y ys IH]; [done|]. simpl. f_equal. apply IH.
Qed.

(** X1. [get_states] lists every cell of the grid exactly once: it has no
    repetition, its length is rows times columns, and a pair is in it exactly
    when both coordinates are inside the shape of [rewards]. *)
Theorem windy_states_enumeration (rewards : list (list Z)) (wind : list Z) :
  NoDup (WindyGridWorld.get_states (WindyGridWorld.__init__ rewards wind)) ∧
  length (WindyGridWorld.get_states (WindyGridWorld.__init__ rewards wind))
  = length rewards * length (default [] (head rewards)) ∧
  ∀ i j,
    (i, j) ∈ WindyGridWorld.get_states (WindyGridWorld.__init__ rewards wind) ↔
    (0 ≤ i < Z.of_nat (length rewards) ∧
     0 ≤ j < Z.of_nat (length (default [] (head rewards))))%Z.
Proof.
  split_and!.
  - apply product_NoDup; apply range_NoDup.
  - unfold WindyGridWorld.get_states, WindyGridWorld.__init__. simpl.
    rewrite product_length, !range_length. lia.
  - intros i j. apply windy_states_grid.
Qed.

(** X2. The reward that [execute_action] returns is non-negative exactly when
    the successor it returns is terminal: the reward is the successor's entry
    of [rewards] minus one, and a state is terminal when its entry is
    positive. *)
Theorem windy_reward_signals_termination (self : WindyGridWorld.t)
    (state state' : Z * Z) (action : string) (r : Z) :
  WindyGridWorld.execute_action self state action = Returns (state', r) →
  WindyGridWorld.is_terminal_state self state' = Returns (0 <=? r)%Z ∧
  ndarray_getitem (WindyGridWorld.rewards self) state'.1 state'.2
  = Returns (r + 1)%Z.
Proof.
  destruct state as [i j], state' as [i' j'].
  unfold WindyGridWorld.execute_action, WindyGridWorld.is_terminal_state.
  intros Hrun. bind_inv Hrun as w Hw. bind_inv Hrun as rw Hrw.
  injection Hrun as <- <- <-. simpl. rewrite Hrw. simpl.
  split; f_equal; [|lia].
  destruct (Z.ltb_spec 0 rw), (Z.leb_spec 0 (rw - 1)); done || lia.
Qed.

Lemma windy_reward_signals_termination_witness :
  WindyGridWorld.execute_action Notebook.world (2, 3)%Z "RIGHT"
    = Returns ((1, 4)%Z, 0%Z) ∧
  WindyGridWorld.is_terminal_state Notebook.world (1, 4)%Z = Returns true.
Proof.
  split; [reflexivity|].
  apply (windy_reward_signals_termination Notebook.world (2, 3)%Z (1, 4)%Z
           "RIGHT" 0).
  reflexivity.
Defined.

Lemma windy_shape_fields (rewards : list (list Z)) (wind : list Z) :
  WindyGridWorld.max_down (WindyGridWorld.__init__ rewards wind)
  = ((shape rewards).1 - 1)%Z ∧
  WindyGridWorld.max_right (WindyGridWorld.__init__ rewards wind)
  = ((shape rewards).2 - 1)%Z ∧
  WindyGridWorld.rewards (WindyGridWorld.__init__ rewards wind) = rewards ∧
  WindyGridWorld.wind (WindyGridWorld.__init__ rewards wind) = wind.
Proof. done. Qed.

Lemma windy_actions_elem (self : WindyGridWorld.t) (i j : Z) (a : string) :
  a ∈ WindyGridWorld.get_possible_actions self (i, j) ↔
  (a = WindyGridWorld.UP ∧ 0 < i)%Z ∨
  (a = WindyGridWorld.DOWN ∧ i < WindyGridWorld.max_down self)%Z ∨
  (a = WindyGridWorld.LEFT ∧ 0 < j)%Z ∨
  (a = WindyGridWorld.RIGHT ∧ j < WindyGridWorld.max_right self)%Z.
Proof.
  rewrite windy_actions_cases, !elem_of_app.
  destruct (Z.ltb_spec 0 i), (Z.ltb_spec i (WindyGridWorld.max_down self)),
    (Z.ltb_spec 0 j), (Z.ltb_spec j (WindyGridWorld.max_right self));
    rewrite ?list_elem_of_singleton, ?elem_of_nil; naive_solver lia.
Qed.

(** X3. On a rectangular grid whose [wind] list covers every column, a legal
    action from a cell of the grid never raises: the column moves by one for
    LEFT and RIGHT, the row moves by one for UP and DOWN and then up by the
    wind of the new column, clamped to the grid; the successor is a cell of
    the grid and the reward is its entry of [rewards] minus one. *)
Theorem windy_execute_legal_action (rewards : list (list Z)) (wind : list Z)
    (i j : Z) (action : string) :
  rectangular rewards →
  ((shape rewards).2 ≤ Z.of_nat (length wind))%Z →
  (i, j) ∈ WindyGridWorld.get_states (WindyGridWorld.__init__ rewards wind) →
  action ∈ WindyGridWorld.get_possible_actions
             (WindyGridWorld.__init__ rewards wind) (i, j) →
  ∃ w i' j' r,
    j' = (j + (if decide (action = "RIGHT") then 1 else 0)
            - (if decide (action = "LEFT") then 1 else 0))%Z ∧
    wind !! Z.to_nat j' = Some w ∧
    i' = Z.max 0 (Z.min (i + (if decide (action = "DOWN") then 1 else 0)
                           - (if decide (action = "UP") then 1 else 0) - w)
                        ((shape rewards).1 - 1)) ∧
    WindyGridWorld.execute_action (WindyGridWorld.__init__ rewards wind)
      (i, j) action = Returns ((i', j'), r) ∧
    (i', j') ∈ WindyGridWorld.get_states (WindyGridWorld.__init__ rewards wind) ∧
    ndarray_getitem rewards i' j' = Returns (r + 1)%Z.
Proof.
  intros Hrect Hwind Hstate Haction.
  destruct (windy_shape_fields rewards wind) as (Hd & Hr & Hrew & Hw).
  apply windy_states_grid in Hstate as [Hi Hj].
  apply windy_actions_elem in Haction. rewrite Hd, Hr in Haction.
  set (j' := (j + (if decide (action = "RIGHT") then 1 else 0)
                - (if decide (action = "LEFT") then 1 else 0))%Z).
  assert (Hj' : (0 ≤ j' < (shape rewards).2)%Z).
  { unfold j'. destruct Haction as [[-> ?]|[[-> ?]|[[-> ?]|[-> ?]]]];
      repeat case_decide; try done; lia. }
  destruct (list_getitem_inside wind j') as (w & Hgetw & Hlookw); [lia|].
  set (i' := Z.max 0 (Z.min (i + (if decide (action = "DOWN") then 1 else 0)
                               - (if decide (action = "UP") then 1 else 0) - w)
                            ((shape rewards).1 - 1))).
  assert (Hi' : (0 ≤ i' < (shape rewards).1)%Z) by (unfold i'; lia).
  destruct (ndarray_getitem_inside rewards i' j' Hrect Hi' Hj') as [rw Hrw].
  exists w, i', j', (rw - 1)%Z. split_and!; try done.
  - unfold WindyGridWorld.execute_action. rewrite Hw, Hrew, Hd, Hr.
    assert (Hcol : (if decide (action = WindyGridWorld.RIGHT)
                    then ((if decide (action = WindyGridWorld.LEFT)
                           then j - 1 else j) + 1)%Z
                    else if decide (action = WindyGridWorld.LEFT)
                         then (j - 1)%Z else j) = j').
    { unfold j', WindyGridWorld.RIGHT, WindyGridWorld.LEFT.
      repeat case_decide; lia. }
    rewrite Hcol, Hgetw. cbn [mbind Outcome_bind].
    assert (Hrow : Z.max 0 (Z.min
               ((if decide (action = WindyGridWorld.DOWN)
                 then ((if decide (action = WindyGridWorld.UP)
                        then i - 1 else i) + 1)%Z
                 else if decide (action = WindyGridWorld.UP)
                      then (i - 1)%Z else i) - w)
               ((shape rewards).1 - 1)) = i').
    { unfold i', WindyGridWorld.DOWN, WindyGridWorld.UP.
      repeat case_decide; f_equal; f_equal; lia. }
    rewrite Hrow.
    replace (Z.max 0 (Z.min j' ((shape rewards).2 - 1))) with j' by lia.
    rewrite Hrw. cbn [mbind Outcome_bind]. done.
  - by apply windy_states_grid.
  - rewrite Hrw. f_equal. lia.
Qed.

Lemma windy_execute_legal_action_witness :
  ∃ w i' j' r,
    j' = 4%Z ∧ Notebook.wind !! Z.to_nat j' = Some w ∧
    i' = Z.max 0 (Z.min (2 + 0 - 0 - w) ((shape Notebook.R).1 - 1)) ∧
    WindyGridWorld.execute_action Notebook.world (2, 3)%Z "RIGHT"
      = Returns ((i', j'), r) ∧
    (i', j') ∈ WindyGridWorld.get_states Notebook.world ∧
    ndarray_getitem Notebook.R i' j' = Returns (r + 1)%Z.
Proof.
  apply (windy_execute_legal_action Notebook.R Notebook.wind 2 3 "RIGHT").
  - unfold rectangular. apply (bool_decide_unpack _). by vm_compute.
  - vm_compute. discriminate.
  - apply (bool_decide_unpack _). by vm_compute.
  - apply (bool_decide_unpack _). by vm_compute.
Defined.

(** X4. [execute_action] does not check that the action is legal. RIGHT from
    the last column reads [wind] one past the last column and raises
    [IndexError] when [wind] has one entry per column. LEFT from column 0
    reads [wind[-1]], the wind of the last column, and returns: the column
    stays 0 and the row is pushed by that wind. *)
Theorem windy_execute_illegal_action (rewards : list (list Z)) (wind : list Z)
    (i : Z) :
  (0 < (shape rewards).2)%Z →
  Z.of_nat (length wind) = (shape rewards).2 →
  WindyGridWorld.execute_action (WindyGridWorld.__init__ rewards wind)
    (i, (shape rewards).2 - 1)%Z "RIGHT" = Raises IndexError ∧
  ∃ w, last wind = Some w ∧
    WindyGridWorld.execute_action (WindyGridWorld.__init__ rewards wind)
      (i, 0%Z) "LEFT" =
    r ← ndarray_getitem rewards
           (Z.max 0 (Z.min (i - w) ((shape rewards).1 - 1))) 0;
    Returns ((Z.max 0 (Z.min (i - w) ((shape rewards).1 - 1)), 0%Z), (r - 1)%Z).
Proof.
  intros Hcols Hwind.
  destruct (windy_shape_fields rewards wind) as (Hd & Hr & Hrew & Hw).
  split.
  - unfold WindyGridWorld.execute_action, WindyGridWorld.UP, WindyGridWorld.DOWN,
      WindyGridWorld.LEFT, WindyGridWorld.RIGHT.
    rewrite Hw. repeat case_decide; try done.
    rewrite list_getitem_outside; [done|lia].
  - destruct (list_getitem_inside wind (Z.of_nat (length wind) - 1))
      as (w & Hget & Hlook); [lia|].
    exists w. split.
    + rewrite last_lookup. rewrite <- Hlook. f_equal. lia.
    + unfold WindyGridWorld.execute_action, WindyGridWorld.UP,
        WindyGridWorld.DOWN, WindyGridWorld.LEFT, WindyGridWorld.RIGHT.
      rewrite Hw, Hrew, Hd, Hr. repeat case_decide; try done.
      replace (0 - 1)%Z with (-1)%Z by lia.
      rewrite (list_getitem_wraps wind (-1)) by lia.
      replace (-1 + Z.of_nat (length wind))%Z
        with (Z.of_nat (length wind) - 1)%Z by lia.
      rewrite Hget. cbn [mbind Outcome_bind].
      replace (Z.max 0 (Z.min (-1) ((shape rewards).2 - 1))) with 0%Z by lia.
      done.
Qed.

Lemma windy_execute_illegal_action_witness :
  WindyGridWorld.execute_action Notebook.world (1, 5)%Z "RIGHT"
    = Raises IndexError ∧
  WindyGridWorld.execute_action Notebook.world (1, 0)%Z "LEFT"
    = Returns ((1, 0)%Z, (-1)%Z).
Proof.
  destruct (windy_execute_illegal_action Notebook.R Notebook.wind 1)
    as [Hright (w & Hlast & Hleft)].
  - vm_compute. reflexivity.
  - reflexivity.
  - split; [exact Hright|]. unfold Notebook.world. rewrite Hleft.
    injection Hlast as <-. reflexivity.
Defined.

(** X5. [is_terminal_state] indexes [rewards] as numpy does. It returns on
    every cell of a rectangular grid; a negative row index down to minus the
    number of rows is accepted and reads the row counted from the end, so a
    state outside the grid can be reported terminal; any other row index
    raises [IndexError]. *)
Theorem windy_is_terminal_bounds (rewards : list (list Z)) (wind : list Z)
    (i j : Z) :
  rectangular rewards →
  ((0 ≤ i < (shape rewards).1)%Z → (0 ≤ j < (shape rewards).2)%Z →
   ∃ b, WindyGridWorld.is_terminal_state (WindyGridWorld.__init__ rewards wind)
          (i, j) = Returns b) ∧
  ((- (shape rewards).1 ≤ i < 0)%Z →
   WindyGridWorld.is_terminal_state (WindyGridWorld.__init__ rewards wind) (i, j)
   = WindyGridWorld.is_terminal_state (WindyGridWorld.__init__ rewards wind)
       ((i + (shape rewards).1)%Z, j)) ∧
  (((shape rewards).1 ≤ i ∨ i < - (shape rewards).1)%Z →
   WindyGridWorld.is_terminal_state (WindyGridWorld.__init__ rewards wind) (i, j)
   = Raises IndexError).
Proof.
  intros Hrect. unfold WindyGridWorld.is_terminal_state.
  destruct (windy_shape_fields rewards wind) as (_ & _ & -> & _). split_and!.
  - intros Hi Hj.
    destruct (ndarray_getitem_inside rewards i j Hrect Hi Hj) as [r ->].
    by eexists.
  - intros Hi. unfold ndarray_getitem. by rewrite list_getitem_wraps.
  - intros Hi. unfold ndarray_getitem. by rewrite list_getitem_outside.
Qed.

Lemma windy_is_terminal_bounds_witness :
  WindyGridWorld.is_terminal_state Notebook.world (-2, 4)%Z = Returns true ∧
  WindyGridWorld.is_terminal_state Notebook.world (3, 4)%Z = Raises IndexError.
Proof.
  destruct (windy_is_terminal_bounds Notebook.R Notebook.wind (-2) 4)
    as (_ & Hwrap & _).
  { unfold rectangular. apply (bool_decide_unpack _). by vm_compute. }
  destruct (windy_is_terminal_bounds Notebook.R Notebook.wind 3 4)
    as (_ & _ & Hout).
  { unfold rectangular. apply (bool_decide_unpack _). by vm_compute. }
  split.
  - unfold Notebook.world. rewrite Hwrap; [reflexivity|].
    change (-3 ≤ -2 < 0)%Z. lia.
  - apply Hout. left. change (3 ≤ 3)%Z. lia.
Defined.

(** ** The agents: selection, refresh and learning *)

Section FurtherAgentProperties.

Context {State Action RandomState : Type}.
Context `{Countable State, Countable Action, Hashable Action}.
Variable random_sample : RandomState → Qc * RandomState.

Implicit Types (self : @Agent State Action RandomState _ _ _ _).
Implicit Types (s : State) (a : Action) (k : State * Action).

Lemma dict_getitem_None `{Countable K} {V} (d : gmap K V) (k : K) :
  d !! k = None → dict_getitem d k = Raises KeyError.
Proof. unfold dict_getitem. by intros ->. Qed.

Lemma build_QA_outcome self s (actions : list Action)
    (QA : PyDict.t Action Qc) :
  match for_each (λ QA action,
          q ← dict_getitem (Q self) (s, action);
          Returns (PyDict.setitem QA action q)) QA actions with
  | Returns _ => ∀ a, a ∈ actions → is_Some (Q self !! (s, a))
  | Raises e => e = KeyError ∧ ∃ a, a ∈ actions ∧ Q self !! (s, a) = None
  | OutOfFuel => False
  end.
Proof.
  revert QA. induction actions as [|a actions IH]; intros QA; cbn [for_each].
  - by intros a ?%elem_of_nil.
  - destruct (Q self !! (s, a)) as [q|] eqn:Hq.
    + rewrite (dict_getitem_Some _ _ _ Hq). cbn [mbind Outcome_bind].
      specialize (IH (PyDict.setitem QA a q)).
      destruct (for_each _ (PyDict.setitem QA a q) actions) as [QA'|e|].
      * intros a' [->|Ha']%elem_of_cons; [by eexists|by apply IH].
      * destruct IH as (-> & a' & Ha' & Hnone). split; [done|].
        exists a'. split; [by right|done].
      * done.
    + rewrite (dict_getitem_None _ _ Hq). cbn [mbind Outcome_bind].
      split; [done|]. exists a. split; [by left|done].
Qed.

(** X6. The outcome of [_find_best_action] says what it met: it returns the
    first maximum of [Q] over the legal actions, taken in the order in which
    the dictionary [QA] iterates; it raises [ValueError] exactly on a state
    without legal action, and [KeyError] exactly when [Q] lacks the pair of
    some legal action. *)
Theorem find_best_action_outcomes self s :
  match _find_best_action self s with
  | Returns best =>
      first_argmax self s best ∧
      ∀ a, a ∈ ObservableEnvironment.get_possible_actions (env self) s →
           is_Some (Q self !! (s, a))
  | Raises ValueError =>
      ObservableEnvironment.get_possible_actions (env self) s = []
  | Raises KeyError =>
      ∃ a, a ∈ ObservableEnvironment.get_possible_actions (env self) s ∧
           Q self !! (s, a) = None
  | _ => False
  end.
Proof.
  pose proof (build_QA_outcome self s
    (ObservableEnvironment.get_possible_actions (env self) s) PyDict.empty)
    as Hbuild.
  destruct (_find_best_action self s) as [best|e|] eqn:Hrun.
  - split; [by apply find_best_action_spec|by eapply find_best_action_lookups].
  - pose proof Hrun as Hrun'. unfold _find_best_action in Hrun'.
    destruct (for_each _ PyDict.empty _) as [QA|e'|];
      cbn [mbind Outcome_bind] in Hrun'.
    + rewrite find_best_action_max in Hrun by done.
      destruct (ObservableEnvironment.get_possible_actions (env self) s)
        as [|a actions].
      * rewrite iteration_order_nil in Hrun. by injection Hrun as <-.
      * destruct (PyDict.iteration_order (a :: actions))
          as [|a0 order] eqn:Horder; [|done].
        assert (Ha : a ∈ PyDict.iteration_order (a :: actions))
          by (apply elem_of_iteration_order; by left).
        rewrite Horder in Ha. by apply elem_of_nil in Ha.
    + destruct Hbuild as [-> Hmissing]. by injection Hrun' as <-.
    + done.
  - unfold _find_best_action in Hrun.
    destruct (for_each _ PyDict.empty _) as [QA|e'|];
      cbn [mbind Outcome_bind] in Hrun; [|done..].
    by destruct (PyDict.items QA).
Qed.

(** *** Drawing an action *)

(** The entry that [searchsorted] lands on has positive weight. *)
Lemma searchsorted_positive (total u : Qc) (p : list Qc) (acc pi : Qc) :
  (0 < total)%Qc → (acc / total ≤ u)%Qc →
  p !! searchsorted_right ((λ c, c / total)%Qc <$> cumsum_from acc p) u = Some pi →
  (0 < pi)%Qc.
Proof.
  intros Htotal. revert acc.
  induction p as [|x p IH]; intros acc Hacc Hlookup; [done|].
  cbn [cumsum_from fmap list_fmap searchsorted_right] in Hlookup.
  case_decide as Hle.
  - by apply (IH (acc + x)%Qc).
  - injection Hlookup as ->. apply Qcnot_le_lt in Hle.
    apply (Qcdiv_pos_inv _ total Htotal).
    apply (Qcplus_lt_mono_l _ _ (acc / total)%Qc).
    rewrite Qcplus_0_r, <- Qcdiv_plus. by eapply Qcle_lt_trans.
Qed.

(** A sample below the last entry of the distribution lands inside it. *)
Lemma searchsorted_inside (total u : Qc) (p : list Qc) (acc : Qc) :
  p ≠ [] → (u < (acc + sum_list p) / total)%Qc →
  searchsorted_right ((λ c, c / total)%Qc <$> cumsum_from acc p) u < length p.
Proof.
  revert acc. induction p as [|x p IH]; intros acc Hne Hu; [done|].
  cbn [cumsum_from fmap list_fmap searchsorted_right length].
  case_decide as Hle; [|lia].
  assert (Hsum : (acc + sum_list (x :: p) = (acc + x) + sum_list p)%Qc)
    by (unfold sum_list; cbn [foldr]; ring).
  rewrite Hsum in Hu.
  destruct p as [|y p].
  - exfalso. unfold sum_list in Hu. cbn [foldr] in Hu.
    rewrite Qcplus_0_r in Hu. by apply Qclt_not_le in Hu.
  - apply -> Nat.succ_lt_mono. by apply IH.
Qed.

(** X7. The action that [_choose_action] returns is a legal action of the
    state; the generator has moved by exactly one sample; and when that
    sample is not negative the action has a positive probability in the
    policy: an action of probability 0 is never drawn. *)
Theorem choose_action_draws_legal_action self S rng A rng' :
  _choose_action random_sample self S rng = Returns (A, rng') →
  A ∈ ObservableEnvironment.get_possible_actions (env self) S ∧
  rng' = (random_sample rng).2 ∧
  ∃ p, policy self !! (S, A) = Some p ∧
       ((0 ≤ (random_sample rng).1)%Qc → (0 < p)%Qc).
Proof.
  unfold _choose_action. intros Hrun. bind_inv Hrun as ps Hps.
  apply mapM_Returns in Hps. revert Hrun. unfold np_random_choice.
  repeat case_decide; try done.
  destruct (random_sample rng) as [u rng1] eqn:Hsample. simpl.
  destruct (_ !! _) as [x|] eqn:Hx; [|done]. intros [= -> ->].
  split; [by eapply list_elem_of_lookup_2|]. split; [done|].
  destruct (Forall2_lookup_l _ _ _ _ _ Hps Hx) as (p & Hp & Hpolicy).
  apply dict_getitem_Returns in Hpolicy. exists p. split; [done|].
  intros Hu. rewrite cumsum_last in Hp. unfold cumsum in Hp.
  apply (searchsorted_positive (sum_list ps) u ps 0%Qc); [| |done].
  - destruct atol_small as [Hatol _].
    match goal with Htol : ¬ (_ ∨ _) |- _ =>
      assert (Hlow : ¬ (atol < 1 - sum_list ps)%Qc) by tauto end.
    apply Qcnot_lt_le in Hlow.
    apply (Qclt_le_trans _ (1 - atol)%Qc); [done|].
    apply Qcle_minus_iff. apply Qcle_minus_iff in Hlow.
    replace (sum_list ps + - (1 - atol))%Qc
      with (atol + - (1 - sum_list ps))%Qc by ring. done.
  - unfold Qcdiv. by rewrite Qcmult_0_l.
Qed.

(** X8. [_choose_action] returns whenever the state has a legal action, the
    policy over its legal actions is a probability distribution, and the
    sample drawn is below 1. *)
Theorem choose_action_returns self S rng :
  ObservableEnvironment.get_possible_actions (env self) S ≠ [] →
  valid_distribution self S →
  ((random_sample rng).1 < 1)%Qc →
  ∃ A, _choose_action random_sample self S rng
       = Returns (A, (random_sample rng).2).
Proof.
  intros Hne (ps & Hps & Hrange & Hsum) Hu. unfold _choose_action.
  rewrite Hps. cbn [mbind Outcome_bind].
  apply mapM_Returns in Hps. pose proof (Forall2_length _ _ _ Hps) as Hlen.
  unfold np_random_choice.
  rewrite decide_False by by destruct (ObservableEnvironment.get_possible_actions _ _).
  rewrite decide_False by (intros Hneq; apply Hneq; symmetry; exact Hlen).
  rewrite decide_False.
  2: { rewrite Exists_exists. intros (p & Hp & Hneg).
       rewrite Forall_forall in Hrange. destruct (Hrange p Hp) as [Hp0 _].
       by apply Qclt_not_le in Hneg. }
  rewrite decide_False.
  2: { rewrite Hsum. replace (1 - 1)%Qc with 0%Qc by ring.
       destruct atol_small as [_ Hatol]. tauto. }
  rewrite cumsum_last, Hsum.
  destruct (random_sample rng) as [u rng1]. simpl in *.
  assert (Hps_ne : ps ≠ []).
  { intros ->. destruct (ObservableEnvironment.get_possible_actions _ _); done. }
  pose proof (searchsorted_inside 1%Qc u ps 0%Qc Hps_ne) as Hidx.
  rewrite Qcplus_0_l, Hsum in Hidx.
  unfold cumsum. rewrite <- Hlen in Hidx.
  destruct (_ !! _) as [x|] eqn:Hx; [by exists x|].
  apply lookup_ge_None in Hx. exfalso.
  assert (Hone : (u < 1 / 1)%Qc).
  { replace (1 / 1)%Qc with 1%Qc; [done|]. by apply Qc_is_canon. }
  specialize (Hidx Hone). lia.
Qed.

Lemma py2_div_zero (x : Number) (n : nat) :
  float x = 0%Qc → py2_div x n = 0%Qc.
Proof.
  destruct x as [z|q]; cbn [float py2_div].
  - rewrite <- Z2Qc_inj_0. intros ->%Z2Qc_inj. by rewrite Zdiv_0_l.
  - intros ->. unfold Qcdiv. by rewrite Qcmult_0_l.
Qed.

(** X9. With [epsilon = 0] the refreshed policy is greedy: whatever
    non-negative sample is drawn, [_choose_action] returns the action that
    [_find_best_action] returns. *)
Theorem greedy_policy_selects_best_action self S rng A rng' :
  float (epsilon self) = 0%Qc →
  epsilon_greedy_at self S →
  (0 ≤ (random_sample rng).1)%Qc →
  _choose_action random_sample self S rng = Returns (A, rng') →
  _find_best_action self S = Returns A.
Proof.
  intros Heps (best & Hbest & _ & _ & Hother) Hu Hrun.
  apply choose_action_draws_legal_action in Hrun as (HA & _ & p & Hp & Hpos).
  destruct (decide (A = best)) as [->|Hne]; [done|].
  rewrite (Hother A HA Hne) in Hp. injection Hp as <-.
  specialize (Hpos Hu). unfold share in Hpos.
  rewrite py2_div_zero in Hpos by done.
  by apply Qclt_not_eq in Hpos.
Qed.

(** *** Refreshing twice *)

Lemma agent_eq self self' :
  same_attributes self self' → Q self' = Q self → policy self' = policy self →
  self' = self.
Proof.
  destruct self, self'. intros (? & ? & ? & ? & ?) ? ?. simpl in *. by subst.
Qed.

Lemma update_policy_refreshable self self' :
  _update_policy self = Returns self' → refreshable self'.
Proof.
  intros Hrun s Hs.
  pose proof (update_policy_spec _ _ Hrun) as ((_ & Henv & _) & HQ & _).
  rewrite Henv in Hs |- *. rewrite HQ.
  destruct (update_policy_loop_best _ _ _ Hrun s Hs) as [best Hbest].
  split; [|by eapply find_best_action_lookups].
  intros Hnil. by rewrite find_best_action_empty in Hbest.
Qed.

(** X10. [_update_policy] is idempotent: the policy it writes depends on [Q]
    alone, so refreshing a freshly refreshed agent returns the same agent. *)
Theorem update_policy_idempotent self self' :
  _update_policy self = Returns self' →
  _update_policy self' = Returns self'.
Proof.
  intros Hrun.
  destruct (update_policy_returns self') as [self2 Hrun2];
    [by eapply update_policy_refreshable|].
  rewrite Hrun2. f_equal.
  pose proof (update_policy_spec _ _ Hrun) as (Hattr & HQ & Hpol).
  pose proof (update_policy_spec _ _ Hrun2) as (Hattr2 & HQ2 & Hpol2).
  apply agent_eq; [done..|].
  apply map_eq. intros k. rewrite Hpol2, Hpol.
  rewrite (greedy_probability_ext self self') by done.
  destruct Hattr as (_ & Henv & _).
  destruct (decide (enumerated (env self') k)) as [Hk|Hk];
    destruct (decide (enumerated (env self) k)) as [Hk'|Hk']; try done;
    rewrite Henv in Hk; done.
Qed.

(** X11. [_update_policy] cannot refresh an environment that has a state
    without legal action: when [Q] holds every enumerated pair, it raises
    [ValueError]. *)
Theorem update_policy_needs_actions self s :
  (∀ k, enumerated (env self) k → is_Some (Q self !! k)) →
  s ∈ ObservableEnvironment.get_states (env self) →
  ObservableEnvironment.get_possible_actions (env self) s = [] →
  _update_policy self = Raises ValueError.
Proof.
  intros HQ Hs Hnil. unfold _update_policy.
  assert (Hgen : ∀ states acc,
    (∀ s', s' ∈ states → s' ∈ ObservableEnvironment.get_states (env self)) →
    s ∈ states → env acc = env self → Q acc = Q self →
    for_each update_policy_at acc states = Raises ValueError).
  { induction states as [|s' states IH]; intros acc Hsub Hin Henv HQacc.
    - by apply elem_of_nil in Hin.
    - cbn [for_each].
      destruct (decide (ObservableEnvironment.get_possible_actions
                          (env self) s' = [])) as [Hnil'|Hne].
      + unfold update_policy_at. rewrite find_best_action_empty; [done|].
        by rewrite Henv.
      + destruct (update_policy_at_returns acc s') as [acc' Hacc'].
        * by rewrite Henv.
        * intros a Ha. rewrite HQacc. rewrite Henv in Ha.
          apply (HQ (s', a)). split; [|done]. apply Hsub. by left.
        * rewrite Hacc'. cbn [mbind Outcome_bind].
          apply update_policy_at_spec in Hacc' as ((_ & Henv' & _) & HQ' & _).
          apply IH; [|by apply elem_of_cons in Hin as [->|?]|congruence..].
          intros s'' Hs''. apply Hsub. by right. }
  by apply Hgen.
Qed.

(** *** Calls of [learn] *)

Lemma learn_loop_add (fuel n1 n2 : nat) self s rng :
  learn_loop random_sample fuel self (n1 + n2) s rng =
    '(self1, rng1) ← learn_loop random_sample fuel self n1 s rng;
    learn_loop random_sample fuel self1 n2 s rng1.
Proof.
  revert self rng. induction n1 as [|n1 IH]; intros self rng; [done|].
  cbn [Nat.add learn_loop].
  destruct (_choose_action random_sample self s rng) as [[A rng1]| |]; [|done..].
  cbn [mbind Outcome_bind].
  destruct (episode random_sample fuel self s A rng1) as [[self1 rng2]| |];
    [|done..].
  cbn [mbind Outcome_bind]. apply IH.
Qed.

(** X12. Episodes add up: [learn] for [n1 + n2] episodes is [learn] for [n1]
    episodes followed, on the agent and generator it leaves, by [learn] for
    [n2] episodes from the same initial state; and a count that is not
    positive runs no episode and draws nothing. *)
Theorem learn_splits (fuel : nat) self (n1 n2 : Z) s rng :
  (0 ≤ n1)%Z → (0 ≤ n2)%Z →
  learn random_sample fuel self (n1 + n2) s rng =
    ('(self1, rng1) ← learn random_sample fuel self n1 s rng;
     learn random_sample fuel self1 n2 s rng1) ∧
  ∀ n, (n ≤ 0)%Z → learn random_sample fuel self n s rng = Returns (self, rng).
Proof.
  intros Hn1 Hn2. unfold learn. split.
  - rewrite Z2Nat.inj_add by done. apply learn_loop_add.
  - intros n Hn. by replace (Z.to_nat n) with 0 by lia.
Qed.

(** X13. [learn] draws the first action before anything else, so an initial
    state that has legal actions but no policy entry, as any state outside
    [get_states] has in a freshly built agent, makes it raise [KeyError]
    whatever the loop budget; an initial state without legal action makes it
    raise [ValueError]. *)
Theorem learn_unknown_initial_state (fuel : nat) self (num_samples : Z) s rng :
  (1 ≤ num_samples)%Z →
  (tables_enumerated self →
   s ∉ ObservableEnvironment.get_states (env self) →
   ObservableEnvironment.get_possible_actions (env self) s ≠ [] →
   learn random_sample fuel self num_samples s rng = Raises KeyError) ∧
  (ObservableEnvironment.get_possible_actions (env self) s = [] →
   learn random_sample fuel self num_samples s rng = Raises ValueError).
Proof.
  intros Hnum. unfold learn.
  destruct (Z.to_nat num_samples) as [|n] eqn:Hn; [lia|].
  cbn [learn_loop]. unfold _choose_action. split.
  - intros Htables Hs Hne.
    destruct (ObservableEnvironment.get_possible_actions (env self) s)
      as [|a actions] eqn:Hactions; [done|].
    cbn [mapM]. rewrite dict_getitem_None; [done|].
    destruct (Htables (s, a)) as [_ Hpol].
    destruct (policy self !! (s, a)) eqn:Hlookup; [|done].
    exfalso. apply Hs. by apply Hpol.
  - by intros ->.
Qed.

Lemma episode_env (fuel : nat) self S A rng self' rng' :
  episode random_sample fuel self S A rng = Returns (self', rng') →
  env self' = env self.
Proof.
  apply (episode_invariant random_sample (λ acc, env acc = env self)); [|done].
  intros acc S0 A0 rng0 acc1 S1 A1 rng1 acc2 Henv Hstep Hrefresh.
  apply inner_learn_frame in Hstep as ((_ & Henv1 & _) & _).
  apply update_policy_spec in Hrefresh as ((_ & Henv2 & _) & _). congruence.
Qed.

Lemma learn_loop_env (fuel n : nat) self s rng self' rng' :
  learn_loop random_sample fuel self n s rng = Returns (self', rng') →
  env self' = env self.
Proof.
  apply (learn_loop_invariant random_sample (λ acc, env acc = env self)); [|done].
  intros acc S0 A0 rng0 acc1 S1 A1 rng1 acc2 Henv Hstep Hrefresh.
  apply inner_learn_frame in Hstep as ((_ & Henv1 & _) & _).
  apply update_policy_spec in Hrefresh as ((_ & Henv2 & _) & _). congruence.
Qed.

Lemma episode_updates_nonterminal (fuel : nat) self S A rng k :
  k ∈ episode_updates random_sample fuel self S A rng →
  ObservableEnvironment.is_terminal_state (env self) k.1 = Returns false.
Proof.
  revert self S A rng. induction fuel as [|fuel IH]; intros self S A rng;
    cbn [episode_updates]; [by intros ?%elem_of_nil|].
  destruct (ObservableEnvironment.is_terminal_state (env self) S)
    as [[|]| |] eqn:Hterm; try by intros ?%elem_of_nil.
  destruct (_inner_learn random_sample self S A rng)
    as [[[self1 [S1 A1]] rng1]| |] eqn:Hstep; try by intros ?%elem_of_nil.
  intros [->|Hk]%elem_of_cons.
  - unfold updated_key. by destruct (cls self).
  - destruct (_update_policy self1) as [self2| |] eqn:Hrefresh;
      try by apply elem_of_nil in Hk.
    apply IH in Hk.
    apply inner_learn_frame in Hstep as ((_ & Henv1 & _) & _).
    apply update_policy_spec in Hrefresh as ((_ & Henv2 & _) & _).
    by rewrite Henv2, Henv1 in Hk.
Qed.

Lemma learn_loop_updates_nonterminal (fuel n : nat) self s rng k :
  k ∈ learn_loop_updates random_sample fuel self n s rng →
  ObservableEnvironment.is_terminal_state (env self) k.1 = Returns false.
Proof.
  revert self rng. induction n as [|n IH]; intros self rng;
    cbn [learn_loop_updates]; [by intros ?%elem_of_nil|].
  destruct (_choose_action random_sample self s rng) as [[A rng1]| |];
    try by intros ?%elem_of_nil.
  intros [Hk|Hk]%elem_of_app; [by eapply episode_updates_nonterminal|].
  destruct (episode random_sample fuel self s A rng1)
    as [[self1 rng2]| |] eqn:Hepisode; try by apply elem_of_nil in Hk.
  apply IH in Hk. by rewrite (episode_env _ _ _ _ _ _ _ Hepisode) in Hk.
Qed.

Lemma learn_calls_updates_nonterminal (fuel : nat) (calls : list (Z * State))
    self rng k :
  k ∈ learn_calls_updates random_sample fuel self calls rng →
  ObservableEnvironment.is_terminal_state (env self) k.1 = Returns false.
Proof.
  revert self rng. induction calls as [|[n s0] calls IH]; intros self rng;
    cbn [learn_calls_updates]; [by intros ?%elem_of_nil|].
  intros [Hk|Hk]%elem_of_app; [by eapply learn_loop_updates_nonterminal|].
  destruct (learn random_sample fuel self n s0 rng)
    as [[self1 rng1]| |] eqn:Hlearn; try by apply elem_of_nil in Hk.
  apply IH in Hk. by rewrite (learn_loop_env _ _ _ _ _ _ _ Hlearn) in Hk.
Qed.

(** X14. No step writes the value of an action at a terminal state: after any
    sequence of [learn] calls that returns, [Q] is what it was at every pair
    whose state the environment reports as terminal, so in an agent built by
    [__init__] these values stay 0. *)
Theorem terminal_values_never_change (fuel : nat) (calls : list (Z * State))
    self rng self' rng' k :
  learn_calls random_sample fuel self calls rng = Returns (self', rng') →
  ObservableEnvironment.is_terminal_state (env self) k.1 = Returns true →
  Q self' !! k = Q self !! k.
Proof.
  intros Hrun Hterm. eapply learn_calls_frame; [done|].
  intros Hk%learn_calls_updates_nonterminal. congruence.
Qed.

End FurtherAgentProperties.

(** ** Sampling an episode *)

Section SamplingProperties.

Context {State Action RandomState : Type}.
Context `{Countable State, Countable Action}.
Variable random_sample : RandomState → Qc * RandomState.

Lemma np_random_choice_elem (a : list Action) (p : list Qc)
    (rng rng' : RandomState) (x : Action) :
  np_random_choice random_sample a p rng = Returns (x, rng') → x ∈ a.
Proof.
  unfold np_random_choice. repeat case_decide; try done.
  destruct (random_sample rng) as [u rng1].
  destruct (_ !! _) as [y|] eqn:Hy; [|done]. intros [= -> _].
  by eapply list_elem_of_lookup_2.
Qed.

Lemma sample_loop_trajectory (fuel : nat)
    (self : ObservableEnvironment.t State Action RandomState)
    (policy : gmap (State * Action) Qc) (state : State)
    (result transitions : list (State * Action * Qc)) (rng rng' : RandomState) :
  sample_loop random_sample fuel self policy state result rng
    = Returns (transitions, rng') →
  ∃ rest, transitions = result ++ rest ∧ trajectory_from self state rest ∧
          length rest < fuel.
Proof.
  revert state result rng.
  induction fuel as [|fuel IH]; intros state result rng Hrun; [done|].
  cbn [sample_loop] in Hrun. bind_inv Hrun as [|] Hterm.
  - injection Hrun as <- <-. exists []. rewrite app_nil_r. simpl.
    split; [done|]. split; [done|lia].
  - bind_inv Hrun as ps Hps. bind_inv Hrun as [action rng1] Hchoice.
    bind_inv Hrun as [[new_state reward] rng2] Hexec.
    apply IH in Hrun as (rest & -> & Hrest & Hlen).
    exists ((state, action, reward) :: rest). rewrite <- app_assoc.
    split; [done|]. split; [|simpl; lia].
    simpl. split_and!; try done.
    + by eapply np_random_choice_elem.
    + by exists rng1, new_state, rng2.
Qed.

(** X15. When [sample] returns, the list it returns is an episode: it starts
    at the state given, every transition leaves a non-terminal state through
    one of its legal actions with the reward and successor that
    [execute_action] returned, each transition starts where the previous one
    arrived, and the last one arrives at a terminal state. Started at a
    terminal state, [sample] returns the empty list and draws nothing. *)
Theorem sample_returns_episode (fuel : nat)
    (self : ObservableEnvironment.t State Action RandomState)
    (policy : gmap (State * Action) Qc) (state : State)
    (transitions : list (State * Action * Qc)) (rng rng' : RandomState) :
  sample random_sample fuel self policy state rng = Returns (transitions, rng') →
  trajectory_from self state transitions ∧
  length transitions < fuel ∧
  (ObservableEnvironment.is_terminal_state self state = Returns true →
   transitions = [] ∧ rng' = rng).
Proof.
  intros Hrun. pose proof Hrun as Hrun'.
  apply sample_loop_trajectory in Hrun as (rest & -> & Htraj & Hlen).
  split; [done|]. split; [done|].
  intros Hterm. destruct fuel as [|fuel]; [done|].
  unfold sample in Hrun'. cbn [sample_loop] in Hrun'. rewrite Hterm in Hrun'.
  by injection Hrun' as <- <-.
Qed.

End SamplingProperties.

(** ** Values under non-positive rewards *)

Lemma Qcopp_nonpos (x : Qc) : (x ≤ 0 → 0 ≤ - x)%Qc.
Proof. intros Hx. apply Qcopp_le_compat in Hx. exact Hx. Qed.

Lemma Qcopp_nonneg (x : Qc) : (0 ≤ x → - x ≤ 0)%Qc.
Proof. intros Hx. apply Qcopp_le_compat in Hx. exact Hx. Qed.

Lemma Qcmult_nonneg_nonpos (x y : Qc) : (0 ≤ x → y ≤ 0 → x * y ≤ 0)%Qc.
Proof.
  intros Hx Hy.
  replace (x * y)%Qc with (- (x * - y))%Qc by ring.
  apply Qcopp_nonneg, Qcmult_nonneg_nonneg; [done|]. by apply Qcopp_nonpos.
Qed.

Lemma Qcplus_nonpos (x y : Qc) : (x ≤ 0 → y ≤ 0 → x + y ≤ 0)%Qc.
Proof.
  intros Hx Hy. replace 0%Qc with (0 + 0)%Qc by ring.
  by apply Qcplus_le_compat.
Qed.

(** The blend [q + alpha * (target - q)] of two non-positive numbers. *)
Lemma blend_nonpositive (α q target : Qc) :
  (0 ≤ α ≤ 1 → q ≤ 0 → target ≤ 0 → q + α * (target - q) ≤ 0)%Qc.
Proof.
  intros [Hα0 Hα1] Hq Ht.
  replace (q + α * (target - q))%Qc with ((1 - α) * q + α * target)%Qc by ring.
  apply Qcplus_nonpos; apply Qcmult_nonneg_nonpos; try done.
  replace 0%Qc with (α - α)%Qc by ring.
  unfold Qcminus. by apply Qcplus_le_compat; [|apply Qcle_refl].
Qed.

Lemma target_nonpositive (γ R q : Qc) :
  (0 ≤ γ → R ≤ 0 → q ≤ 0 → R + γ * q ≤ 0)%Qc.
Proof.
  intros Hγ HR Hq. apply Qcplus_nonpos; [done|]. by apply Qcmult_nonneg_nonpos.
Qed.

Lemma expectation_nonpositive (ps qs : list Qc) :
  Forall (λ p, 0 ≤ p)%Qc ps → Forall (λ q, q ≤ 0)%Qc qs →
  (sum_list (zip_with Qcmult ps qs) ≤ 0)%Qc.
Proof.
  intros Hps. revert qs.
  induction Hps as [|p ps Hp _ IH]; intros qs Hqs; [apply Qcle_refl|].
  destruct Hqs as [|q qs Hq Hqs]; [apply Qcle_refl|].
  unfold sum_list. cbn [zip_with foldr]. apply Qcplus_nonpos.
  - by apply Qcmult_nonneg_nonpos.
  - by apply IH.
Qed.

Lemma list_getitem_elem {A} (l : list A) (i : Z) (x : A) :
  list_getitem l i = Returns x → x ∈ l.
Proof.
  unfold list_getitem. cbv zeta. destruct (_ || _); [done|].
  destruct (l !! _) as [y|] eqn:Hy; [|done]. intros [= <-].
  by eapply list_elem_of_lookup_2.
Qed.

Lemma windy_rewards_nonpositive {RandomState : Type} (self : WindyGridWorld.t) :
  Forall (Forall (λ r, r ≤ 1)%Z) (WindyGridWorld.rewards self) →
  rewards_nonpositive
    (WindyGridWorld.as_environment (RandomState := RandomState) self).
Proof.
  intros Hall [i j] A rng S' R rng' Hrun. simpl in Hrun.
  bind_inv Hrun as [s' r] Hexec. injection Hrun as <- <- <-.
  unfold WindyGridWorld.execute_action in Hexec.
  bind_inv Hexec as w Hw. bind_inv Hexec as r0 Hr0. injection Hexec as <- <-.
  unfold ndarray_getitem in Hr0. bind_inv Hr0 as row Hrow.
  apply list_getitem_elem in Hrow, Hr0.
  rewrite Forall_forall in Hall. specialize (Hall _ Hrow).
  rewrite Forall_forall in Hall. specialize (Hall _ Hr0).
  unfold Qc_of_Z. rewrite <- Z2Qc_inj_0. apply -> Z2Qc_inj_le. lia.
Qed.

Section ValueProperties.

Context {State Action RandomState : Type}.
Context `{Countable State, Countable Action, Hashable Action}.
Variable random_sample : RandomState → Qc * RandomState.

Implicit Types (self : @Agent State Action RandomState _ _ _ _).
Implicit Types (s : State) (a : Action) (k : State * Action).

Lemma init_values_nonpositive (c : AgentClass)
    (e : ObservableEnvironment.t State Action RandomState) (γ α : Qc) (ε : Number) :
  values_nonpositive (__init__ c e γ α ε).
Proof.
  destruct (init_spec c e γ α ε) as (_ & HQ & _). intros k q. rewrite HQ.
  case_decide; [|done]. intros [= <-]. apply Qcle_refl.
Qed.

Lemma init_policy_nonnegative (c : AgentClass)
    (e : ObservableEnvironment.t State Action RandomState) (γ α : Qc) (ε : Number) :
  policy_nonnegative (__init__ c e γ α ε).
Proof.
  destruct (init_spec c e γ α ε) as (_ & _ & Hpol). intros k p. rewrite Hpol.
  case_decide as Hk; [|done]. intros [= <-].
  apply Qc_share_bounds; [|done].
  destruct Hk as [_ Hk]. intros Hlen. apply length_zero_iff_nil in Hlen.
  rewrite Hlen in Hk. by apply elem_of_nil in Hk.
Qed.

Lemma lookups_nonpositive self s (actions : list Action) (qs : list Qc) :
  values_nonpositive self →
  Forall2 (λ a q, Q self !! (s, a) = Some q) actions qs →
  Forall (λ q, q ≤ 0)%Qc qs.
Proof. intros HQ. induction 1; constructor; eauto. Qed.

Lemma lookups_nonnegative self s (actions : list Action) (ps : list Qc) :
  policy_nonnegative self →
  Forall2 (λ a p, policy self !! (s, a) = Some p) actions ps →
  Forall (λ p, 0 ≤ p)%Qc ps.
Proof. intros Hpol. induction 1; constructor; eauto. Qed.

Lemma insert_nonpositive (m : gmap (State * Action) Qc) k (v : Qc) :
  (v ≤ 0)%Qc → (∀ k' q, m !! k' = Some q → (q ≤ 0)%Qc) →
  ∀ k' q, <[k := v]> m !! k' = Some q → (q ≤ 0)%Qc.
Proof.
  intros Hv Hm k' q. destruct (decide (k = k')) as [->|Hne].
  - rewrite lookup_insert_eq. by intros [= <-].
  - rewrite lookup_insert_ne by done. apply Hm.
Qed.

(** One call of [_inner_learn] keeps the values non-positive. *)
Lemma inner_learn_nonpositive self S A rng self' S' A' rng' :
  rewards_nonpositive (env self) →
  (0 ≤ alpha self ≤ 1)%Qc → (0 ≤ discount_factor self)%Qc →
  values_nonpositive self → policy_nonnegative self →
  _inner_learn random_sample self S A rng = Returns (self', (S', A'), rng') →
  values_nonpositive self'.
Proof.
  intros HR Hα Hγ HQ Hpol. unfold _inner_learn. destruct (cls self).
  - intros (R & rng1 & q & q_next & Hexec & _ & Hq & Hnext & ->)
      %sarsa_inner_learn_inv.
    unfold values_nonpositive. cbn [Q set_Q].
    apply insert_nonpositive; [|exact HQ].
    apply blend_nonpositive; eauto. apply target_nonpositive; eauto.
  - intros (R & rng1 & A_best & q & q_best & _ & Hexec & _ & Hq & Hbest & ->)
      %qlearning_inner_learn_inv.
    unfold values_nonpositive. cbn [Q set_Q].
    apply insert_nonpositive; [|exact HQ].
    apply blend_nonpositive; eauto. apply target_nonpositive; eauto.
  - intros (R & rng1 & ps & qs & q & Hexec & _ & Hps & Hqs & Hq & ->)
      %expected_inner_learn_inv.
    unfold values_nonpositive. cbn [Q set_Q].
    apply insert_nonpositive; [|exact HQ].
    apply blend_nonpositive; eauto. apply target_nonpositive; eauto.
    apply expectation_nonpositive.
    + by eapply lookups_nonnegative.
    + by eapply lookups_nonpositive.
Qed.

Lemma py2_div_nonneg (x : Number) (n : nat) :
  n ≠ 0 → (0 ≤ float x)%Qc → (0 ≤ py2_div x n)%Qc.
Proof.
  intros Hn. destruct x as [z|q]; cbn [float py2_div].
  - rewrite <- Z2Qc_inj_0. intros Hz%Z2Qc_inj_le.
    apply -> Z2Qc_inj_le. by apply Z.div_pos; [|lia].
  - intros Hq. by apply Qc_share_bounds.
Qed.

(** The refresh keeps the probabilities non-negative. *)
Lemma update_policy_nonnegative self self' :
  (0 ≤ float (epsilon self) ≤ 1)%Qc → policy_nonnegative self →
  _update_policy self = Returns self' → policy_nonnegative self'.
Proof.
  intros [Hε0 Hε1] Hpol Hrun.
  apply update_policy_spec in Hrun as (_ & _ & Hnew).
  intros k p. rewrite Hnew. case_decide as Hk; [|apply Hpol].
  unfold greedy_probability.
  destruct (_find_best_action self k.1) as [best| |]; [|done..].
  assert (Hshare : (0 ≤ share self k.1)%Qc).
  { apply py2_div_nonneg; [|done].
    destruct Hk as [_ Hk]. intros Hlen. apply length_zero_iff_nil in Hlen.
    rewrite Hlen in Hk. by apply elem_of_nil in Hk. }
  intros [= <-]. case_decide; [|done].
  replace 0%Qc with (0 + 0)%Qc by ring. apply Qcplus_le_compat; [done|].
  replace 0%Qc with (float (epsilon self) - float (epsilon self))%Qc by ring.
  unfold Qcminus. by apply Qcplus_le_compat; [|apply Qcle_refl].
Qed.

(** X16. In an environment that never rewards a transition with more than
    zero, as Windy GridWorld does when no entry of [rewards] exceeds 1, an
    agent with [0 ≤ alpha ≤ 1], [0 ≤ discount_factor] and [0 ≤ epsilon ≤ 1]
    whose values are non-positive and whose policy entries are non-negative
    keeps its values non-positive through any sequence of calls of
    [learn], whichever of the three update rules it uses. *)
Theorem values_stay_nonpositive (fuel : nat) (calls : list (Z * State))
    self rng self' rng' :
  rewards_nonpositive (env self) →
  (0 ≤ alpha self ≤ 1)%Qc → (0 ≤ discount_factor self)%Qc →
  (0 ≤ float (epsilon self) ≤ 1)%Qc →
  values_nonpositive self → policy_nonnegative self →
  learn_calls random_sample fuel self calls rng = Returns (self', rng') →
  values_nonpositive self'.
Proof.
  intros HR Hα Hγ Hε HQ Hpol Hrun.
  apply (learn_calls_invariant random_sample
           (λ self1, same_attributes self self1 ∧ values_nonpositive self1 ∧
                     policy_nonnegative self1))
    in Hrun as (_ & HQ' & _); [done| |].
  - intros self1 S A rng1 self2 S2 A2 rng2 self3 (Hattr & HQ1 & Hpol1)
      Hstep Hrefresh.
    pose proof Hattr as (_ & Henv & Hγ1 & Hα1 & Hε1).
    pose proof (inner_learn_frame random_sample _ _ _ _ _ _ _ _ Hstep)
      as (Hattr2 & Hpol2 & _).
    pose proof Hattr2 as (_ & _ & _ & _ & Hε2).
    pose proof (update_policy_spec _ _ Hrefresh) as (Hattr3 & HQ3 & _).
    split; [by repeat (eapply same_attributes_trans; [|done])|]. split.
    + unfold values_nonpositive. rewrite HQ3.
      eapply inner_learn_nonpositive; [..|exact Hstep]; try done.
      * by rewrite Henv.
      * by rewrite Hα1.
      * by rewrite Hγ1.
    + eapply update_policy_nonnegative; [| |exact Hrefresh].
      * by rewrite Hε2, Hε1.
      * unfold policy_nonnegative. by rewrite Hpol2.
  - split; [apply same_attributes_refl|done].
Qed.

End ValueProperties.

(** ** The expectation that Expected SARSA forms *)

Section ExpectationProperties.

Context {State Action RandomState : Type}.
Context `{Countable State, Countable Action, Hashable Action}.
Variable random_sample : RandomState → Qc * RandomState.

Implicit Types (self : @Agent State Action RandomState _ _ _ _).
Implicit Types (s : State) (a : Action) (k : State * Action).






End ExpectationProperties.

(** ** Drawing the greedy actions *)

Lemma string_app_nil_r (s : string) : s +:+ "" = s.
Proof.
  induction s as [|c s IH]; [done|].
  change (String c (s +:+ "") = String c s). by rewrite IH.
Qed.

Lemma string_app_assoc (s1 s2 s3 : string) :
  (s1 +:+ s2) +:+ s3 = s1 +:+ (s2 +:+ s3).
Proof.
  induction s1 as [|c s1 IH]; [done|].
  change (String c ((s1 +:+ s2) +:+ s3) = String c (s1 +:+ (s2 +:+ s3))).
  by rewrite IH.
Qed.

Lemma range_snoc (n : Z) : (0 ≤ n)%Z → range (n + 1) = range n ++ [n].
Proof.
  intros Hn. unfold range.
  replace (Z.to_nat (n + 1)) with (Datatypes.S (Z.to_nat n)) by lia.
  rewrite seq_S, fmap_app. simpl. by rewrite Z2Nat.id.
Qed.

Section DrawingProperties.

Context {RandomState : Type}.

Implicit Types (agent : @Agent (Z * Z) string RandomState _ _ _ _).

(** The arrow of a cell is that of the action [_find_best_action] selects. *)
Lemma draw_cell_best agent (i j : Z) (result : string) :
  draw_cell agent i result j =
    best ← _find_best_action agent (i, j);
    arrow ← dict_getitem lookup best;
    Returns (result +:+ arrow).
Proof.
  unfold draw_cell, _find_best_action.
  destruct (for_each _ PyDict.empty _) as [QA| |]; [|done..].
  cbn [mbind Outcome_bind]. by destruct (max_by_value (PyDict.items QA)).
Qed.

Lemma draw_row_returns agent (i : Z) (best arrow : Z → string) (js : list Z)
    (result : string) :
  (∀ j, j ∈ js →
        _find_best_action agent (i, j) = Returns (best j) ∧
        lookup !! best j = Some (arrow j)) →
  for_each (draw_cell agent i) result js
  = Returns (result +:+ foldr String.append "" (arrow <$> js)).
Proof.
  revert result. induction js as [|j js IH]; intros result Hcells.
  - cbn [for_each fmap list_fmap foldr]. by rewrite string_app_nil_r.
  - cbn [for_each]. destruct (Hcells j) as [Hbest Harrow]; [by left|].
    rewrite draw_cell_best, Hbest. cbn [mbind Outcome_bind].
    rewrite (dict_getitem_Some _ _ _ Harrow). cbn [mbind Outcome_bind].
    rewrite IH by (intros j' Hj'; apply Hcells; by right).
    by rewrite fmap_cons, string_app_assoc.
Qed.

Lemma draw_rows_returns agent (best arrow : Z → Z → string) (rows : list Z)
    (m : Z) (printed : list string) :
  (∀ i j, i ∈ rows → (0 ≤ j < m)%Z →
          _find_best_action agent (i, j) = Returns (best i j) ∧
          lookup !! best i j = Some (arrow i j)) →
  draw_rows agent rows m printed
  = (printed ++
       ((λ i, foldr String.append "" (arrow i <$> range m)) <$> rows),
     Returns ()).
Proof.
  revert printed. induction rows as [|i rows IH]; intros printed Hcells.
  - cbn [draw_rows fmap list_fmap]. by rewrite app_nil_r.
  - cbn [draw_rows].
    rewrite (draw_row_returns agent i (best i) (arrow i)).
    + rewrite IH by (intros i' j Hi'; apply Hcells; by right).
      by rewrite fmap_cons, <- app_assoc.
    + intros j Hj%elem_of_range. apply Hcells; [by left|done].
Qed.

Lemma draw_rows_app agent (rows1 rows2 : list Z) (m : Z)
    (printed : list string) :
  draw_rows agent (rows1 ++ rows2) m printed =
    match draw_rows agent rows1 m printed with
    | (printed', Returns _) => draw_rows agent rows2 m printed'
    | r => r
    end.
Proof.
  revert printed. induction rows1 as [|i rows1 IH]; intros printed; [done|].
  cbn [app draw_rows].
  destruct (for_each (draw_cell agent i) "" (range m)); [apply IH|done..].
Qed.

Lemma find_best_action_missing agent (s : Z * Z) (a : string) :
  a ∈ ObservableEnvironment.get_possible_actions (env agent) s →
  (∀ a', a' ∈ ObservableEnvironment.get_possible_actions (env agent) s →
         Q agent !! (s, a') = None) →
  _find_best_action agent s = Raises KeyError.
Proof.
  intros Ha Hnone. unfold _find_best_action.
  destruct (ObservableEnvironment.get_possible_actions (env agent) s)
    as [|a0 actions] eqn:Hactions; [by apply elem_of_nil in Ha|].
  assert (Hq0 : Q agent !! (s, a0) = None) by (apply Hnone; by left).
  cbn [for_each]. by rewrite (dict_getitem_None _ _ Hq0).
Qed.

(** X18. [draw_policy] draws the greedy actions: on a grid of [n] rows and
    [m] columns in which [_find_best_action] returns at every cell an action
    that [lookup] knows, it prints [n] lines and returns; line [i] is the
    concatenation, over [j] in [range(m)], of the arrow of the action that
    [_find_best_action] selects at [(i, j)]. *)
Theorem draw_policy_prints_greedy_actions agent (n m : Z)
    (best arrow : Z → Z → string) :
  (0 ≤ n)%Z → (0 ≤ m)%Z →
  (∀ i j, (0 ≤ i < n)%Z → (0 ≤ j < m)%Z →
          _find_best_action agent (i, j) = Returns (best i j) ∧
          lookup !! best i j = Some (arrow i j)) →
  draw_policy agent n m
  = ((λ i, foldr String.append "" (arrow i <$> range m)) <$> range n,
     Returns ()).
Proof.
  intros Hn Hm Hcells. unfold draw_policy.
  rewrite decide_False by lia.
  rewrite (draw_rows_returns agent best arrow); [done|].
  intros i j Hi%elem_of_range Hj. by apply Hcells.
Qed.

(** X19. Asked for one row or one column more than the grid has,
    [draw_policy] fails with [KeyError] on the first cell outside the grid:
    for an agent on a Windy GridWorld whose [Q] holds enumerated pairs only,
    if drawing the [n] by [m] grid returns, then drawing [n + 1] rows prints
    the same lines and raises, and drawing [m + 1] columns raises before
    anything is printed. *)
Theorem draw_policy_beyond_grid agent (rewards : list (list Z))
    (wind : list Z) (lines : list string) :
  let n := (shape rewards).1 in
  let m := (shape rewards).2 in
  env agent = WindyGridWorld.as_environment (WindyGridWorld.__init__ rewards wind) →
  (∀ k, is_Some (Q agent !! k) → enumerated (env agent) k) →
  (1 ≤ n)%Z → (1 ≤ m)%Z →
  draw_policy agent n m = (lines, Returns ()) →
  draw_policy agent (n + 1) m = (lines, Raises KeyError) ∧
  draw_policy agent n (m + 1) = ([], Raises KeyError).
Proof.
  intros n m Henv HQ Hn Hm Hrun.
  assert (Houtside : ∀ i j a,
            ¬ (0 ≤ i < n ∧ 0 ≤ j < m)%Z → Q agent !! ((i, j), a) = None).
  { intros i j a Hout. apply eq_None_not_Some. intros Hsome.
    apply HQ in Hsome as [Hstate _]. rewrite Henv in Hstate. simpl in Hstate.
    by apply windy_states_grid in Hstate. }
  unfold draw_policy in *. rewrite decide_False in Hrun by lia.
  rewrite !decide_False by lia. split.
  - rewrite range_snoc, draw_rows_app, Hrun by lia. cbn [draw_rows].
    destruct (range m) as [|j0 js] eqn:Hrange.
    { apply (f_equal length) in Hrange. rewrite range_length in Hrange.
      simpl in Hrange. lia. }
    assert (Hj0 : j0 = 0%Z).
    { unfold range in Hrange.
      destruct (Z.to_nat m) as [|m'] eqn:Hm'; [lia|].
      simpl in Hrange. by injection Hrange as <- _. }
    cbn [for_each]. rewrite draw_cell_best.
    rewrite (find_best_action_missing agent (n, j0) WindyGridWorld.UP); [done| |].
    + rewrite Henv.
      apply (proj2 (windy_actions_elem (WindyGridWorld.__init__ rewards wind)
                      n j0 WindyGridWorld.UP)).
      left. split; [done|lia].
    + intros a _. apply Houtside. lia.
  - destruct (range n) as [|i0 rows] eqn:Hrange.
    { apply (f_equal length) in Hrange. rewrite range_length in Hrange.
      simpl in Hrange. lia. }
    cbn [draw_rows] in *. rewrite range_snoc, for_each_snoc by lia.
    destruct (for_each (draw_cell agent i0) "" (range m)) as [result|e|];
      [|exfalso..].
    + cbn [mbind Outcome_bind]. rewrite draw_cell_best.
      rewrite (find_best_action_missing agent (i0, m) WindyGridWorld.LEFT);
        [done| |].
      * rewrite Henv.
        apply (proj2 (windy_actions_elem (WindyGridWorld.__init__ rewards wind)
                        i0 m WindyGridWorld.LEFT)).
        right. right. left. split; [done|lia].
      * intros a _. apply Houtside. lia.
    + by injection Hrun.
    + by injection Hrun.
Qed.

End DrawingProperties.

(** ** The further properties on concrete inputs *)

Lemma choose_action_draws_legal_action_witness :
  "RIGHT" ∈ ObservableEnvironment.get_possible_actions
              (env (Notebook.agent SarsaAgent)) (2, 3)%Z ∧
  5 = (counter_sample 4).2 ∧
  ∃ p, policy (Notebook.agent SarsaAgent) !! ((2, 3)%Z, "RIGHT") = Some p ∧
       ((0 ≤ (counter_sample 4).1)%Qc → (0 < p)%Qc).
Proof.
  apply (choose_action_draws_legal_action counter_sample
           (Notebook.agent SarsaAgent) (2, 3)%Z 4 "RIGHT" 5).
  vm_compute. reflexivity.
Defined.

Lemma choose_action_returns_witness :
  ∃ A, _choose_action counter_sample (Notebook.agent SarsaAgent) (2, 3)%Z 4
       = Returns (A, (counter_sample 4).2).
Proof.
  apply (choose_action_returns counter_sample (Notebook.agent SarsaAgent)
           (2, 3)%Z 4).
  - vm_compute. discriminate.
  - apply init_valid_distribution.
    + apply (bool_decide_unpack _). by vm_compute.
    + vm_compute. discriminate.
  - apply (bool_decide_unpack _). by vm_compute.
Defined.

Lemma greedy_policy_selects_best_action_witness :
  let self0 :=
    __init__ QLearningAgent Notebook.env 1%Qc (Q2Qc (4 # 10)) (PyFloat 0%Qc) in
  let self := returned self0 (_update_policy self0) in
  _choose_action counter_sample self (2, 3)%Z 4 = Returns ("RIGHT", 5) ∧
  _find_best_action self (2, 3)%Z = Returns "RIGHT".
Proof.
  intros self0 self.
  assert (Hrun : _choose_action counter_sample self (2, 3)%Z 4
                 = Returns ("RIGHT", 5)) by (vm_compute; reflexivity).
  split; [exact Hrun|].
  apply (greedy_policy_selects_best_action counter_sample self (2, 3)%Z 4
           "RIGHT" 5).
  - vm_compute. reflexivity.
  - apply (update_policy_greedy self0).
    + apply returned_Returns. vm_compute. reflexivity.
    + apply (bool_decide_unpack _). by vm_compute.
  - apply (bool_decide_unpack _). by vm_compute.
  - exact Hrun.
Defined.

Lemma update_policy_idempotent_witness :
  let self0 := Notebook.agent SarsaAgent in
  let self1 := returned self0 (_update_policy self0) in
  _update_policy self1 = Returns self1.
Proof.
  intros self0 self1.
  apply (update_policy_idempotent self0 self1).
  apply returned_Returns. vm_compute. reflexivity.
Defined.

Lemma update_policy_needs_actions_witness :
  _update_policy (DeadEnd.agent SarsaAgent) = Raises ValueError.
Proof.
  apply (update_policy_needs_actions (DeadEnd.agent SarsaAgent) 1%Z).
  - destruct (init_spec SarsaAgent DeadEnd.env 1%Qc (Q2Qc (4 # 10))
                (PyFloat (Q2Qc (5 # 100)))) as ((_ & _ & Henv & _) & HQ & _).
    intros k Hk. unfold DeadEnd.agent in *. rewrite Henv in Hk.
    rewrite HQ, decide_True by exact Hk. by eexists.
  - apply (bool_decide_unpack _). by vm_compute.
  - vm_compute. reflexivity.
Defined.

Lemma learn_splits_witness :
  learn counter_sample 3 (Notebook.agent SarsaAgent) (1 + 1) (1, 5)%Z 3 =
    '(self1, rng1) ← learn counter_sample 3 (Notebook.agent SarsaAgent) 1
                       (1, 5)%Z 3;
    learn counter_sample 3 self1 1 (1, 5)%Z rng1.
Proof.
  apply (learn_splits counter_sample 3 (Notebook.agent SarsaAgent) 1 1
           (1, 5)%Z 3); lia.
Defined.

Lemma learn_unknown_initial_state_witness :
  learn counter_sample 3 (Notebook.agent SarsaAgent) 1 (5, 5)%Z 0
    = Raises KeyError ∧
  learn counter_sample 3 (DeadEnd.agent SarsaAgent) 1 1%Z 0
    = Raises ValueError.
Proof.
  split.
  - apply (learn_unknown_initial_state counter_sample 3
             (Notebook.agent SarsaAgent) 1 (5, 5)%Z 0).
    + lia.
    + apply init_tables_enumerated.
    + apply (bool_decide_unpack _). by vm_compute.
    + vm_compute. discriminate.
  - apply (learn_unknown_initial_state counter_sample 3
             (DeadEnd.agent SarsaAgent) 1 1%Z 0).
    + lia.
    + vm_compute. reflexivity.
Defined.

Lemma terminal_values_never_change_witness :
  let self := Notebook.agent SarsaAgent in
  let run :=
    returned (self, 0)
      (learn_calls counter_sample 4 self [(1%Z, (1, 5)%Z)] 3) in
  Q run.1 !! ((1, 4)%Z, "UP") = Q self !! ((1, 4)%Z, "UP").
Proof.
  intros self run.
  apply (terminal_values_never_change counter_sample 4 [(1%Z, (1, 5)%Z)]
           self 3 run.1 run.2 ((1, 4)%Z, "UP")).
  - unfold run.
    apply (returned_run (self, 0)
             (learn_calls counter_sample 4 self [(1%Z, (1, 5)%Z)] 3)).
    vm_compute. reflexivity.
  - vm_compute. reflexivity.
Defined.

Lemma sample_returns_episode_witness :
  let run :=
    returned ([], 0)
      (sample counter_sample 5 Notebook.env
         (policy (Notebook.agent SarsaAgent)) (1, 5)%Z 3) in
  trajectory_from Notebook.env (1, 5)%Z run.1 ∧
  length run.1 < 5 ∧
  (ObservableEnvironment.is_terminal_state Notebook.env (1, 5)%Z
     = Returns true →
   run.1 = [] ∧ run.2 = 3).
Proof.
  intros run.
  apply (sample_returns_episode counter_sample 5 Notebook.env
           (policy (Notebook.agent SarsaAgent)) (1, 5)%Z run.1 3 run.2).
  unfold run.
  apply (returned_run ([], 0)
           (sample counter_sample 5 Notebook.env
              (policy (Notebook.agent SarsaAgent)) (1, 5)%Z 3)).
  vm_compute. reflexivity.
Defined.


Lemma values_stay_nonpositive_witness :
  let self := Notebook.agent SarsaAgent in
  let run :=
    returned (self, 0)
      (learn_calls counter_sample 4 self [(1%Z, (1, 5)%Z)] 3) in
  values_nonpositive run.1.
Proof.
  intros self run.
  apply (values_stay_nonpositive counter_sample 4 [(1%Z, (1, 5)%Z)]
           self 3 run.1 run.2).
  - apply (windy_rewards_nonpositive Notebook.world).
    apply (bool_decide_unpack _). by vm_compute.
  - split; apply (bool_decide_unpack _); by vm_compute.
  - apply (bool_decide_unpack _). by vm_compute.
  - split; apply (bool_decide_unpack _); by vm_compute.
  - apply init_values_nonpositive.
  - apply init_policy_nonnegative.
  - unfold run.
    apply (returned_run (self, 0)
             (learn_calls counter_sample 4 self [(1%Z, (1, 5)%Z)] 3)).
    vm_compute. reflexivity.
Defined.

Lemma draw_policy_prints_greedy_actions_witness :
  draw_policy (Notebook.agent SarsaAgent) 3 6
  = ((λ i : Z, foldr String.append ""
                 ((λ j : Z, if (i <? 2)%Z then "↓"
                            else if (j <? 5)%Z then "→" else "↑")
                  <$> range 6))
       <$> range 3,
     Returns ()).
Proof.
  apply (draw_policy_prints_greedy_actions (RandomState := nat)
           (Notebook.agent SarsaAgent) 3 6
           (λ i j, if (i <? 2)%Z then "DOWN"
                   else if (j <? 5)%Z then "RIGHT" else "UP")
           (λ i j, if (i <? 2)%Z then "↓"
                   else if (j <? 5)%Z then "→" else "↑"));
    [lia|lia|].
  intros i j Hi Hj.
  assert (i = 0 ∨ i = 1 ∨ i = 2)%Z as [->|[->| ->]] by lia;
    assert (j = 0 ∨ j = 1 ∨ j = 2 ∨ j = 3 ∨ j = 4 ∨ j = 5)%Z
      as [->|[->|[->|[->|[->| ->]]]]] by lia;
    (split; [vm_compute; reflexivity|reflexivity]).
Defined.

Lemma draw_policy_beyond_grid_witness :
  draw_policy (Notebook.agent SarsaAgent) (3 + 1) 6
  = (["↓↓↓↓↓↓"; "↓↓↓↓↓↓"; "→→→→→↑"], Raises KeyError) ∧
  draw_policy (Notebook.agent SarsaAgent) 3 (6 + 1) = ([], Raises KeyError).
Proof.
  apply (draw_policy_beyond_grid (RandomState := nat)
           (Notebook.agent SarsaAgent) Notebook.R Notebook.wind
           ["↓↓↓↓↓↓"; "↓↓↓↓↓↓"; "→→→→→↑"]).
  - reflexivity.
  - intros k Hk.
    destruct (init_tables_enumerated SarsaAgent Notebook.env 1%Qc
                (Q2Qc (4 # 10)) (PyFloat (Q2Qc (5 # 100))) k) as [HQ _].
    apply HQ. exact Hk.
  - vm_compute. discriminate.
  - vm_compute. discriminate.
  - vm_compute. reflexivity.
Defined.
